(** * Puzzle trainer (crates/web/static/js/puzzles.js): board state, move
      generation, answer checking and the input handlers.

    The JavaScript closure keeps one mutable [state] object; every function
    below takes that object as an explicit [State] value and returns the
    updated one.  Timers and animation callbacks are represented as data
    ([callback]) that the environment fires later; an animation function
    that finds no piece image to move runs its callback at once, inside the
    handler that called it.

    Strings are Rocq strings of 8-bit characters.  The embedding is exact for
    ASCII text, which is what FEN strings, squares and move codes are made of;
    [toUpperCase]/[toLowerCase] change the letters a-z / A-Z only. *)

From Stdlib Require Import ZArith Ascii String List Lia Bool.
From stdpp Require Import base option gmap strings list fin_maps.
Import ListNotations.

Local Open Scope Z_scope.
Local Open Scope string_scope.

(** ** JavaScript strings *)

Module JsString.

(** [s[i]]: a one-character string, or [undefined] ([None]). *)
Fixpoint charAt (s : string) (i : nat) : option string :=
  match s, i with
  | EmptyString, _ => None
  | String c _, O => Some (String c EmptyString)
  | String _ s', S i' => charAt s' i'
  end.

Definition upperChar (c : ascii) : ascii :=
  let n := nat_of_ascii c in
  if ((97 <=? n) && (n <=? 122))%nat then ascii_of_nat (n - 32) else c.

Definition lowerChar (c : ascii) : ascii :=
  let n := nat_of_ascii c in
  if ((65 <=? n) && (n <=? 90))%nat then ascii_of_nat (n + 32) else c.

Fixpoint mapChars (f : ascii → ascii) (s : string) : string :=
  match s with
  | EmptyString => EmptyString
  | String c s' => String (f c) (mapChars f s')
  end.

Definition toUpperCase : string → string := mapChars upperChar.
Definition toLowerCase : string → string := mapChars lowerChar.

(** [s.split(sep)] for a one-character separator. *)
Fixpoint splitAux (sep : ascii) (cur : string) (s : string) : list string :=
  match s with
  | EmptyString => [cur]
  | String c s' =>
      if Ascii.eqb c sep then cur :: splitAux sep EmptyString s'
      else splitAux sep (cur ++ String c EmptyString) s'
  end.

Definition split (sep : ascii) (s : string) : list string :=
  splitAux sep EmptyString s.

(** [s.includes(c)] for a one-character needle. *)
Fixpoint includes (c : ascii) (s : string) : bool :=
  match s with
  | EmptyString => false
  | String d s' => Ascii.eqb d c || includes c s'
  end.

(** [s.replace(c, '')]: only the first occurrence is removed. *)
Fixpoint removeFirst (c : ascii) (s : string) : string :=
  match s with
  | EmptyString => EmptyString
  | String d s' => if Ascii.eqb d c then s' else String d (removeFirst c s')
  end.

(** [s.startsWith(p)]. *)
Fixpoint startsWith (p s : string) : bool :=
  match p, s with
  | EmptyString, _ => true
  | String _ _, EmptyString => false
  | String a p', String b s' => Ascii.eqb a b && startsWith p' s'
  end.

(** [s.substring(a, b)] for [a <= b]. *)
Definition substring (a b : nat) (s : string) : string :=
  String.substring a (b - a) s.

(** [x + y] where at most one operand may be [undefined]; with both
    undefined the sum is the number NaN, whose property key is "NaN". *)
Definition add (x y : option string) : string :=
  match x, y with
  | Some a, Some b => a ++ b
  | None, Some b => "undefined" ++ b
  | Some a, None => a ++ "undefined"
  | None, None => "NaN"
  end.

(** Truthiness of a value that is a string or [undefined]/[null]. *)
Definition truthy (v : option string) : bool :=
  match v with
  | Some s => negb (String.eqb s "")
  | None => false
  end.

(** [x === y] on values that are strings or [undefined]. *)
Definition strictEq (x y : option string) : bool :=
  match x, y with
  | Some a, Some b => String.eqb a b
  | None, None => true
  | _, _ => false
  end.

End JsString.

Import JsString.

(** ** Arrays of constants *)

Definition FILES : list string := ["a"; "b"; "c"; "d"; "e"; "f"; "g"; "h"].
Definition RANKS : list string := ["1"; "2"; "3"; "4"; "5"; "6"; "7"; "8"].

(** [arr[i]] for a numeric index; out of range gives [undefined]. *)
Definition at_index (arr : list string) (i : Z) : option string :=
  if (0 <=? i)%Z then nth_error arr (Z.to_nat i) else None.

(** [arr.indexOf(x)]: index of the first element [=== x], or -1. *)
Fixpoint indexOfFrom (arr : list string) (x : option string) (i : Z) : Z :=
  match arr with
  | [] => -1
  | y :: arr' => if strictEq (Some y) x then i else indexOfFrom arr' x (i + 1)
  end.

Definition indexOf (arr : list string) (x : option string) : Z :=
  indexOfFrom arr x 0.

(** ** Objects used as maps

    [state.pieces] is a plain object keyed by square name.  A property may
    hold [undefined] (after [pieces[to] = pieces[from]] with [from] empty),
    so values are [option string]. *)

Definition getProp (o : gmap string (option string)) (k : string) : option string :=
  default None (o !! k).

Definition setProp (o : gmap string (option string)) (k : string) (v : option string)
  : gmap string (option string) :=
  <[k := v]> o.

Definition deleteProp (o : gmap string (option string)) (k : string)
  : gmap string (option string) :=
  delete k o.

(** ** FEN parsing *)

Inductive color := white | black.

Definition color_eqb (a b : color) : bool :=
  match a, b with
  | white, white | black, black => true
  | _, _ => false
  end.

Inductive result (A : Type) :=
  | Ok (a : A)
  | TypeError.
Arguments Ok {A} a.
Arguments TypeError {A}.

Record Parsed := {
  p_pieces : gmap string (option string);
  p_turn : color;
  p_castling : string
}.

(** [char >= '1' && char <= '8'] *)
Definition isDigit18 (c : ascii) : bool :=
  let n := nat_of_ascii c in ((49 <=? n) && (n <=? 56))%nat.

(** [parseInt(char)] for such a digit. *)
Definition parseInt (c : ascii) : Z := Z.of_nat (nat_of_ascii c) - 48.

(** The inner loop [for (const char of row)]: threads [pieces] and [fileIdx]. *)
Fixpoint parseRow (rank : option string) (row : string)
    (pieces : gmap string (option string)) (fileIdx : Z)
  : gmap string (option string) * Z :=
  match row with
  | EmptyString => (pieces, fileIdx)
  | String c row' =>
      if isDigit18 c then parseRow rank row' pieces (fileIdx + parseInt c)
      else
        let file := at_index FILES fileIdx in
        let square := add file rank in
        parseRow rank row' (setProp pieces square (Some (String c EmptyString)))
                 (fileIdx + 1)
  end.

(** The outer loop [for (rankIdx = 0; rankIdx < 8; rankIdx++)], counted by
    the number of iterations left.  Iterating [rows[rankIdx]] when it is
    [undefined] throws a TypeError. *)
Fixpoint parseRows (left : nat) (rankIdx : Z) (rows : list string)
    (pieces : gmap string (option string))
  : result (gmap string (option string)) :=
  match left with
  | O => Ok pieces
  | S left' =>
      match at_index rows rankIdx with
      | None => TypeError
      | Some row =>
          let rank := at_index RANKS (7 - rankIdx) in
          let '(pieces', _) := parseRow rank row pieces 0 in
          parseRows left' (rankIdx + 1) rows pieces'
      end
  end.

(** [a || b] on strings. *)
Definition orElse (a : option string) (b : string) : string :=
  match a with
  | Some s => if String.eqb s "" then b else s
  | None => b
  end.

Definition parseFen (fen : string) : result Parsed :=
  let parts := split " " fen in
  let turn := orElse (nth_error parts 1) "w" in
  let castling := orElse (nth_error parts 2) "-" in
  match nth_error parts 0 with
  | None => TypeError
  | Some position =>
      let rows := split "/" position in
      match parseRows 8 0 rows ∅ with
      | TypeError => TypeError
      | Ok pieces =>
          Ok {| p_pieces := pieces;
                p_turn := if String.eqb turn "w" then white else black;
                p_castling := if String.eqb castling "-" then "" else castling |}
      end
  end.

(** ** The session state

    The fields of the [state] object that the game logic reads or writes.
    [perspective] and [dragElement] only feed the DOM and are left out, and
    so are [dragStartX]/[dragStartY] together with [onMouseMove], the one
    handler that reads them (it is also the one writer of
    [hasDragged = true]; the statements below hold for every value of
    [hasDragged]). *)

Record Puzzle := {
  fen : string;
  best_move : string
}.

Record State := {
  puzzle : option Puzzle;
  selectedSquare : option string;
  solved : bool;
  pieces : gmap string (option string);
  turn : color;
  lastMove : option (string * string);
  castling : string;
  dragging : option string;
  hasDragged : bool;
  currentHoverSquare : option string;
  totalSolved : Z;
  totalAttempts : Z;
  animating : bool
}.

Definition set_puzzle (v : option Puzzle) (s : State) : State :=
  {| puzzle := v; selectedSquare := selectedSquare s; solved := solved s;
     pieces := pieces s; turn := turn s; lastMove := lastMove s;
     castling := castling s; dragging := dragging s; hasDragged := hasDragged s;
     currentHoverSquare := currentHoverSquare s; totalSolved := totalSolved s;
     totalAttempts := totalAttempts s; animating := animating s |}.

Definition set_selectedSquare (v : option string) (s : State) : State :=
  {| puzzle := puzzle s; selectedSquare := v; solved := solved s;
     pieces := pieces s; turn := turn s; lastMove := lastMove s;
     castling := castling s; dragging := dragging s; hasDragged := hasDragged s;
     currentHoverSquare := currentHoverSquare s; totalSolved := totalSolved s;
     totalAttempts := totalAttempts s; animating := animating s |}.

Definition set_solved (v : bool) (s : State) : State :=
  {| puzzle := puzzle s; selectedSquare := selectedSquare s; solved := v;
     pieces := pieces s; turn := turn s; lastMove := lastMove s;
     castling := castling s; dragging := dragging s; hasDragged := hasDragged s;
     currentHoverSquare := currentHoverSquare s; totalSolved := totalSolved s;
     totalAttempts := totalAttempts s; animating := animating s |}.

Definition set_pieces (v : gmap string (option string)) (s : State) : State :=
  {| puzzle := puzzle s; selectedSquare := selectedSquare s; solved := solved s;
     pieces := v; turn := turn s; lastMove := lastMove s;
     castling := castling s; dragging := dragging s; hasDragged := hasDragged s;
     currentHoverSquare := currentHoverSquare s; totalSolved := totalSolved s;
     totalAttempts := totalAttempts s; animating := animating s |}.

Definition set_turn (v : color) (s : State) : State :=
  {| puzzle := puzzle s; selectedSquare := selectedSquare s; solved := solved s;
     pieces := pieces s; turn := v; lastMove := lastMove s;
     castling := castling s; dragging := dragging s; hasDragged := hasDragged s;
     currentHoverSquare := currentHoverSquare s; totalSolved := totalSolved s;
     totalAttempts := totalAttempts s; animating := animating s |}.

Definition set_lastMove (v : option (string * string)) (s : State) : State :=
  {| puzzle := puzzle s; selectedSquare := selectedSquare s; solved := solved s;
     pieces := pieces s; turn := turn s; lastMove := v;
     castling := castling s; dragging := dragging s; hasDragged := hasDragged s;
     currentHoverSquare := currentHoverSquare s; totalSolved := totalSolved s;
     totalAttempts := totalAttempts s; animating := animating s |}.

Definition set_castling (v : string) (s : State) : State :=
  {| puzzle := puzzle s; selectedSquare := selectedSquare s; solved := solved s;
     pieces := pieces s; turn := turn s; lastMove := lastMove s;
     castling := v; dragging := dragging s; hasDragged := hasDragged s;
     currentHoverSquare := currentHoverSquare s; totalSolved := totalSolved s;
     totalAttempts := totalAttempts s; animating := animating s |}.

Definition set_dragging (v : option string) (s : State) : State :=
  {| puzzle := puzzle s; selectedSquare := selectedSquare s; solved := solved s;
     pieces := pieces s; turn := turn s; lastMove := lastMove s;
     castling := castling s; dragging := v; hasDragged := hasDragged s;
     currentHoverSquare := currentHoverSquare s; totalSolved := totalSolved s;
     totalAttempts := totalAttempts s; animating := animating s |}.

Definition set_hasDragged (v : bool) (s : State) : State :=
  {| puzzle := puzzle s; selectedSquare := selectedSquare s; solved := solved s;
     pieces := pieces s; turn := turn s; lastMove := lastMove s;
     castling := castling s; dragging := dragging s; hasDragged := v;
     currentHoverSquare := currentHoverSquare s; totalSolved := totalSolved s;
     totalAttempts := totalAttempts s; animating := animating s |}.

Definition set_currentHoverSquare (v : option string) (s : State) : State :=
  {| puzzle := puzzle s; selectedSquare := selectedSquare s; solved := solved s;
     pieces := pieces s; turn := turn s; lastMove := lastMove s;
     castling := castling s; dragging := dragging s; hasDragged := hasDragged s;
     currentHoverSquare := v; totalSolved := totalSolved s;
     totalAttempts := totalAttempts s; animating := animating s |}.

Definition set_totalSolved (v : Z) (s : State) : State :=
  {| puzzle := puzzle s; selectedSquare := selectedSquare s; solved := solved s;
     pieces := pieces s; turn := turn s; lastMove := lastMove s;
     castling := castling s; dragging := dragging s; hasDragged := hasDragged s;
     currentHoverSquare := currentHoverSquare s; totalSolved := v;
     totalAttempts := totalAttempts s; animating := animating s |}.

Definition set_totalAttempts (v : Z) (s : State) : State :=
  {| puzzle := puzzle s; selectedSquare := selectedSquare s; solved := solved s;
     pieces := pieces s; turn := turn s; lastMove := lastMove s;
     castling := castling s; dragging := dragging s; hasDragged := hasDragged s;
     currentHoverSquare := currentHoverSquare s; totalSolved := totalSolved s;
     totalAttempts := v; animating := animating s |}.

Definition set_animating (v : bool) (s : State) : State :=
  {| puzzle := puzzle s; selectedSquare := selectedSquare s; solved := solved s;
     pieces := pieces s; turn := turn s; lastMove := lastMove s;
     castling := castling s; dragging := dragging s; hasDragged := hasDragged s;
     currentHoverSquare := currentHoverSquare s; totalSolved := totalSolved s;
     totalAttempts := totalAttempts s; animating := v |}.

(** The initial value of [state]. *)
Definition initialState : State :=
  {| puzzle := None; selectedSquare := None; solved := false;
     pieces := ∅; turn := white; lastMove := None; castling := "";
     dragging := None; hasDragged := false; currentHoverSquare := None;
     totalSolved := 0; totalAttempts := 0; animating := false |}.

(** [piece === piece.toUpperCase()] *)
Definition isUpper (piece : string) : bool :=
  String.eqb piece (toUpperCase piece).

(** The same test on a value already known to be truthy at every use. *)
Definition isUpperValue (v : option string) : bool :=
  match v with
  | Some p => isUpper p
  | None => false
  end.

Definition isOwnPiece (s : State) (square : string) : bool :=
  let piece := getProp (pieces s) square in
  if negb (truthy piece) then false
  else
    let isWhitePiece := isUpperValue piece in
    Bool.eqb (color_eqb (turn s) white) isWhitePiece.

Definition isEnemyPiece (s : State) (square : string) : bool :=
  let piece := getProp (pieces s) square in
  if negb (truthy piece) then false
  else
    let isWhitePiece := isUpperValue piece in
    negb (Bool.eqb (color_eqb (turn s) white) isWhitePiece).

(** ** Move generation *)

(** [moves.push(x)] *)
Definition push (moves : list string) (x : string) : list string :=
  app moves [x].

Definition inBoard (f r : Z) : bool :=
  ((0 <=? f) && (f <? 8) && (0 <=? r) && (r <? 8))%Z.

Definition inRange (i : Z) : bool := ((0 <=? i) && (i <? 8))%Z.

Section MoveGeneration.

Variable st : State.
Variable isWhite : bool.

Definition isEmpty (sq : string) : bool :=
  negb (truthy (getProp (pieces st) sq)).

(** [addMove(f, r)]; [moves.push] appends at the end. *)
Definition addMove (moves : list string) (f r : Z) : list string :=
  if inBoard f r then
    let target := add (at_index FILES f) (at_index RANKS r) in
    let targetPiece := getProp (pieces st) target in
    if negb (truthy targetPiece) || xorb isWhite (isUpperValue targetPiece)
    then push moves target
    else moves
  else moves.

(** The [while] loop of [addSlide], from the current [(f, r)]; [fuel]
    bounds the number of iterations (see [slideLoop_fuel]). *)
Fixpoint slideLoop (fuel : nat) (df dr : Z) (f r : Z) (moves : list string)
  : list string :=
  match fuel with
  | O => moves
  | S fuel' =>
      if inBoard f r then
        let target := add (at_index FILES f) (at_index RANKS r) in
        let targetPiece := getProp (pieces st) target in
        if negb (truthy targetPiece)
        then slideLoop fuel' df dr (f + df) (r + dr) (push moves target)
        else if xorb isWhite (isUpperValue targetPiece)
             then push moves target
             else moves
      else moves
  end.

Definition addSlide (fileIdx rankIdx : Z) (moves : list string) (df dr : Z)
  : list string :=
  slideLoop 8 df dr (fileIdx + df) (rankIdx + dr) moves.

Definition knightOffsets : list (Z * Z) :=
  [(-2,-1); (-2,1); (-1,-2); (-1,2); (1,-2); (1,2); (2,-1); (2,1)].
Definition bishopDirs : list (Z * Z) := [(-1,-1); (-1,1); (1,-1); (1,1)].
Definition rookDirs : list (Z * Z) := [(-1,0); (1,0); (0,-1); (0,1)].
Definition queenDirs : list (Z * Z) :=
  [(-1,-1); (-1,1); (1,-1); (1,1); (-1,0); (1,0); (0,-1); (0,1)].
Definition kingOffsets : list (Z * Z) :=
  [(-1,-1); (-1,0); (-1,1); (0,-1); (0,1); (1,-1); (1,0); (1,1)].

Definition addMoves (fileIdx rankIdx : Z) (offs : list (Z * Z))
    (moves : list string) : list string :=
  fold_left (λ ms '(df, dr), addMove ms (fileIdx + df) (rankIdx + dr)) offs moves.

Definition addSlides (fileIdx rankIdx : Z) (dirs : list (Z * Z))
    (moves : list string) : list string :=
  fold_left (λ ms '(df, dr), addSlide fileIdx rankIdx ms df dr) dirs moves.

(** [case 'P'] *)
Definition pawnMoves (fileIdx rankIdx : Z) (moves : list string) : list string :=
  let dir := if isWhite then 1 else -1 in
  let startRank := if isWhite then 1 else 6 in
  let fwdRank := rankIdx + dir in
  if inRange fwdRank then
    let fwd := add (at_index FILES fileIdx) (at_index RANKS fwdRank) in
    let moves1 :=
      if negb (truthy (getProp (pieces st) fwd)) then
        let moves' := push moves fwd in
        if (rankIdx =? startRank)%Z then
          let fwd2 := add (at_index FILES fileIdx)
                          (at_index RANKS (rankIdx + 2 * dir)) in
          if negb (truthy (getProp (pieces st) fwd2)) then push moves' fwd2
          else moves'
        else moves'
      else moves in
    fold_left
      (λ ms df,
         if inRange (fileIdx + df) then
           let cap := add (at_index FILES (fileIdx + df)) (at_index RANKS fwdRank) in
           let capPiece := getProp (pieces st) cap in
           if truthy capPiece && xorb isWhite (isUpperValue capPiece)
           then push ms cap
           else ms
         else ms)
      [-1; 1] moves1
  else moves.

(** The castling part of [case 'K']. *)
Definition castlingMoves (file rank : option string) (moves : list string)
  : list string :=
  if isWhite && strictEq rank (Some "1") && strictEq file (Some "e") then
    let moves1 :=
      if includes "K" (castling st) && isEmpty "f1" && isEmpty "g1"
      then push moves "g1" else moves in
    if includes "Q" (castling st) && isEmpty "d1" && isEmpty "c1" && isEmpty "b1"
    then push moves1 "c1" else moves1
  else if negb isWhite && strictEq rank (Some "8") && strictEq file (Some "e") then
    let moves1 :=
      if includes "k" (castling st) && isEmpty "f8" && isEmpty "g8"
      then push moves "g8" else moves in
    if includes "q" (castling st) && isEmpty "d8" && isEmpty "c8" && isEmpty "b8"
    then push moves1 "c8" else moves1
  else moves.

End MoveGeneration.

Definition getPseudoLegalMoves (st : State) (square : string) : list string :=
  match getProp (pieces st) square with
  | None => []
  | Some piece =>
      if String.eqb piece "" then []
      else
        let moves := [] in
        let file := charAt square 0 in
        let rank := charAt square 1 in
        let fileIdx := indexOf FILES file in
        let rankIdx := indexOf RANKS rank in
        let isWhite := isUpper piece in
        let type := toUpperCase piece in
        if String.eqb type "P" then pawnMoves st isWhite fileIdx rankIdx moves
        else if String.eqb type "N" then
          addMoves st isWhite fileIdx rankIdx knightOffsets moves
        else if String.eqb type "B" then
          addSlides st isWhite fileIdx rankIdx bishopDirs moves
        else if String.eqb type "R" then
          addSlides st isWhite fileIdx rankIdx rookDirs moves
        else if String.eqb type "Q" then
          addSlides st isWhite fileIdx rankIdx queenDirs moves
        else if String.eqb type "K" then
          castlingMoves st isWhite file rank
            (addMoves st isWhite fileIdx rankIdx kingOffsets moves)
        else moves
  end.

(** ** The page

    [renderBoard] rebuilds the board from [state.pieces]: one element for
    each square of the eight files and ranks, with the name of the square in
    [data-square] and a piece image inside exactly when [state.pieces] holds
    a truthy value for that square.  Every write to [state.pieces] (in
    [loadPuzzle] and in the animation callbacks) is followed by
    [renderBoard] before the handler returns.  So whenever an animation is
    asked for, the page shows the pieces of the state of that moment; this
    is how the three animation functions below read the page.  The page is
    taken to contain the [chess-board] element. *)

(** The name of the square in file [f] and rank [r], as every handler
    builds it: [FILES[f] + RANKS[r]]. *)
Definition squareName (f r : Z) : string :=
  add (at_index FILES f) (at_index RANKS r).

Definition allSquares : list string :=
  flat_map (λ f, List.map (λ r, f ++ r) RANKS) FILES.

(** A well-formed square: file a-h followed by rank 1-8. *)
Definition isSquare (sq : string) : bool :=
  existsb (String.eqb sq) allSquares.

(** [getSquareElement(square)]: whether an element is found. *)
Definition getSquareElement (square : string) : bool := isSquare square.

(** [getSquareElement(square)?.querySelector('.piece')]: whether the square
    shows a piece image. *)
Definition pieceElement (s : State) (square : string) : bool :=
  getSquareElement square && truthy (getProp (pieces s) square).

(** How a call of an animation function ends: it has started an animation
    whose timer runs the callback later; it has run the callback itself
    before it returns; or it has thrown a TypeError. *)
Inductive animation := Animates | CallsBack | Throws.

(** [animateMove]: the callback runs at once if
    [!fromEl || !toEl || !pieceEl]. *)
Definition animateMove (s : State) (from to : string) : animation :=
  if negb (getSquareElement from) || negb (getSquareElement to)
     || negb (pieceElement s from)
  then CallsBack else Animates.

(** [animateWrongMove] starts with the same test. *)
Definition animateWrongMove (s : State) (from to : string) : animation :=
  if negb (getSquareElement from) || negb (getSquareElement to)
     || negb (pieceElement s from)
  then CallsBack else Animates.

(** [animateCastling]: the callback runs at once if [!kingPiece || !rookPiece];
    otherwise [getBoundingClientRect] is called on the four square elements,
    which throws if the king's or the rook's destination has none. *)
Definition animateCastling (s : State) (kingFrom kingTo : string) : animation :=
  let rank := charAt kingFrom 1 in
  let isKingside := strictEq (charAt kingTo 0) (Some "g") in
  let rookFrom := if isKingside then add (Some "h") rank else add (Some "a") rank in
  let rookTo := if isKingside then add (Some "f") rank else add (Some "d") rank in
  if negb (pieceElement s kingFrom) || negb (pieceElement s rookFrom) then CallsBack
  else if getSquareElement kingTo && getSquareElement rookTo then Animates
  else Throws.

(** ** Move handling *)

(** Work that the program has handed to a timer, an animation or the
    network and that runs later, in its own turn of the event loop. *)
Inductive callback :=
  | AttemptCastleDone (from to : string)
      (** callback given to [animateCastling] by [attemptMove] *)
  | AttemptMoveDone (from to bestMove : string)
      (** callback given to [animateMove] by [attemptMove] *)
  | WrongMoveDone
      (** callback given to [animateWrongMove] *)
  | SolvedTimer
      (** the [setTimeout(..., 150)] of [afterMove] *)
  | ContinuationFetch
      (** the pending [fetch] of [loadContinuation] *)
  | SleepDone (moves : list string)
      (** [await sleep(400)] in [playContinuation], with the moves still to play *)
  | ExecCastleDone (from to : string) (rest : list string)
      (** callback given to [animateCastling] by [executeMove] *)
  | ExecMoveDone (from to : string) (promo : option string) (rest : list string)
      (** callback given to [animateMove] by [executeMove] *).

Inductive verdict := Correct | Incorrect.

(** What one handler run leaves behind: the new state, the callbacks it
    scheduled, the judgement if a move attempt was judged, and whether the
    run was cut short by a TypeError. *)
Record Out := {
  o_state : State;
  o_sched : list callback;
  o_verdict : option verdict;
  o_threw : bool
}.

Definition ret (s : State) : Out :=
  {| o_state := s; o_sched := []; o_verdict := None; o_threw := false |}.

Definition isCastlingMove (s : State) (from to : string) : bool :=
  match getProp (pieces s) from with
  | None => false
  | Some piece =>
      if String.eqb piece "" then false
      else if negb (String.eqb (toUpperCase piece) "K") then false
      else
        let fromFile := indexOf FILES (charAt from 0) in
        let toFile := indexOf FILES (charAt to 0) in
        (Z.abs (toFile - fromFile) =? 2)%Z
  end.

(** The test [isCorrect] of [attemptMove]. *)
Definition isCorrect (best_move from to : string) : bool :=
  let move := from ++ to in
  let bestMove := toLowerCase best_move in
  let moveBase := toLowerCase move in
  String.eqb bestMove moveBase
  || (startsWith moveBase bestMove && (String.length bestMove =? 5)%nat).

Definition executeCastling (kingFrom kingTo : string) (s : State) : State :=
  let rank := charAt kingFrom 1 in
  let isKingside := strictEq (charAt kingTo 0) (Some "g") in
  let p1 := setProp (pieces s) kingTo (getProp (pieces s) kingFrom) in
  let p2 := deleteProp p1 kingFrom in
  let p3 :=
    if isKingside then
      deleteProp (setProp p2 (add (Some "f") rank) (getProp p2 (add (Some "h") rank)))
                 (add (Some "h") rank)
    else
      deleteProp (setProp p2 (add (Some "d") rank) (getProp p2 (add (Some "a") rank)))
                 (add (Some "a") rank) in
  let c :=
    match turn s with
    | white => removeFirst "Q" (removeFirst "K" (castling s))
    | black => removeFirst "q" (removeFirst "k" (castling s))
    end in
  set_castling c (set_pieces p3 s).

(** [pieces[to] = pieces[from]; delete pieces[from]] followed by the
    optional promotion, as in both [animateMove] callbacks. *)
Definition movePiece (from to : string) (promo : option string) (s : State) : State :=
  let p1 := setProp (pieces s) to (getProp (pieces s) from) in
  let p2 := deleteProp p1 from in
  let p3 :=
    if truthy promo then
      let isWhite := color_eqb (turn s) white in
      setProp p2 to (if isWhite then option_map toUpperCase promo
                     else option_map toLowerCase promo)
    else p2 in
  set_pieces p3 s.

(** [afterMove] of [attemptMove]. *)
Definition afterMove (from to : string) (s : State) : Out :=
  {| o_state := set_animating false (set_lastMove (Some (from, to)) s);
     o_sched := [SolvedTimer]; o_verdict := None; o_threw := false |}.

(** [playContinuation(moves)] up to its first [await]. *)
Definition playContinuation (moves : list string) (s : State) : Out :=
  match moves with
  | [] => ret (set_animating false (set_animating true s))
  | _ :: _ =>
      {| o_state := set_animating true s; o_sched := [SleepDone moves];
         o_verdict := None; o_threw := false |}
  end.

(** [afterAnim] of [executeMove], then the rest of the loop of
    [playContinuation] up to the next [await]. *)
Definition afterAnim (from to : string) (rest : list string) (s : State) : Out :=
  let s1 := set_turn (match turn s with white => black | black => white end) s in
  let s2 := set_lastMove (Some (from, to)) s1 in
  match rest with
  | [] => ret (set_animating false s2)
  | _ :: _ =>
      {| o_state := s2; o_sched := [SleepDone rest];
         o_verdict := None; o_threw := false |}
  end.

(** The callbacks that the handlers give to the animation functions. *)
Definition animationDone (cb : callback) (s : State) : Out :=
  match cb with
  | AttemptCastleDone from to => afterMove from to (executeCastling from to s)
  | AttemptMoveDone from to bestMove =>
      let promo := if (String.length bestMove =? 5)%nat then charAt bestMove 4
                   else None in
      afterMove from to (movePiece from to promo s)
  | WrongMoveDone => ret (set_animating false s)
  | ExecCastleDone from to rest => afterAnim from to rest (executeCastling from to s)
  | ExecMoveDone from to promo rest => afterAnim from to rest (movePiece from to promo s)
  | _ => ret s
  end.

(** A call of an animation function with callback [cb] in state [s]: the
    callback is scheduled, or has run when the call returns, or the call has
    thrown. *)
Definition animated (a : animation) (cb : callback) (s : State) : Out :=
  match a with
  | Animates => {| o_state := s; o_sched := [cb]; o_verdict := None; o_threw := false |}
  | CallsBack => animationDone cb s
  | Throws => {| o_state := s; o_sched := []; o_verdict := None; o_threw := true |}
  end.

(** [executeMove(uciMove)]; [rest] are the moves that [playContinuation]
    still has to play afterwards.  When [animateCastling] throws, the
    promise is rejected and [playContinuation] ends there; [loadContinuation]
    logs the error. *)
Definition executeMove (uciMove : string) (rest : list string) (s : State) : Out :=
  let from := substring 0 2 uciMove in
  let to := substring 2 4 uciMove in
  let promo := if (String.length uciMove =? 5)%nat then charAt uciMove 4 else None in
  let isCastle := isCastlingMove s from to in
  if isCastle
  then animated (animateCastling s from to) (ExecCastleDone from to rest) s
  else animated (animateMove s from to) (ExecMoveDone from to promo rest) s.

(** Running a scheduled callback. *)
Definition fire (cb : callback) (s : State) : Out :=
  match cb with
  | SolvedTimer =>
      let s1 := set_totalSolved (totalSolved s + 1) (set_solved true s) in
      {| o_state := s1;
         o_sched := match puzzle s1 with Some _ => [ContinuationFetch] | None => [] end;
         o_verdict := None; o_threw := false |}
  | ContinuationFetch => ret s   (* the request failed or was not ok *)
  | SleepDone [] => ret s
  | SleepDone (m :: rest) => executeMove m rest s
  | _ => animationDone cb s
  end.

(** The result of a handler run in which the attempt was judged [v]. *)
Definition judged (v : verdict) (o : Out) : Out :=
  {| o_state := o_state o; o_sched := o_sched o; o_verdict := Some v;
     o_threw := o_threw o |}.

Definition attemptMove (from to : string) (s : State) : Out :=
  if animating s then ret s
  else
    match puzzle s with
    | None => {| o_state := s; o_sched := []; o_verdict := None; o_threw := true |}
    | Some p =>
        let bestMove := toLowerCase (best_move p) in
        let s1 := set_totalAttempts (totalAttempts s + 1) s in
        if isCorrect (best_move p) from to then
          let isCastle := isCastlingMove s1 from to in
          let s2 := set_animating true s1 in
          if isCastle
          then judged Correct
                 (animated (animateCastling s2 from to) (AttemptCastleDone from to) s2)
          else judged Correct
                 (animated (animateMove s2 from to)
                    (AttemptMoveDone from to bestMove) s2)
        else
          let s2 := set_animating true s1 in
          judged Incorrect (animated (animateWrongMove s2 from to) WrongMoveDone s2)
    end.

(** [loadContinuation] from the point where the request has resolved with
    [data.moves]. *)
Definition loadContinuation (moves : list string) (s : State) : Out :=
  match moves with
  | [] => ret s
  | _ :: _ => playContinuation moves s
  end.

(** Reading a value that a guard has just found truthy, hence a string. *)
Definition strOf (v : option string) : string := default "" v.

Definition selectSquare (square : string) (s : State) : Out :=
  if animating s || solved s then ret s
  else
    let piece := getProp (pieces s) square in
    if negb (truthy (selectedSquare s)) then
      if truthy piece && isOwnPiece s square
      then ret (set_selectedSquare (Some square) s)
      else ret s
    else
      if strictEq (Some square) (selectedSquare s)
      then ret (set_selectedSquare None s)
      else if truthy piece && isOwnPiece s square
      then ret (set_selectedSquare (Some square) s)
      else
        let from := strOf (selectedSquare s) in
        attemptMove from square (set_selectedSquare None s).

(** [onMouseDown]; [square] is
    [e.target.closest('.chess-square')?.dataset.square]. *)
Definition onMouseDown (square : option string) (s : State) : Out :=
  if animating s || solved s then ret s
  else
    match square with
    | None => ret s
    | Some sq =>
        if String.eqb sq "" then ret s
        else if negb (isOwnPiece s sq) then ret s
        else ret (set_hasDragged false (set_dragging (Some sq) s))
    end.

(** [onMouseUp]; [dropSquare] is the result of [getSquareFromPoint]. *)
Definition onMouseUp (dropSquare : option string) (s : State) : Out :=
  let s1 := if truthy (currentHoverSquare s) then set_currentHoverSquare None s
            else s in
  let wasDragging := dragging s1 in
  let hadDragged := hasDragged s1 in
  let s2 := set_hasDragged false (set_dragging None s1) in
  if hadDragged && truthy wasDragging && truthy dropSquare
     && negb (strictEq dropSquare wasDragging)
  then attemptMove (strOf wasDragging) (strOf dropSquare) (set_selectedSquare None s2)
  else if negb hadDragged && truthy wasDragging
  then selectSquare (strOf wasDragging) s2
  else if negb (truthy wasDragging) && truthy dropSquare
  then selectSquare (strOf dropSquare) s2
  else ret (set_selectedSquare None s2).

(** [loadPuzzle] after the response arrived: the assignments made when
    [parseFen] returns; when it throws, [state.puzzle] is already replaced
    and the [catch] block leaves the rest as it was. *)
Definition loadPuzzle (p : Puzzle) (s : State) : State :=
  let s1 := set_puzzle (Some p) s in
  match parseFen (fen p) with
  | TypeError => s1
  | Ok parsed =>
      {| puzzle := Some p; selectedSquare := None; solved := false;
         pieces := p_pieces parsed; turn := p_turn parsed; lastMove := None;
         castling := p_castling parsed; dragging := None; hasDragged := false;
         currentHoverSquare := None; totalSolved := totalSolved s;
         totalAttempts := totalAttempts s; animating := false |}
  end.

(** ** The event loop

    One event runs one handler to completion.  A configuration is the state
    together with the callbacks that are scheduled and have not run yet. *)

Inductive event :=
  | PuzzleLoaded (p : Puzzle)            (** the puzzle request resolved *)
  | PointerDown (square : option string)
  | PointerUp (dropSquare : option string)
  | Timer (cb : callback)               (** a scheduled callback runs *)
  | Continuation (moves : list string)  (** the continuation request resolved *).

Global Instance callback_eq_dec : EqDecision callback.
Proof. solve_decision. Defined.

Fixpoint unschedule (cb : callback) (pending : list callback) : option (list callback) :=
  match pending with
  | [] => None
  | c :: pending' =>
      if decide (c = cb) then Some pending'
      else option_map (cons c) (unschedule cb pending')
  end.

Definition Config : Type := State * list callback.

Definition commit (o : Out) (pending : list callback) : Config :=
  (o_state o, app pending (o_sched o)).

Definition step (ev : event) (c : Config) : option Config :=
  let '(s, pending) := c in
  match ev with
  | PuzzleLoaded p => Some (loadPuzzle p s, pending)
  | PointerDown sq => Some (commit (onMouseDown sq s) pending)
  | PointerUp sq => Some (commit (onMouseUp sq s) pending)
  | Timer cb =>
      match unschedule cb pending with
      | Some pending' => Some (commit (fire cb s) pending')
      | None => None
      end
  | Continuation moves =>
      match unschedule ContinuationFetch pending with
      | Some pending' => Some (commit (loadContinuation moves s) pending')
      | None => None
      end
  end.

Fixpoint run (evs : list event) (c : Config) : option Config :=
  match evs with
  | [] => Some c
  | ev :: evs' =>
      match step ev c with
      | Some c' => run evs' c'
      | None => None
      end
  end.

(** ** Vocabulary of the statements *)

(** The four fields that make up the board state. *)
Definition board (s : State) :
    gmap string (option string) * color * string * option (string * string) :=
  (pieces s, turn s, castling s, lastMove s).

Inductive wing := kingside | queenside.

Definition homeSquare (c : color) : string :=
  match c with white => "e1" | black => "e8" end.

Definition kingOf (c : color) : string :=
  match c with white => "K" | black => "k" end.

Definition rookOf (c : color) : string :=
  match c with white => "R" | black => "r" end.

Definition homeRank (c : color) : string :=
  match c with white => "1" | black => "8" end.

Definition rightLetter (c : color) (w : wing) : ascii :=
  match c, w with
  | white, kingside => "K" | white, queenside => "Q"
  | black, kingside => "k" | black, queenside => "q"
  end%char.

Definition castleFile (w : wing) : string :=
  match w with kingside => "g" | queenside => "c" end.

Definition cornerFile (w : wing) : string :=
  match w with kingside => "h" | queenside => "a" end.

Definition rookFile (w : wing) : string :=
  match w with kingside => "f" | queenside => "d" end.

Definition betweenFiles (w : wing) : list string :=
  match w with kingside => ["f"; "g"] | queenside => ["d"; "c"; "b"] end.

(** The board that the program shows for a puzzle with this FEN. *)
Definition boardOfFen (f best : string) : State :=
  loadPuzzle {| fen := f; best_move := best |} initialState.

Definition castleFen : string := "r3k2r/8/8/8/8/8/8/R3K2R w KQkq -".
Definition startFen : string :=
  "rnbqkbnr/pppppppp/8/8/8/8/PPPPPPPP/RNBQKBNR w KQkq -".
Definition loneKingFen : string := "8/8/8/8/8/8/8/4K3 w K -".

Definition promotionFen : string := "8/4P3/8/8/8/8/8/k6K w - -".

Definition flipColor (c : color) : color :=
  match c with white => black | black => white end.

(** The rows of the piece-placement field, as [parseFen] splits them. *)
Definition fenRows (f : string) : list string :=
  split "/" (hd "" (split " " f)).

(** Number of files that a row describes: a digit 1-8 counts for its value,
    any other character for one file. *)
Fixpoint rowFiles (row : string) : Z :=
  match row with
  | EmptyString => 0
  | String c row' => (if isDigit18 c then parseInt c else 1) + rowFiles row'
  end.

Definition hasBadRow (f : string) : bool :=
  existsb (λ row, negb (rowFiles row =? 8)%Z) (fenRows f).

(** The reading of C2 that the code is checked against: a position with a
    row that does not describe exactly 8 files is rejected. *)
Definition rejectsBadRows (f : string) : Prop :=
  hasBadRow f = true → parseFen f = TypeError.

(** The starting position with one white pawn missing from the row of
    rank 2, which then describes 7 files. *)
Definition sevenPawnFen : string :=
  "rnbqkbnr/pppppppp/8/8/8/8/PPPPPPP/RNBQKBNR w KQkq -".

(** The square of a one-letter file on the rank written [r]. *)
Definition onRank (file : string) (r : ascii) : string :=
  file ++ String r EmptyString.

(** How often a right letter is listed in the castling string. *)
Fixpoint occurrences (c : ascii) (s : string) : nat :=
  match s with
  | EmptyString => 0
  | String d s' => ((if Ascii.eqb d c then 1 else 0) + occurrences c s')%nat
  end.

(** The reading of C4 that the code is checked against: the move of the
    king on [from] to [to] takes the rook of the king's colour from the
    corner on the king's rank to the square next to the king, removes both
    rights of that colour and keeps the other colour's. *)
Definition castlesAtomically (s : State) (from to : string) : Prop :=
  ∃ (c : color) (w : wing) (r : ascii),
    getProp (pieces s) from = Some (kingOf c)
    ∧ charAt from 1 = Some (String r EmptyString)
    ∧ charAt to 0 = Some (castleFile w)
    ∧ getProp (pieces s) (onRank (cornerFile w) r) = Some (rookOf c)
    ∧ getProp (pieces (executeCastling from to s)) (onRank (rookFile w) r)
      = Some (rookOf c)
    ∧ getProp (pieces (executeCastling from to s)) (onRank (cornerFile w) r) = None
    ∧ includes (rightLetter c kingside) (castling (executeCastling from to s)) = false
    ∧ includes (rightLetter c queenside) (castling (executeCastling from to s)) = false
    ∧ ∀ w', includes (rightLetter (flipColor c) w')
                     (castling (executeCastling from to s))
            = includes (rightLetter (flipColor c) w') (castling s).

(** The four ways in which the outside reaches the move logic: a square
    selection, a pointer-down, a pointer-up, and a direct move attempt. *)
Inductive input :=
  | SelectSquare (square : string)
  | PointerDownOn (square : option string)
  | PointerUpOn (dropSquare : option string)
  | MoveAttempt (from to : string).

Definition handle (i : input) (s : State) : Out :=
  match i with
  | SelectSquare sq => selectSquare sq s
  | PointerDownOn sq => onMouseDown sq s
  | PointerUpOn sq => onMouseUp sq s
  | MoveAttempt from to => attemptMove from to s
  end.

Definition verdicts (o : Out) : list verdict :=
  match o_verdict o with Some v => [v] | None => [] end.

(** Delivering inputs one after the other: the final state, everything
    that was scheduled and every verdict that was given on the way. *)
Fixpoint deliver (inputs : list input) (s : State)
  : State * list callback * list verdict :=
  match inputs with
  | [] => (s, [], [])
  | i :: inputs' =>
      let o := handle i s in
      let '(s', cbs, vs) := deliver inputs' (o_state o) in
      (s', app (o_sched o) cbs, app (verdicts o) vs)
  end.

(** The reading of C6 that the code is checked against: the input gives no
    verdict and changes neither the board nor the selection. *)
Definition inert (i : input) (s : State) : Prop :=
  o_verdict (handle i s) = None
  ∧ board (o_state (handle i s)) = board s
  ∧ selectedSquare (o_state (handle i s)) = selectedSquare s.

(** A session: the puzzle is solved with e2-e4 by two clicks; before the
    150 ms timer marks it solved the user clicks the pawn on d2, which is
    still an own piece; then the continuation arrives and starts playing. *)
Definition solvedThenClicked : list event :=
  [ PuzzleLoaded {| fen := startFen; best_move := "e2e4" |};
    PointerDown (Some "e2"); PointerUp (Some "e2");
    PointerDown (Some "e4"); PointerUp (Some "e4");
    Timer (AttemptMoveDone "e2" "e4" "e2e4");
    PointerDown (Some "d2"); PointerUp (Some "d2");
    Timer SolvedTimer;
    Continuation ["e7e5"; "g1f3"] ].

Definition stateAfter (evs : list event) : State :=
  match run evs (initialState, []) with
  | Some (s, _) => s
  | None => initialState
  end.

(** What every pushed destination looks like, seen from the origin
    [(f0, r0)]: the name of a square on the board other than the origin. *)
Definition generated (f0 r0 : Z) (d : string) : Prop :=
  ∃ f r, inBoard f r = true ∧ d = squareName f r ∧ (f ≠ f0 ∨ r ≠ r0).

Definition nonzero (d : Z * Z) : Prop := d.1 ≠ 0 ∨ d.2 ≠ 0.

(** File and rank index of a square name, as [getPseudoLegalMoves] reads
    them. *)
Definition fileIndex (sq : string) : Z := indexOf FILES (charAt sq 0).
Definition rankIndex (sq : string) : Z := indexOf RANKS (charAt sq 1).

(** The fields that no input may touch while [animating] is set. *)
Definition guarded (s : State) :=
  (puzzle s, solved s, board s, totalSolved s, totalAttempts s, animating s).

(** A session in which the continuation castles: white solves the puzzle
    with e2-e4, and the continuation answers with black's e8-g8. *)
Definition castleInContinuation : list event :=
  [ PuzzleLoaded {| fen := "r3k2r/8/8/8/8/8/4P3/R3K2R w KQkq -";
                    best_move := "e2e4" |};
    PointerDown (Some "e2"); PointerUp (Some "e2");
    PointerDown (Some "e4"); PointerUp (Some "e4");
    Timer (AttemptMoveDone "e2" "e4" "e2e4");
    Timer SolvedTimer;
    Continuation ["e8g8"];
    Timer (SleepDone ["e8g8"]);
    Timer (ExecCastleDone "e8" "g8" []) ].

(** ** Vocabulary of the further statements *)

(** A piece of colour [isWhite] may land on [d]: the square is empty or
    holds a piece of the other case.  This is the test of [addMove] and of
    the loop of [addSlide]. *)
Definition canLand (st : State) (isWhite : bool) (d : string) : bool :=
  isEmpty st d || xorb isWhite (isUpperValue (getProp (pieces st) d)).

(** The directions in which the piece of type [type] slides. *)
Definition sliderDirs (type : string) : list (Z * Z) :=
  if String.eqb type "B" then bishopDirs
  else if String.eqb type "R" then rookDirs
  else if String.eqb type "Q" then queenDirs
  else [].

(** The squares strictly between [(f0, r0)] and its [k]-th step in
    direction [(df, dr)] are all empty. *)
Definition clearRay (st : State) (f0 r0 df dr k : Z) : Prop :=
  ∀ j, (0 < j < k)%Z → isEmpty st (squareName (f0 + j * df) (r0 + j * dr)) = true.

(** What the castling branch of [case 'K'] tests for the king of colour [c]
    and the wing [w]. *)
Definition castleOffered (st : State) (c : color) (w : wing) : bool :=
  includes (rightLetter c w) (castling st)
  && forallb (λ f, isEmpty st (f ++ homeRank c)) (betweenFiles w).

(** ** Rendering decisions

    [renderBoard] builds DOM nodes; what it decides for one square from the
    state is kept here: the CSS classes [selected], [last-move],
    [can-capture], whether a piece image and whether a [move-dot] is
    added. *)

(** [validMoves] of [renderBoard]. *)
Definition validMovesOf (s : State) : list string :=
  if truthy (selectedSquare s) then getPseudoLegalMoves s (strOf (selectedSquare s))
  else [].

(** [arr.includes(x)] for an array of strings. *)
Definition arrayIncludes (arr : list string) (x : string) : bool :=
  existsb (String.eqb x) arr.

Record Marks := {
  m_selected : bool;
  m_lastMove : bool;
  m_piece : bool;
  m_canCapture : bool;
  m_moveDot : bool
}.

Definition squareMarks (s : State) (square : string) : Marks :=
  let validMoves := validMovesOf s in
  let piece := getProp (pieces s) square in
  {| m_selected := strictEq (selectedSquare s) (Some square);
     m_lastMove :=
       match lastMove s with
       | Some (from, to) => String.eqb from square || String.eqb to square
       | None => false
       end;
     m_piece := truthy piece;
     m_canCapture :=
       truthy piece && (arrayIncludes validMoves square && isEnemyPiece s square);
     m_moveDot := arrayIncludes validMoves square && negb (truthy piece) |}.

(** The piece that a FEN row puts on file [f], read off the row with the
    file counter starting at [fileIdx]: digits 1-8 advance the counter by
    their value, every other character sits on the current file. *)
Fixpoint pieceIn (row : string) (fileIdx f : Z) : option string :=
  match row with
  | EmptyString => None
  | String c row' =>
      if isDigit18 c then pieceIn row' (fileIdx + parseInt c) f
      else if (fileIdx =? f)%Z then Some (String c EmptyString)
      else pieceIn row' (fileIdx + 1) f
  end.

(** The row of the placement field that describes rank index [r]
    (0 for rank 1): rows run from rank 8 down to rank 1. *)
Definition rowOfRank (f : string) (r : Z) : option string :=
  at_index (fenRows f) (7 - r).

(** Every property of the object is named like a square. *)
Definition keysAreSquares (pieces : gmap string (option string)) : Prop :=
  ∀ k, is_Some (pieces !! k) → isSquare k = true.

(** Every property of the object holds a one-character string that is not
    a digit 1-8: never [undefined], never the empty string. *)
Definition valuesArePieces (pieces : gmap string (option string)) : Prop :=
  ∀ k v, pieces !! k = Some v →
         ∃ c, v = Some (String c EmptyString) ∧ isDigit18 c = false.

(** No row among the first eight describes more than 8 files. *)
Definition rowsFit (f : string) : bool :=
  forallb (λ row, (rowFiles row <=? 8)%Z) (firstn 8 (fenRows f)).

(** ** Moves run to their end *)

(** The callbacks that wait for an animation to end. *)
Definition isAnimationDone (cb : callback) : bool :=
  match cb with
  | AttemptCastleDone _ _ | AttemptMoveDone _ _ _ | WrongMoveDone
  | ExecCastleDone _ _ _ | ExecMoveDone _ _ _ _ => true
  | _ => false
  end.

(** A handler run followed at once by the animation callback it left
    pending, if it left one, with no other event in between. *)
Definition settle (o : Out) : Out :=
  match o_sched o with
  | [cb] => if isAnimationDone cb then fire cb (o_state o) else o
  | _ => o
  end.

(** [executeMove(uciMove)] with its animation callback run, at once or
    after the animation, with no other event in between; [rest] are the
    moves that [playContinuation] still holds. *)
Definition playMove (uciMove : string) (rest : list string) (s : State) : State :=
  o_state (settle (executeMove uciMove rest s)).



(** [showHint]: the square that gets the class [hint-from] and is named in
    the feedback line; nothing happens without a puzzle. *)
Definition showHint (s : State) : option string :=
  match puzzle s with
  | None => None
  | Some p => Some (substring 0 2 (best_move p))
  end.

(** The scheduled callbacks that will still raise [totalSolved]: a finished
    move animation of a Correct attempt leads to the 150 ms timer, and the
    timer counts the puzzle as solved. *)
Definition leadsToSolved (cb : callback) : Z :=
  match cb with
  | AttemptCastleDone _ _ | AttemptMoveDone _ _ _ | SolvedTimer => 1
  | _ => 0
  end.

Fixpoint pendingSolves (pending : list callback) : Z :=
  match pending with
  | [] => 0
  | cb :: pending' => leadsToSolved cb + pendingSolves pending'
  end.

(** The square in front of the king's home square. *)
Definition frontSquare (c : color) : string :=
  match c with white => "e2" | black => "e7" end.

(** How a handler moves the counters against what it schedules. *)
Definition keepsBalance (s : State) (o : Out) : Prop :=
  (totalSolved (o_state o) = totalSolved s
   ∧ totalAttempts (o_state o) = totalAttempts s
   ∧ pendingSolves (o_sched o) = 0%Z)
  ∨ (totalSolved (o_state o) = totalSolved s
     ∧ totalAttempts (o_state o) = (totalAttempts s + 1)%Z
     ∧ (0 ≤ pendingSolves (o_sched o) ≤ 1)%Z).

(** ** Pointer handlers with the drag data

    [onMouseMove] needs the fields of [state] that the other handlers only
    pass on to the DOM: where the press happened and whether a drag ghost
    exists.  A [Pointer] is the session state together with these fields.
    Coordinates are whole pixels, so that
    [Math.sqrt(dx*dx + dy*dy) > DRAG_THRESHOLD] is
    [dx*dx + dy*dy > DRAG_THRESHOLD * DRAG_THRESHOLD]. *)

Definition DRAG_THRESHOLD : Z := 3.

Record Pointer := {
  session : State;
  dragStartX : Z;
  dragStartY : Z;
  dragElement : bool
}.

(** [onMouseDown] with [e.clientX], [e.clientY]. *)
Definition pointerDown (square : option string) (x y : Z) (p : Pointer) : Pointer :=
  let s := session p in
  if animating s || solved s then p
  else if negb (truthy square) then p
  else if negb (isOwnPiece s (strOf square)) then p
  else
    {| session := set_hasDragged false (set_dragging square s);
       dragStartX := x; dragStartY := y;
       dragElement := dragElement p |}.

(** [onMouseMove]; [pieceEl] tells whether the dragged square shows a piece
    image, [hover] is the result of [getSquareFromPoint]. *)
Definition pointerMove (x y : Z) (pieceEl : bool) (hover : option string)
    (p : Pointer) : Pointer :=
  let s := session p in
  if negb (truthy (dragging s)) then p
  else
    let dx := x - dragStartX p in
    let dy := y - dragStartY p in
    let p1 :=
      if negb (hasDragged s)
         && (DRAG_THRESHOLD * DRAG_THRESHOLD <? dx * dx + dy * dy)%Z
      then
        {| session := set_selectedSquare (dragging s) (set_hasDragged true s);
           dragStartX := dragStartX p; dragStartY := dragStartY p;
           dragElement := if pieceEl then true else dragElement p |}
      else p in
    if hasDragged (session p1) && dragElement p1 then
      if negb (strictEq hover (currentHoverSquare (session p1))) then
        {| session := set_currentHoverSquare hover (session p1);
           dragStartX := dragStartX p1; dragStartY := dragStartY p1;
           dragElement := dragElement p1 |}
      else p1
    else p1.

(** [onMouseUp]: what the handler run leaves behind, and the pointer data
    afterwards ([state.dragElement = null]). *)
Definition pointerUp (dropSquare : option string) (p : Pointer) : Out :=
  onMouseUp dropSquare (session p).

Definition afterPointerUp (dropSquare : option string) (p : Pointer) : Pointer :=
  {| session := o_state (pointerUp dropSquare p);
     dragStartX := dragStartX p; dragStartY := dragStartY p;
     dragElement := false |}.

Inductive pointerEvent :=
  | Press (square : option string) (x y : Z)
  | Move (x y : Z) (pieceEl : bool) (hover : option string)
  | Release (dropSquare : option string).

Definition pointerStep (e : pointerEvent) (p : Pointer) : Pointer :=
  match e with
  | Press sq x y => pointerDown sq x y p
  | Move x y pieceEl hover => pointerMove x y pieceEl hover p
  | Release d => afterPointerUp d p
  end.

Definition pointerRun (es : list pointerEvent) (p : Pointer) : Pointer :=
  fold_left (λ q e, pointerStep e q) es p.

(** What the releases of a run of pointer events left behind, one [Out]
    for each release. *)
Fixpoint releases (es : list pointerEvent) (p : Pointer) : list Out :=
  match es with
  | [] => []
  | e :: es' =>
      app (match e with Release d => [pointerUp d p] | _ => [] end)
          (releases es' (pointerStep e p))
  end.

(** The pointer has left the 3-pixel circle around the place of the press. *)
Definition beyondThreshold (p : Pointer) (x y : Z) : bool :=
  (DRAG_THRESHOLD * DRAG_THRESHOLD
   <? (x - dragStartX p) * (x - dragStartX p) + (y - dragStartY p) * (y - dragStartY p))%Z.

(** Nothing is being dragged, no animation runs, the puzzle is unsolved. *)
Definition idle (s : State) : Prop :=
  animating s = false ∧ solved s = false ∧ dragging s = None.

(** The selection and the drag origin, when set, are own pieces. *)
Definition selectionOnOwnPieces (s : State) : Prop :=
  (∀ q, selectedSquare s = Some q → q ≠ "" → isOwnPiece s q = true)
  ∧ (∀ q, dragging s = Some q → q ≠ "" → isOwnPiece s q = true).

Definition startPointer (s : State) : Pointer :=
  {| session := s; dragStartX := 0; dragStartY := 0; dragElement := false |}.

(** What the pointer handlers never touch. *)
Definition untouched (s : State) :=
  (turn s, puzzle s, solved s, totalSolved s).

(** Pointer moves that stay within the threshold around the place of the
    press recorded in [p]. *)
Definition jitter (p : Pointer) (es : list pointerEvent) : Prop :=
  Forall (λ e, match e with
               | Move x y _ _ => beyondThreshold p x y = false
               | _ => False
               end) es.

(** ** Display helpers *)

(** [arr.join(sep)] for an array of strings. *)
Fixpoint join (sep : string) (arr : list string) : string :=
  match arr with
  | [] => ""
  | [x] => x
  | x :: arr' => x ++ sep ++ join sep arr'
  end.

(** [formatLine(moves)] *)
Definition formatLine (moves : list string) : string :=
  join " " (List.map (λ m, substring 0 2 m ++ "-" ++ substring 2 4 m) moves).

(** [parseInt(rank)] for a one-character string: the digit's value, or NaN
    ([None]). *)
Definition parseIntChar (c : ascii) : option Z :=
  let n := nat_of_ascii c in
  if ((48 <=? n) && (n <=? 57))%nat then Some (Z.of_nat n - 48)%Z else None.

(** [isLightSquare(file, rank)] for a one-character rank, as [renderBoard]
    calls it; [%] is the remainder with the sign of the dividend. *)
Definition isLightSquare (file : string) (rank : ascii) : bool :=
  let fileIdx := indexOf FILES (Some file) in
  match parseIntChar rank with
  | Some rankIdx => (Z.rem (fileIdx + rankIdx) 2 =? 1)%Z
  | None => false
  end.

(** The colour that [renderBoard] gives the square [file + rank]. *)
Definition squareIsLight (sq : string) : bool :=
  match sq with
  | String f (String r EmptyString) => isLightSquare (String f EmptyString) r
  | _ => false
  end.

(** A move code put together from origin, destination and promotion
    letter. *)
Definition moveCode (m : string * string * string) : string :=
  m.1.1 ++ m.1.2 ++ m.2.

(** ** Strings: basic facts *)

Lemma strictEq_Some (x : option string) (b : string) :
  strictEq x (Some b) = true → x = Some b.
Proof.
  destruct x as [a|]; simpl; [|discriminate].
  intros H. apply String.eqb_eq in H. by subst.
Qed.

Lemma In_push (moves : list string) (x y : string) :
  In y (push moves x) ↔ In y moves ∨ y = x.
Proof.
  unfold push. rewrite in_app_iff. simpl. intuition.
Qed.

Lemma In_push_new (moves : list string) (x : string) : In x (push moves x).
Proof. apply In_push. by right. Qed.

Lemma In_push_old (moves : list string) (x y : string) :
  In y moves → In y (push moves x).
Proof. intros. apply In_push. by left. Qed.

(** ** Castling destinations (move generator) *)

Section CastlingGenerated.

Variable st : State.

Lemma castlingMoves_keeps isWhite file rank moves x :
  In x moves → In x (castlingMoves st isWhite file rank moves).
Proof.
  intros Hx. unfold castlingMoves.
  repeat match goal with
         | |- context [if ?b then _ else _] => destruct b
         end; repeat apply In_push_old; assumption.
Qed.

Lemma castlingMoves_white_K moves :
  includes "K" (castling st) = true → isEmpty st "f1" = true →
  isEmpty st "g1" = true →
  In "g1" (castlingMoves st true (Some "e") (Some "1") moves).
Proof.
  intros HK Hf Hg. unfold castlingMoves. simpl. rewrite HK, Hf, Hg. simpl.
  destruct (_ && _); [apply In_push_old|]; apply In_push_new.
Qed.

Lemma castlingMoves_white_Q moves :
  includes "Q" (castling st) = true → isEmpty st "d1" = true →
  isEmpty st "c1" = true → isEmpty st "b1" = true →
  In "c1" (castlingMoves st true (Some "e") (Some "1") moves).
Proof.
  intros HQ Hd Hc Hb. unfold castlingMoves. simpl. rewrite HQ, Hd, Hc, Hb.
  simpl. apply In_push_new.
Qed.

Lemma castlingMoves_black_k moves :
  includes "k" (castling st) = true → isEmpty st "f8" = true →
  isEmpty st "g8" = true →
  In "g8" (castlingMoves st false (Some "e") (Some "8") moves).
Proof.
  intros HK Hf Hg. unfold castlingMoves. simpl. rewrite HK, Hf, Hg. simpl.
  destruct (_ && _); [apply In_push_old|]; apply In_push_new.
Qed.

Lemma castlingMoves_black_q moves :
  includes "q" (castling st) = true → isEmpty st "d8" = true →
  isEmpty st "c8" = true → isEmpty st "b8" = true →
  In "c8" (castlingMoves st false (Some "e") (Some "8") moves).
Proof.
  intros HQ Hd Hc Hb. unfold castlingMoves. simpl. rewrite HQ, Hd, Hc, Hb.
  simpl. apply In_push_new.
Qed.

End CastlingGenerated.

(** C7. When the king stands on its home square (e1 for white, e8 for
    black), the castling string holds the letter of the wing, and every
    square between the king and that wing's corner is empty, the two-file
    destination (g- or c-file on the home rank) is among the squares that
    [getPseudoLegalMoves] returns for the king's square. *)
Theorem castle_destination_generated (st : State) (c : color) (w : wing) :
  getProp (pieces st) (homeSquare c) = Some (kingOf c) →
  includes (rightLetter c w) (castling st) = true →
  forallb (λ f, isEmpty st (f ++ homeRank c)) (betweenFiles w) = true →
  In (castleFile w ++ homeRank c) (getPseudoLegalMoves st (homeSquare c)).
Proof.
  intros Hking Hright Hempty.
  unfold getPseudoLegalMoves. rewrite Hking.
  destruct c, w; simpl in Hempty |- *;
    repeat (apply andb_prop in Hempty as [? Hempty]).
  - by apply castlingMoves_white_K.
  - by apply castlingMoves_white_Q.
  - by apply castlingMoves_black_k.
  - by apply castlingMoves_black_q.
Qed.

(** The scenario of C7: on the board of "r3k2r/8/8/8/8/8/8/R3K2R w KQkq -"
    the moves generated for e1 include g1 and c1. *)
Lemma castle_destination_generated_witness :
  In "g1" (getPseudoLegalMoves (boardOfFen castleFen "e1g1") "e1")
  ∧ In "c1" (getPseudoLegalMoves (boardOfFen castleFen "e1g1") "e1").
Proof.
  split.
  - apply (castle_destination_generated (boardOfFen castleFen "e1g1") white kingside);
      vm_compute; reflexivity.
  - apply (castle_destination_generated (boardOfFen castleFen "e1g1") white queenside);
      vm_compute; reflexivity.
Defined.

(** C9. The generator never looks at the corner square: on the board of
    "8/8/8/8/8/8/8/4K3 w K -" (white king on e1, right K listed, f1, g1 and
    h1 empty, no rook on the first rank) the moves generated for e1 still
    include g1. *)
Theorem castle_generated_without_rook :
  ∃ st : State,
    getProp (pieces st) "e1" = Some "K"
    ∧ includes "K" (castling st) = true
    ∧ isEmpty st "f1" = true ∧ isEmpty st "g1" = true ∧ isEmpty st "h1" = true
    ∧ forallb (λ f, negb (strictEq (getProp (pieces st) (f ++ "1")) (Some "R")))
              FILES = true
    ∧ In "g1" (getPseudoLegalMoves st "e1").
Proof.
  exists (boardOfFen loneKingFen "e1g1").
  repeat split; try (vm_compute; reflexivity).
  vm_compute. tauto.
Qed.

(** ** Strings: case and prefixes *)

Lemma length_mapChars (f : ascii → ascii) (s : string) :
  String.length (mapChars f s) = String.length s.
Proof. induction s as [|c s IH]; simpl; congruence. Qed.

Lemma append_cons (c : ascii) (a b : string) :
  String c a ++ b = String c (a ++ b).
Proof. reflexivity. Qed.

Lemma mapChars_append (f : ascii → ascii) (a b : string) :
  mapChars f (a ++ b) = mapChars f a ++ mapChars f b.
Proof.
  induction a as [|c a IH]; [reflexivity|].
  rewrite append_cons. simpl. rewrite append_cons. congruence.
Qed.

Lemma length_append (a b : string) :
  String.length (a ++ b) = (String.length a + String.length b)%nat.
Proof.
  induction a as [|c a IH]; [reflexivity|].
  rewrite append_cons. simpl. congruence.
Qed.

Lemma startsWith_substring (p s : string) :
  startsWith p s = true ↔ String.substring 0 (String.length p) s = p.
Proof.
  revert s. induction p as [|a p IH]; intros s.
  - simpl. split; [|done]. intros _. by destruct s.
  - destruct s as [|b s]; simpl.
    + split; discriminate.
    + rewrite andb_true_iff, IH, Ascii.eqb_eq. split.
      * intros [-> ->]. done.
      * intros H. injection H as -> H. done.
  Qed.

Lemma isSquare_In (sq : string) : isSquare sq = true → In sq allSquares.
Proof.
  unfold isSquare. rewrite existsb_exists.
  intros (x & Hx & Heq). apply String.eqb_eq in Heq. by subst.
Qed.

Lemma square_shape (sq : string) :
  isSquare sq = true → String.length sq = 2%nat ∧ toLowerCase sq = sq.
Proof.
  intros H. apply isSquare_In in H.
  assert (Hall : forallb (λ x, (String.length x =? 2)%nat
                               && String.eqb (toLowerCase x) x) allSquares = true)
    by (vm_compute; reflexivity).
  rewrite forallb_forall in Hall. apply Hall in H.
  apply andb_prop in H as [H1 H2].
  apply Nat.eqb_eq in H1. apply String.eqb_eq in H2. done.
Qed.


(** ** Judging an attempt *)

Lemma attemptMove_verdict (s : State) (p : Puzzle) (from to : string) :
  puzzle s = Some p → animating s = false →
  o_verdict (attemptMove from to s)
  = Some (if isCorrect (best_move p) from to then Correct else Incorrect).
Proof.
  intros Hp Ha. unfold attemptMove. rewrite Ha, Hp.
  destruct (isCorrect _ _ _); [destruct (isCastlingMove _ _ _)|]; reflexivity.
Qed.

Lemma attemptMove_judged (s : State) (from to : string) (v : verdict) :
  o_verdict (attemptMove from to s) = Some v →
  animating s = false ∧ ∃ p, puzzle s = Some p.
Proof.
  unfold attemptMove. destruct (animating s); [discriminate|].
  destruct (puzzle s) as [p|]; [|discriminate]. eauto.
Qed.

(** The page is read through [state.pieces] only. *)
Lemma animateMove_pieces (s s' : State) (from to : string) :
  pieces s' = pieces s → animateMove s' from to = animateMove s from to.
Proof. unfold animateMove, pieceElement. by intros ->. Qed.

Lemma animateWrongMove_pieces (s s' : State) (from to : string) :
  pieces s' = pieces s → animateWrongMove s' from to = animateWrongMove s from to.
Proof. unfold animateWrongMove, pieceElement. by intros ->. Qed.

Lemma animateCastling_pieces (s s' : State) (from to : string) :
  pieces s' = pieces s → animateCastling s' from to = animateCastling s from to.
Proof. unfold animateCastling, pieceElement. by intros ->. Qed.

Lemma animateMove_cases (s : State) (from to : string) :
  animateMove s from to = Animates ∨ animateMove s from to = CallsBack.
Proof. unfold animateMove. destruct (_ || _); auto. Qed.

Lemma animateWrongMove_cases (s : State) (from to : string) :
  animateWrongMove s from to = Animates ∨ animateWrongMove s from to = CallsBack.
Proof. unfold animateWrongMove. destruct (_ || _); auto. Qed.


(** What an attempt with a loaded puzzle and no animation running comes
    to. *)
Lemma attemptMove_unfold (s : State) (p : Puzzle) (from to : string) :
  puzzle s = Some p → animating s = false →
  attemptMove from to s
  = let s2 := set_animating true (set_totalAttempts (totalAttempts s + 1) s) in
    if isCorrect (best_move p) from to then
      if isCastlingMove s from to
      then judged Correct
             (animated (animateCastling s from to) (AttemptCastleDone from to) s2)
      else judged Correct
             (animated (animateMove s from to)
                (AttemptMoveDone from to (toLowerCase (best_move p))) s2)
    else judged Incorrect (animated (animateWrongMove s from to) WrongMoveDone s2).
Proof. intros Hp Ha. unfold attemptMove. rewrite Ha, Hp. reflexivity. Qed.

(** C3. With a puzzle loaded, no animation running and the best-move code
    in its lower-case wire format, an attempt between two squares is judged
    Correct exactly when from+to equals the best-move code, or the code has
    length 5 and its first four characters are from+to; every other attempt
    is judged Incorrect. *)
Theorem attempt_correct_iff (s : State) (p : Puzzle) (from to : string) :
  puzzle s = Some p → animating s = false →
  toLowerCase (best_move p) = best_move p →
  isSquare from = true → isSquare to = true →
  (o_verdict (attemptMove from to s) = Some Correct
   ↔ from ++ to = best_move p
     ∨ (String.length (best_move p) = 5%nat
        ∧ substring 0 4 (best_move p) = from ++ to))
  ∧ (o_verdict (attemptMove from to s) ≠ Some Correct
     → o_verdict (attemptMove from to s) = Some Incorrect).
Proof.
  intros Hp Ha Hlow Hf Ht.
  apply square_shape in Hf as [Hlf Hcf]. apply square_shape in Ht as [Hlt Hct].
  rewrite (attemptMove_verdict s p from to Hp Ha).
  assert (Hlen : String.length (from ++ to) = 4%nat)
    by (rewrite length_append; lia).
  assert (Hmove : toLowerCase (from ++ to) = from ++ to)
    by (unfold toLowerCase in *; rewrite mapChars_append, Hcf, Hct; reflexivity).
  split.
  - unfold isCorrect. rewrite Hlow, Hmove.
    destruct (_ || _) eqn:E.
    + split; [intros _|done].
      apply orb_prop in E as [E|E].
      * left. apply String.eqb_eq in E. done.
      * right. apply andb_prop in E as [E1 E2].
        apply Nat.eqb_eq in E2. apply startsWith_substring in E1.
        rewrite Hlen in E1. done.
    + split; [discriminate|]. intros [H|[H1 H2]]; exfalso.
      * rewrite H, String.eqb_refl in E. discriminate.
      * apply orb_false_elim in E as [_ E].
        assert (Hs : startsWith (from ++ to) (best_move p) = true).
        { apply startsWith_substring. rewrite Hlen. exact H2. }
        rewrite Hs, H1 in E. discriminate.
  - destruct (isCorrect _ _ _); done.
Qed.

(** The promotion scenario of C3: with best move "e7e8q" the attempt
    (e7, e8) is Correct and the attempt (e7, d8) is not. *)
Lemma attempt_correct_iff_witness :
  o_verdict (attemptMove "e7" "e8" (boardOfFen promotionFen "e7e8q")) = Some Correct
  ∧ o_verdict (attemptMove "e7" "d8" (boardOfFen promotionFen "e7e8q")) = Some Incorrect.
Proof.
  split.
  - apply (attempt_correct_iff (boardOfFen promotionFen "e7e8q")
             {| fen := promotionFen; best_move := "e7e8q" |} "e7" "e8");
      try reflexivity.
    right. split; reflexivity.
  - apply (attempt_correct_iff (boardOfFen promotionFen "e7e8q")
             {| fen := promotionFen; best_move := "e7e8q" |} "e7" "d8");
      try reflexivity.
    intros H.
    apply (attempt_correct_iff (boardOfFen promotionFen "e7e8q")
             {| fen := promotionFen; best_move := "e7e8q" |} "e7" "d8") in H;
      try reflexivity.
    destruct H as [H|[_ H]]; discriminate H.
Defined.

(** C8. The verdict depends on the best-move code and on the attempted
    code only up to letter case: two puzzles whose best-move codes have the
    same lower-case form, asked about attempts whose codes have the same
    lower-case form, give the same verdict. *)
Theorem verdict_ignores_case (s : State) (p p' : Puzzle) (from to from' to' : string) :
  toLowerCase (best_move p) = toLowerCase (best_move p') →
  toLowerCase (from ++ to) = toLowerCase (from' ++ to') →
  o_verdict (attemptMove from to (set_puzzle (Some p) s))
  = o_verdict (attemptMove from' to' (set_puzzle (Some p') s)).
Proof.
  intros Hb Hm. unfold attemptMove, isCorrect. simpl.
  destruct (animating s); [done|].
  rewrite Hb, Hm.
  destruct (_ || _); [|reflexivity].
  by do 2 destruct (isCastlingMove _ _ _).
Qed.

(** "E2E4" and "e2e4" as best move give the same verdict, Correct, for the
    attempt (e2, e4). *)
Lemma verdict_ignores_case_witness :
  o_verdict (attemptMove "e2" "e4"
               (set_puzzle (Some {| fen := startFen; best_move := "E2E4" |})
                           (boardOfFen startFen "e2e4")))
  = o_verdict (attemptMove "e2" "e4"
                 (set_puzzle (Some {| fen := startFen; best_move := "e2e4" |})
                             (boardOfFen startFen "e2e4")))
  ∧ o_verdict (attemptMove "e2" "e4"
                 (set_puzzle (Some {| fen := startFen; best_move := "E2E4" |})
                             (boardOfFen startFen "e2e4"))) = Some Correct.
Proof.
  split.
  - apply (verdict_ignores_case (boardOfFen startFen "e2e4")
             {| fen := startFen; best_move := "E2E4" |}
             {| fen := startFen; best_move := "e2e4" |} "e2" "e4" "e2" "e4");
      reflexivity.
  - vm_compute. reflexivity.
Defined.

(** ** Effects of an attempt *)

(** C5. An attempt judged Incorrect leaves pieces, turn, castling and
    lastMove as they were, and every other field but [totalAttempts], which
    it raises by one, and [animating].  If the origin shows a piece and both
    squares are on the board, the snap-back animation starts: [animating] is
    raised and the callback that lowers it is scheduled.  Otherwise
    [animateWrongMove] runs the callback at once, and the attempt returns
    with [animating] lowered again and nothing scheduled.  Either way, once
    the callback has run the whole state is the one before the attempt with
    [totalAttempts] one higher. *)
Theorem incorrect_attempt_keeps_board (s : State) (from to : string) :
  o_verdict (attemptMove from to s) = Some Incorrect →
  board (o_state (attemptMove from to s)) = board s
  ∧ set_animating false (o_state (attemptMove from to s))
    = set_totalAttempts (totalAttempts s + 1) s
  ∧ (o_sched (attemptMove from to s), animating (o_state (attemptMove from to s)))
    = match animateWrongMove s from to with
      | Animates => ([WrongMoveDone], true)
      | _ => ([], false)
      end
  ∧ o_state (settle (attemptMove from to s))
    = set_totalAttempts (totalAttempts s + 1) s.
Proof.
  intros Hv.
  destruct (attemptMove_judged _ _ _ _ Hv) as [Ha [p Hp]].
  revert Hv. rewrite (attemptMove_unfold s p from to Hp Ha). cbv zeta.
  destruct (isCorrect _ _ _); [by destruct (isCastlingMove _ _ _)|]. intros _.
  destruct (animateWrongMove_cases s from to) as [-> | ->]; simpl;
    repeat split; destruct s; simpl in *; subst; reflexivity.
Qed.

(** On the starting position with best move "e2e4", the attempt (e2, e3)
    is Incorrect and changes nothing but the counter. *)
Lemma incorrect_attempt_keeps_board_witness :
  o_verdict (attemptMove "e2" "e3" (boardOfFen startFen "e2e4")) = Some Incorrect
  ∧ board (o_state (attemptMove "e2" "e3" (boardOfFen startFen "e2e4")))
    = board (boardOfFen startFen "e2e4")
  ∧ o_state (settle (attemptMove "e2" "e3" (boardOfFen startFen "e2e4")))
    = set_totalAttempts 1 (boardOfFen startFen "e2e4").
Proof.
  pose proof (incorrect_attempt_keeps_board (boardOfFen startFen "e2e4") "e2" "e3")
    as H.
  split; [reflexivity|].
  destruct (H eq_refl) as (Hb & _ & _ & Hs).
  split; [exact Hb | exact Hs].
Defined.

(** The same position with an attempt from the empty square e3: no piece
    image is found there, the callback of [animateWrongMove] has run when
    the attempt returns, and nothing is scheduled. *)
Lemma incorrect_attempt_from_empty_square :
  o_verdict (attemptMove "e3" "e4" (boardOfFen startFen "e2e4")) = Some Incorrect
  ∧ o_sched (attemptMove "e3" "e4" (boardOfFen startFen "e2e4")) = []
  ∧ o_state (attemptMove "e3" "e4" (boardOfFen startFen "e2e4"))
    = set_totalAttempts 1 (boardOfFen startFen "e2e4").
Proof. vm_compute. repeat split. Qed.

(** No callback that [attemptMove] schedules for a Correct attempt, and
    not the 150 ms timer after it either, assigns [state.turn]. *)
Lemma fire_attempt_callbacks_turn (s : State) (cb : callback) :
  match cb with
  | AttemptCastleDone _ _ | AttemptMoveDone _ _ _ | WrongMoveDone
  | SolvedTimer | ContinuationFetch => turn (o_state (fire cb s)) = turn s
  | _ => True
  end.
Proof. destruct cb; try exact I; reflexivity. Qed.

Lemma animated_turn (a : animation) (cb : callback) (s : State) :
  match cb with
  | AttemptCastleDone _ _ | AttemptMoveDone _ _ _ | WrongMoveDone =>
      turn (o_state (animated a cb s)) = turn s
  | _ => True
  end.
Proof. destruct cb; try exact I; by destruct a. Qed.

(** A Correct attempt leaves the side to move as it was, whether the
    animation calls back at once or later, and so does the 150 ms timer. *)
Lemma correct_attempt_keeps_turn (s : State) (from to : string) :
  o_verdict (attemptMove from to s) = Some Correct →
  turn (o_state (attemptMove from to s)) = turn s
  ∧ turn (o_state (settle (attemptMove from to s))) = turn s
  ∧ turn (o_state (fire SolvedTimer (o_state (settle (attemptMove from to s)))))
    = turn s.
Proof.
  intros Hv.
  destruct (attemptMove_judged _ _ _ _ Hv) as [Ha [p Hp]].
  revert Hv. rewrite (attemptMove_unfold s p from to Hp Ha). cbv zeta.
  destruct (isCorrect _ _ _);
    [|destruct (animateWrongMove s from to); discriminate]. intros _.
  destruct (isCastlingMove _ _ _).
  - destruct (animateCastling s from to); repeat split.
  - destruct (animateMove s from to); repeat split.
Qed.

(** The callbacks of the continuation path do flip the side to move. *)
Lemma executeMove_flips_turn (s : State) (cb : callback) :
  match cb with
  | ExecCastleDone _ _ _ | ExecMoveDone _ _ _ _ =>
      turn (o_state (fire cb s)) = flipColor (turn s)
  | _ => True
  end.
Proof.
  destruct cb as [| | | | | |? ? rest|? ? ? rest]; try exact I;
    simpl; unfold afterAnim; destruct rest; simpl; by destruct (turn s).
Qed.

(** C1 (the code departs from the claim).  The scenario of the claim, run
    on the code: on the starting position with best move "e2e4" the attempt
    (e2, e4) is judged Correct, the counter goes to 1, the pawn moves from e2
    to e4 -- and the side to move is white before the attempt, white after
    the move is applied and still white when the puzzle is marked solved. *)
Theorem e2e4_applied_turn_stays_white :
  let s := boardOfFen startFen "e2e4" in
  let o := attemptMove "e2" "e4" s in
  let applied := o_state (fire (AttemptMoveDone "e2" "e4" "e2e4") (o_state o)) in
  let marked := o_state (fire SolvedTimer applied) in
  o_verdict o = Some Correct
  ∧ o_sched o = [AttemptMoveDone "e2" "e4" "e2e4"]
  ∧ totalAttempts applied = 1
  ∧ getProp (pieces applied) "e4" = Some "P"
  ∧ getProp (pieces applied) "e2" = None
  ∧ turn s = white
  ∧ turn applied = white
  ∧ solved marked = true ∧ turn marked = white.
Proof. vm_compute. repeat split. Qed.

(** What the missing flip does to the continuation: black castles while
    [turn] still says white, so white's rights are removed and black's stay. *)
Lemma continuation_castle_revokes_mover_by_turn :
  (∃ pending, run castleInContinuation (initialState, [])
              = Some (stateAfter castleInContinuation, pending))
  ∧ getProp (pieces (stateAfter castleInContinuation)) "g8" = Some "k"
  ∧ getProp (pieces (stateAfter castleInContinuation)) "f8" = Some "r"
  ∧ castling (stateAfter castleInContinuation) = "kq".
Proof.
  split; [eexists; vm_compute; reflexivity|].
  repeat split; vm_compute; reflexivity.
Qed.

(** ** Parsing: which positions are rejected *)

Lemma splitAux_cons (sep : ascii) (cur s : string) :
  ∃ h t, splitAux sep cur s = h :: t.
Proof.
  revert cur. induction s as [|c s IH]; intros cur; simpl; [eauto|].
  destruct (Ascii.eqb c sep); eauto.
Qed.

Lemma split_head (sep : ascii) (s : string) :
  nth_error (split sep s) 0 = Some (hd "" (split sep s)).
Proof.
  unfold split. destruct (splitAux_cons sep "" s) as (h & t & ->). reflexivity.
Qed.

Lemma at_index_Some (arr : list string) (i : Z) :
  is_Some (at_index arr i) ↔ (0 ≤ i < Z.of_nat (length arr))%Z.
Proof.
  unfold at_index. destruct (Z.leb_spec 0 i) as [Hi|Hi].
  - rewrite <- not_eq_None_Some, nth_error_None. lia.
  - split; [intros [? ?]; discriminate | lia].
Qed.

Lemma parseRows_Ok (left : nat) (rankIdx : Z) (rows : list string)
    (pieces : gmap string (option string)) :
  (0 ≤ rankIdx)%Z →
  (∃ b, parseRows left rankIdx rows pieces = Ok b)
  ↔ (left = 0%nat ∨ rankIdx + Z.of_nat left ≤ Z.of_nat (length rows))%Z.
Proof.
  revert rankIdx pieces. induction left as [|left IH]; intros rankIdx pieces Hi.
  - simpl. split; eauto.
  - simpl. destruct (at_index rows rankIdx) as [row|] eqn:E.
    + assert (Hr : (0 ≤ rankIdx < Z.of_nat (length rows))%Z)
        by (apply at_index_Some; eauto).
      destruct (parseRow _ row pieces 0) as [pieces' n].
      rewrite IH by lia. split; [intros [->|?]; right; lia|].
      intros [?|?]; [discriminate|].
      destruct left; [by left | right; lia].
    + assert (Hr : ¬ (0 ≤ rankIdx < Z.of_nat (length rows))%Z).
      { rewrite <- at_index_Some, E. intros [? ?]. discriminate. }
      split; [intros [? ?]; discriminate|].
      intros [?|?]; [discriminate | lia].
Qed.

(** The file counter of [parseRow] ends at the number of files that the
    row describes; nothing compares it with 8. *)
Lemma parseRow_fileIdx (rank : option string) (row : string)
    (pieces : gmap string (option string)) (fileIdx : Z) :
  (parseRow rank row pieces fileIdx).2 = (fileIdx + rowFiles row)%Z.
Proof.
  revert pieces fileIdx. induction row as [|c row IH]; intros pieces fileIdx.
  - simpl. lia.
  - simpl. destruct (isDigit18 c); rewrite IH; lia.
Qed.

(** C2 (as the code has it).  [parseFen] never counts the files of a row:
    it returns a board exactly when the piece-placement field has at least
    eight rows, and throws (a TypeError, on reading the missing row) exactly
    when it has fewer. *)
Theorem parseFen_rejects_only_missing_rows (f : string) :
  ((∃ b, parseFen f = Ok b) ↔ (8 ≤ length (fenRows f))%nat)
  ∧ (parseFen f = TypeError ↔ (length (fenRows f) < 8)%nat).
Proof.
  assert (H : (∃ b, parseFen f = Ok b) ↔ (8 ≤ length (fenRows f))%nat).
  { unfold parseFen, fenRows. rewrite split_head.
    pose proof (parseRows_Ok 8 0 (split "/" (hd "" (split " " f))) ∅) as HR.
    destruct (parseRows 8 0 _ ∅) as [b|].
    - split; [intros _|eauto].
      destruct HR as [HR _]; [lia|]. destruct HR as [?|?]; [eauto|lia|lia].
    - split; [intros [? ?]; discriminate|]. intros Hlen.
      destruct HR as [_ HR]; [lia|]. destruct HR as [? ?]; [right; lia|discriminate]. }
  split; [exact H|].
  destruct (parseFen f) as [b|] eqn:E.
  - split; [discriminate|]. intros Hlt.
    assert (8 ≤ length (fenRows f))%nat by (apply H; eauto). lia.
  - split; [intros _|done].
    destruct (Nat.lt_ge_cases (length (fenRows f)) 8) as [?|Hge]; [done|].
    apply H in Hge as [? ?]. discriminate.
Qed.

(** A position that [parseFen] rejects does not stop the session:
    [loadPuzzle] keeps the board it had and only records the new puzzle. *)
Lemma loadPuzzle_rejected (p : Puzzle) (s : State) :
  parseFen (fen p) = TypeError → loadPuzzle p s = set_puzzle (Some p) s.
Proof. intros H. unfold loadPuzzle. by rewrite H. Qed.

(** C2 fails as stated: the row of rank 2 of [sevenPawnFen] describes 7
    files, and [parseFen] returns a board for it. *)
Lemma seven_pawn_row_accepted : ¬ rejectsBadRows sevenPawnFen.
Proof.
  unfold rejectsBadRows. intros H.
  assert (Hbad : hasBadRow sevenPawnFen = true) by (vm_compute; reflexivity).
  specialize (H Hbad). vm_compute in H. discriminate H.
Qed.

(** What the over-long and the short row leave behind: a ninth piece of a
    row is stored under the key "undefined" followed by the rank. *)
Example nine_pawn_row_stored :
  ∃ b, parseFen "rnbqkbnr/ppppppppp/8/8/8/8/PPPPPPPP/RNBQKBNR w KQkq -" = Ok b
       ∧ getProp (p_pieces b) "undefined7" = Some "p".
Proof. eexists. split; [vm_compute; reflexivity|]. vm_compute. reflexivity. Qed.

(** ** Castling *)

Lemma getProp_setProp_eq (o : gmap string (option string)) k v :
  getProp (setProp o k v) k = v.
Proof. unfold getProp, setProp. by rewrite lookup_insert_eq. Qed.

Lemma getProp_setProp_ne (o : gmap string (option string)) k k' v :
  k ≠ k' → getProp (setProp o k v) k' = getProp o k'.
Proof. intros. unfold getProp, setProp. by rewrite lookup_insert_ne. Qed.

Lemma getProp_deleteProp_eq (o : gmap string (option string)) k :
  getProp (deleteProp o k) k = None.
Proof. unfold getProp, deleteProp. by rewrite lookup_delete_eq. Qed.

Lemma getProp_deleteProp_ne (o : gmap string (option string)) k k' :
  k ≠ k' → getProp (deleteProp o k) k' = getProp o k'.
Proof. intros. unfold getProp, deleteProp. by rewrite lookup_delete_ne. Qed.

Lemma onRank_char (f r : ascii) :
  onRank (String f EmptyString) r = String f (String r EmptyString).
Proof. reflexivity. Qed.

Ltac prop_lookup :=
  repeat first
    [ rewrite getProp_setProp_eq
    | rewrite getProp_deleteProp_eq
    | rewrite getProp_setProp_ne by congruence
    | rewrite getProp_deleteProp_ne by congruence ].

Lemma includes_occurrences (c : ascii) (s : string) :
  includes c s = (0 <? occurrences c s)%nat.
Proof.
  induction s as [|d s IH]; [reflexivity|]. simpl.
  destruct (Ascii.eqb d c); simpl; [reflexivity | exact IH].
Qed.

Lemma occurrences_removeFirst_same (c : ascii) (s : string) :
  occurrences c (removeFirst c s) = Nat.pred (occurrences c s).
Proof.
  induction s as [|d s IH]; [reflexivity|]. simpl.
  destruct (Ascii.eqb d c) eqn:E; simpl; [reflexivity|].
  rewrite E. simpl. exact IH.
Qed.

Lemma occurrences_removeFirst_other (c d : ascii) (s : string) :
  c ≠ d → occurrences d (removeFirst c s) = occurrences d s.
Proof.
  intros Hne. induction s as [|e s IH]; [reflexivity|]. simpl.
  destruct (Ascii.eqb e c) eqn:E; simpl.
  - apply Ascii.eqb_eq in E. subst e.
    destruct (Ascii.eqb c d) eqn:E'; [apply Ascii.eqb_eq in E'; done | reflexivity].
  - by rewrite IH.
Qed.

(** Removing the first K and the first Q (or k and q) clears both rights
    when each is listed at most once, and never touches another letter. *)
Lemma removeFirst_two (a b : ascii) (s : string) :
  a ≠ b →
  (occurrences a s ≤ 1)%nat → (occurrences b s ≤ 1)%nat →
  includes a (removeFirst b (removeFirst a s)) = false
  ∧ includes b (removeFirst b (removeFirst a s)) = false
  ∧ ∀ d, d ≠ a → d ≠ b →
         includes d (removeFirst b (removeFirst a s)) = includes d s.
Proof.
  intros Hab Ha Hb. rewrite !includes_occurrences. repeat split.
  - rewrite occurrences_removeFirst_other by done.
    rewrite occurrences_removeFirst_same. apply Nat.ltb_ge. lia.
  - rewrite occurrences_removeFirst_same, occurrences_removeFirst_other by done.
    apply Nat.ltb_ge. lia.
  - intros d Hda Hdb. rewrite !includes_occurrences.
    by rewrite !occurrences_removeFirst_other.
Qed.

Lemma executeCastling_castling (s : State) (from to : string) :
  castling (executeCastling from to s)
  = match turn s with
    | white => removeFirst "Q" (removeFirst "K" (castling s))
    | black => removeFirst "q" (removeFirst "k" (castling s))
    end.
Proof. reflexivity. Qed.

(** C4 (as the code has it).  Let the king of the side to move stand on the
    e-file, a rook of its colour on the h-file (a-file) corner of the same
    rank, and let each of that side's right letters be listed at most once.
    Then the king move to the g-file (c-file) of that rank is a castling
    move, and [executeCastling] in one go puts the king on the destination,
    the rook on the f-file (d-file), empties the king's square and the
    corner, leaves every other square alone, removes both rights of the
    mover and keeps those of the other side. *)
Theorem castle_moves_rook_and_revokes (s : State) (c : color) (w : wing) (r : ascii) :
  turn s = c →
  getProp (pieces s) (onRank "e" r) = Some (kingOf c) →
  getProp (pieces s) (onRank (cornerFile w) r) = Some (rookOf c) →
  (occurrences (rightLetter c kingside) (castling s) ≤ 1)%nat →
  (occurrences (rightLetter c queenside) (castling s) ≤ 1)%nat →
  isCastlingMove s (onRank "e" r) (onRank (castleFile w) r) = true
  ∧ getProp (pieces (executeCastling (onRank "e" r) (onRank (castleFile w) r) s))
            (onRank (castleFile w) r) = Some (kingOf c)
  ∧ getProp (pieces (executeCastling (onRank "e" r) (onRank (castleFile w) r) s))
            (onRank "e" r) = None
  ∧ getProp (pieces (executeCastling (onRank "e" r) (onRank (castleFile w) r) s))
            (onRank (rookFile w) r) = Some (rookOf c)
  ∧ getProp (pieces (executeCastling (onRank "e" r) (onRank (castleFile w) r) s))
            (onRank (cornerFile w) r) = None
  ∧ (∀ sq, ¬ In sq [onRank "e" r; onRank (castleFile w) r;
                    onRank (rookFile w) r; onRank (cornerFile w) r] →
       getProp (pieces (executeCastling (onRank "e" r) (onRank (castleFile w) r) s)) sq
       = getProp (pieces s) sq)
  ∧ includes (rightLetter c kingside)
             (castling (executeCastling (onRank "e" r) (onRank (castleFile w) r) s))
    = false
  ∧ includes (rightLetter c queenside)
             (castling (executeCastling (onRank "e" r) (onRank (castleFile w) r) s))
    = false
  ∧ (∀ w', includes (rightLetter (flipColor c) w')
                    (castling (executeCastling (onRank "e" r) (onRank (castleFile w) r) s))
           = includes (rightLetter (flipColor c) w') (castling s)).
Proof.
  intros Hturn Hking Hrook HK HQ.
  assert (Hrights :
    includes (rightLetter c kingside)
             (castling (executeCastling (onRank "e" r) (onRank (castleFile w) r) s)) = false
    ∧ includes (rightLetter c queenside)
               (castling (executeCastling (onRank "e" r) (onRank (castleFile w) r) s)) = false
    ∧ ∀ w', includes (rightLetter (flipColor c) w')
                     (castling (executeCastling (onRank "e" r) (onRank (castleFile w) r) s))
            = includes (rightLetter (flipColor c) w') (castling s)).
  { rewrite executeCastling_castling, Hturn.
    destruct c; simpl in HK, HQ |- *.
    - destruct (removeFirst_two "K" "Q" (castling s)) as (H1 & H2 & H3);
        [done|done|done|].
      repeat split; [done|done|]. intros []; by apply H3.
    - destruct (removeFirst_two "k" "q" (castling s)) as (H1 & H2 & H3);
        [done|done|done|].
      repeat split; [done|done|]. intros []; by apply H3. }
  assert (Hpieces :
    pieces (executeCastling (onRank "e" r) (onRank (castleFile w) r) s)
    = deleteProp
        (setProp
           (deleteProp (setProp (pieces s) (onRank (castleFile w) r)
                                (getProp (pieces s) (onRank "e" r)))
                       (onRank "e" r))
           (onRank (rookFile w) r)
           (getProp
              (deleteProp (setProp (pieces s) (onRank (castleFile w) r)
                                   (getProp (pieces s) (onRank "e" r)))
                          (onRank "e" r))
              (onRank (cornerFile w) r)))
        (onRank (cornerFile w) r)) by (destruct w; reflexivity).
  split; [unfold isCastlingMove; rewrite Hking; by destruct c, w|].
  rewrite Hpieces. clear Hpieces.
  destruct Hrights as (HR1 & HR2 & HR3).
  repeat split; try assumption; revert Hking Hrook;
    destruct w; cbn [castleFile rookFile cornerFile]; rewrite !onRank_char;
    intros Hking Hrook; prop_lookup; try done.
  - intros sq Hsq. simpl in Hsq.
    assert (String "e" (String r "") ≠ sq ∧ String "g" (String r "") ≠ sq
            ∧ String "f" (String r "") ≠ sq ∧ String "h" (String r "") ≠ sq)
      as (? & ? & ? & ?) by tauto.
    by prop_lookup.
  - intros sq Hsq. simpl in Hsq.
    assert (String "e" (String r "") ≠ sq ∧ String "c" (String r "") ≠ sq
            ∧ String "d" (String r "") ≠ sq ∧ String "a" (String r "") ≠ sq)
      as (? & ? & ? & ?) by tauto.
    by prop_lookup.
Qed.

(** The scenario of C4's source: on "r3k2r/8/8/8/8/8/8/R3K2R w KQkq -" the
    move e1-g1 takes the rook from h1 to f1 and clears both white rights,
    while black keeps k and q. *)
Lemma castle_moves_rook_and_revokes_witness :
  isCastlingMove (boardOfFen castleFen "e1g1") "e1" "g1" = true
  ∧ getProp (pieces (executeCastling "e1" "g1" (boardOfFen castleFen "e1g1"))) "g1"
    = Some "K"
  ∧ getProp (pieces (executeCastling "e1" "g1" (boardOfFen castleFen "e1g1"))) "f1"
    = Some "R"
  ∧ getProp (pieces (executeCastling "e1" "g1" (boardOfFen castleFen "e1g1"))) "h1"
    = None
  ∧ includes "K" (castling (executeCastling "e1" "g1" (boardOfFen castleFen "e1g1")))
    = false
  ∧ includes "Q" (castling (executeCastling "e1" "g1" (boardOfFen castleFen "e1g1")))
    = false
  ∧ includes "k" (castling (executeCastling "e1" "g1" (boardOfFen castleFen "e1g1")))
    = includes "k" (castling (boardOfFen castleFen "e1g1")).
Proof.
  destruct (castle_moves_rook_and_revokes (boardOfFen castleFen "e1g1")
              white kingside "1" eq_refl eq_refl eq_refl (le_n 1) (le_n 1))
    as (H1 & H2 & _ & H4 & H5 & _ & H7 & H8 & H9).
  exact (conj H1 (conj H2 (conj H4 (conj H5 (conj H7 (conj H8 (H9 kingside))))))).
Defined.

(** C4 fails as stated: on the board of "8/8/8/8/8/8/8/4K3 w K -" the move
    e1-g1 is a two-file king move, and no rook is relocated. *)
Lemma lone_king_castle_moves_no_rook :
  isCastlingMove (boardOfFen loneKingFen "e1g1") "e1" "g1" = true
  ∧ ¬ castlesAtomically (boardOfFen loneKingFen "e1g1") "e1" "g1".
Proof.
  split; [reflexivity|].
  intros (c & w & r & _ & Hr & Hto & Hcorner & _).
  destruct w; [|discriminate Hto].
  injection Hr as <-.
  destruct c; vm_compute in Hcorner; discriminate Hcorner.
Qed.

(** Both callbacks that stand for a finished castling animation apply
    [executeCastling] and nothing else to pieces and castling rights. *)
Lemma fire_castle_callbacks (s : State) (from to : string) (rest : list string) :
  pieces (o_state (fire (AttemptCastleDone from to) s))
  = pieces (executeCastling from to s)
  ∧ castling (o_state (fire (AttemptCastleDone from to) s))
    = castling (executeCastling from to s)
  ∧ pieces (o_state (fire (ExecCastleDone from to rest) s))
    = pieces (executeCastling from to s)
  ∧ castling (o_state (fire (ExecCastleDone from to rest) s))
    = castling (executeCastling from to s).
Proof. repeat split; simpl; unfold afterAnim; by destruct rest. Qed.

(** ** Input while an animation runs *)

Lemma selectSquare_animating (s : State) (sq : string) :
  animating s = true → selectSquare sq s = ret s.
Proof. intros H. unfold selectSquare. by rewrite H. Qed.

Lemma attemptMove_animating (s : State) (from to : string) :
  animating s = true → attemptMove from to s = ret s.
Proof. intros H. unfold attemptMove. by rewrite H. Qed.

Lemma onMouseDown_animating (s : State) (sq : option string) :
  animating s = true → onMouseDown sq s = ret s.
Proof. intros H. unfold onMouseDown. by rewrite H. Qed.

Lemma onMouseUp_animating (s : State) (sq : option string) :
  animating s = true →
  o_sched (onMouseUp sq s) = [] ∧ o_verdict (onMouseUp sq s) = None
  ∧ o_threw (onMouseUp sq s) = false
  ∧ guarded (o_state (onMouseUp sq s)) = guarded s.
Proof.
  intros H. unfold onMouseUp.
  repeat match goal with
         | |- context [if ?b then _ else _] => destruct b
         end;
    rewrite ?selectSquare_animating, ?attemptMove_animating
      by (simpl; assumption);
    simpl; unfold guarded, board; simpl; done.
Qed.

(** What a pointer-up still does then: it ends the drag, and the selection
    is either kept or cleared. *)
Lemma onMouseUp_animating_session (s : State) (sq : option string) :
  animating s = true →
  dragging (o_state (onMouseUp sq s)) = None
  ∧ hasDragged (o_state (onMouseUp sq s)) = false
  ∧ (selectedSquare (o_state (onMouseUp sq s)) = selectedSquare s
     ∨ selectedSquare (o_state (onMouseUp sq s)) = None).
Proof.
  intros H. unfold onMouseUp.
  repeat match goal with
         | |- context [if ?b then _ else _] => destruct b
         end;
    rewrite ?selectSquare_animating, ?attemptMove_animating
      by (simpl; assumption);
    simpl; auto.
Qed.

Lemma handle_animating (s : State) (i : input) :
  animating s = true →
  o_sched (handle i s) = [] ∧ o_verdict (handle i s) = None
  ∧ o_threw (handle i s) = false
  ∧ guarded (o_state (handle i s)) = guarded s
  ∧ ((∀ sq, i ≠ PointerUpOn sq) → o_state (handle i s) = s).
Proof.
  intros H. destruct i as [sq|sq|sq|from to]; simpl.
  - rewrite selectSquare_animating by done. done.
  - rewrite onMouseDown_animating by done. done.
  - destruct (onMouseUp_animating s sq H) as (? & ? & ? & ?).
    repeat split; try done. intros Hne. by destruct (Hne sq).
  - rewrite attemptMove_animating by done. done.
Qed.

(** C6 (as the code has it).  Whatever inputs are delivered while
    [animating] is set, no verdict is given, nothing is scheduled, and the
    puzzle, the solved flag, the board (pieces, turn, castling, lastMove),
    both counters and [animating] itself stay as they are; if no pointer-up
    is among the inputs the state does not change at all. *)
Theorem animating_blocks_attempts (s : State) (inputs : list input) :
  animating s = true →
  (deliver inputs s).2 = []
  ∧ (deliver inputs s).1.2 = []
  ∧ guarded (deliver inputs s).1.1 = guarded s
  ∧ ((∀ sq, ¬ In (PointerUpOn sq) inputs) → (deliver inputs s).1.1 = s).
Proof.
  revert s. induction inputs as [|i inputs IH]; intros s Ha; [done|].
  destruct (handle_animating s i Ha) as (Hs & Hv & _ & Hg & Hsame).
  assert (Ha' : animating (o_state (handle i s)) = true).
  { rewrite <- Ha. exact (f_equal snd Hg). }
  specialize (IH _ Ha'). destruct IH as (IHv & IHs & IHg & IHsame).
  simpl. unfold verdicts. rewrite Hs, Hv.
  destruct (deliver inputs (o_state (handle i s))) as [[s' cbs] vs].
  simpl in *. subst. repeat split; [congruence|].
  intros Hno. rewrite IHsame, Hsame; [done| |].
  - intros sq ->. apply (Hno sq). by left.
  - intros sq Hin. apply (Hno sq). by right.
Qed.

(** A selection and a direct attempt sent during the continuation of a
    solved puzzle change nothing. *)
Lemma animating_blocks_attempts_witness :
  (deliver [SelectSquare "d4"; MoveAttempt "d2" "d4"] (stateAfter solvedThenClicked)).2
  = []
  ∧ (deliver [SelectSquare "d4"; MoveAttempt "d2" "d4"]
       (stateAfter solvedThenClicked)).1.1
    = stateAfter solvedThenClicked.
Proof.
  destruct (animating_blocks_attempts (stateAfter solvedThenClicked)
              [SelectSquare "d4"; MoveAttempt "d2" "d4"] eq_refl)
    as (Hv & _ & _ & Hsame).
  split; [exact Hv|]. apply Hsame.
  intros sq [H|[H|[]]]; discriminate H.
Defined.

(** C6 fails as stated: the session [solvedThenClicked] ends in a state
    with [animating] set and d2 selected, and a pointer-up outside the board
    then clears the selection. *)
Lemma pointer_up_clears_selection_while_animating :
  (∃ pending, run solvedThenClicked (initialState, [])
              = Some (stateAfter solvedThenClicked, pending))
  ∧ animating (stateAfter solvedThenClicked) = true
  ∧ selectedSquare (stateAfter solvedThenClicked) = Some "d2"
  ∧ ¬ inert (PointerUpOn None) (stateAfter solvedThenClicked).
Proof.
  split; [eexists; vm_compute; reflexivity|].
  split; [vm_compute; reflexivity|].
  split; [vm_compute; reflexivity|].
  intros (_ & _ & H). vm_compute in H. discriminate H.
Qed.

(** ** Generated destinations are squares other than the origin *)

Lemma inBoard_bounds (f r : Z) :
  inBoard f r = true ↔ (0 ≤ f < 8 ∧ 0 ≤ r < 8)%Z.
Proof. unfold inBoard. rewrite !andb_true_iff. lia. Qed.

Lemma inRange_bounds (i : Z) : inRange i = true ↔ (0 ≤ i < 8)%Z.
Proof. unfold inRange. rewrite andb_true_iff. lia. Qed.

Lemma Forall_push (P : string → Prop) (moves : list string) (x : string) :
  Forall P moves → P x → Forall P (push moves x).
Proof. intros. unfold push. apply Forall_app. by split; [|constructor]. Qed.

Section SlideFuel.

Variable st : State.
Variable isWhite : bool.
Variables df dr : Z.

(** A potential that is positive on the board and drops with every step
    bounds the number of iterations. *)
Lemma slideLoop_fuel_potential (φ : Z → Z → Z) :
  (∀ f r, inBoard f r = true → 1 ≤ φ f r ∧ φ (f + df) (r + dr) ≤ φ f r - 1)%Z →
  ∀ n m f r moves,
    (inBoard f r = true → φ f r ≤ Z.of_nat n ∧ φ f r ≤ Z.of_nat m)%Z →
    slideLoop st isWhite n df dr f r moves = slideLoop st isWhite m df dr f r moves.
Proof.
  intros Hφ. induction n as [|n IH]; intros m f r moves Hb.
  - destruct m as [|m]; [reflexivity|]. simpl.
    destruct (inBoard f r) eqn:E; [|reflexivity].
    specialize (Hφ f r E). specialize (Hb eq_refl). lia.
  - destruct m as [|m]; simpl.
    + destruct (inBoard f r) eqn:E; [|reflexivity].
      specialize (Hφ f r E). specialize (Hb eq_refl). lia.
    + destruct (inBoard f r) eqn:E; [|reflexivity].
      destruct (negb _); [|reflexivity].
      apply IH. intros E'.
      pose proof (Hφ f r E). specialize (Hb eq_refl). lia.
Qed.

(** The loop of [addSlide] ends within 8 iterations: more fuel than 8
    gives the same list. *)
Lemma slideLoop_fuel (n : nat) (f r : Z) (moves : list string) :
  (df ≠ 0 ∨ dr ≠ 0)%Z → (8 ≤ n)%nat →
  slideLoop st isWhite n df dr f r moves = slideLoop st isWhite 8 df dr f r moves.
Proof.
  intros [Hd|Hd] Hn.
  - apply (slideLoop_fuel_potential
             (λ f _, if (0 <? df)%Z then 8 - f else f + 1)%Z).
    + intros f' r' E. apply inBoard_bounds in E.
      destruct (Z.ltb_spec 0 df); lia.
    + intros E. apply inBoard_bounds in E.
      destruct (Z.ltb_spec 0 df); lia.
  - apply (slideLoop_fuel_potential
             (λ _ r, if (0 <? dr)%Z then 8 - r else r + 1)%Z).
    + intros f' r' E. apply inBoard_bounds in E.
      destruct (Z.ltb_spec 0 dr); lia.
    + intros E. apply inBoard_bounds in E.
      destruct (Z.ltb_spec 0 dr); lia.
Qed.

End SlideFuel.

Section Destinations.

Variable st : State.
Variable isWhite : bool.
Variables f0 r0 : Z.

Lemma addMove_generated (moves : list string) (f r : Z) :
  (f ≠ f0 ∨ r ≠ r0) →
  Forall (generated f0 r0) moves →
  Forall (generated f0 r0) (addMove st isWhite moves f r).
Proof.
  intros Hne Hm. unfold addMove.
  destruct (inBoard f r) eqn:E; [|done].
  destruct (_ || _); [|done].
  apply Forall_push; [done|]. by exists f, r.
Qed.

Lemma addMoves_generated (offs : list (Z * Z)) (moves : list string) :
  Forall nonzero offs →
  Forall (generated f0 r0) moves →
  Forall (generated f0 r0) (addMoves st isWhite f0 r0 offs moves).
Proof.
  unfold addMoves. revert moves.
  induction offs as [|[df dr] offs IH]; intros moves Hnz Hm; [done|].
  inversion Hnz as [|? ? Hd Hnz']; subst. simpl.
  apply IH; [done|]. apply addMove_generated; [|done].
  unfold nonzero in Hd. simpl in Hd. lia.
Qed.

Lemma slideLoop_generated (df dr : Z) (fuel : nat) :
  (df ≠ 0 ∨ dr ≠ 0) →
  ∀ (k : Z) (moves : list string),
    (0 < k)%Z →
    Forall (generated f0 r0) moves →
    Forall (generated f0 r0)
           (slideLoop st isWhite fuel df dr (f0 + k * df) (r0 + k * dr) moves).
Proof.
  intros Hd. induction fuel as [|fuel IH]; intros k moves Hk Hm; [done|].
  simpl. destruct (inBoard _ _) eqn:E; [|done].
  assert (Hg : generated f0 r0
                 (add (at_index FILES (f0 + k * df)) (at_index RANKS (r0 + k * dr)))).
  { exists (f0 + k * df)%Z, (r0 + k * dr)%Z. repeat split; [done|]. nia. }
  destruct (negb _).
  - replace (f0 + k * df + df)%Z with (f0 + (k + 1) * df)%Z by lia.
    replace (r0 + k * dr + dr)%Z with (r0 + (k + 1) * dr)%Z by lia.
    apply IH; [lia|]. by apply Forall_push.
  - destruct (xorb _ _); [by apply Forall_push | done].
Qed.

Lemma addSlides_generated (dirs : list (Z * Z)) (moves : list string) :
  Forall nonzero dirs →
  Forall (generated f0 r0) moves →
  Forall (generated f0 r0) (addSlides st isWhite f0 r0 dirs moves).
Proof.
  unfold addSlides. revert moves.
  induction dirs as [|[df dr] dirs IH]; intros moves Hnz Hm; [done|].
  inversion Hnz as [|? ? Hd Hnz']; subst. simpl.
  apply IH; [done|]. unfold addSlide.
  replace (f0 + df)%Z with (f0 + 1 * df)%Z by lia.
  replace (r0 + dr)%Z with (r0 + 1 * dr)%Z by lia.
  apply slideLoop_generated; [exact Hd|lia|done].
Qed.

Lemma pawnMoves_generated (moves : list string) :
  inBoard f0 r0 = true →
  Forall (generated f0 r0) moves →
  Forall (generated f0 r0) (pawnMoves st isWhite f0 r0 moves).
Proof.
  intros Hin Hm. apply inBoard_bounds in Hin. unfold pawnMoves.
  set (dir := if isWhite then 1%Z else (-1)%Z).
  assert (Hdir : dir = 1%Z ∨ dir = (-1)%Z) by (unfold dir; destruct isWhite; auto).
  destruct (inRange (r0 + dir)) eqn:E; [|done].
  apply inRange_bounds in E.
  assert (Hfwd : generated f0 r0
                   (add (at_index FILES f0) (at_index RANKS (r0 + dir)))).
  { exists f0, (r0 + dir)%Z. repeat split; [apply inBoard_bounds; lia|]. lia. }
  match goal with
  | |- Forall _ (fold_left _ _ ?m1) =>
      assert (Hm1 : Forall (generated f0 r0) m1)
  end.
  { destruct (negb _); [|done].
    destruct (Z.eqb_spec r0 (if isWhite then 1 else 6)%Z) as [Hs|_];
      [|by apply Forall_push].
    destruct (negb _); [|by apply Forall_push].
    apply Forall_push; [by apply Forall_push|].
    exists f0, (r0 + 2 * dir)%Z. repeat split.
    - apply inBoard_bounds. unfold dir in *. destruct isWhite; lia.
    - lia. }
  simpl.
  assert (Hcap : ∀ df ms, (df = -1 ∨ df = 1)%Z →
            Forall (generated f0 r0) ms →
            Forall (generated f0 r0)
              (if inRange (f0 + df) then
                 if truthy (getProp (pieces st)
                              (add (at_index FILES (f0 + df))
                                   (at_index RANKS (r0 + dir))))
                    && xorb isWhite
                         (isUpperValue
                            (getProp (pieces st)
                               (add (at_index FILES (f0 + df))
                                    (at_index RANKS (r0 + dir)))))
                 then push ms (add (at_index FILES (f0 + df))
                                   (at_index RANKS (r0 + dir)))
                 else ms
               else ms)).
  { intros df ms Hdf Hms. destruct (inRange (f0 + df)) eqn:E'; [|done].
    apply inRange_bounds in E'. destruct (_ && _); [|done].
    apply Forall_push; [done|].
    exists (f0 + df)%Z, (r0 + dir)%Z.
    repeat split; [apply inBoard_bounds; lia|]. lia. }
  apply (Hcap 1%Z); [auto|]. apply (Hcap (-1)%Z); [auto|]. exact Hm1.
Qed.

End Destinations.

Lemma castlingMoves_generated (st : State) (isWhite : bool)
    (file rank : option string) (moves : list string) :
  Forall (generated (indexOf FILES file) (indexOf RANKS rank)) moves →
  Forall (generated (indexOf FILES file) (indexOf RANKS rank))
         (castlingMoves st isWhite file rank moves).
Proof.
  intros Hm. unfold castlingMoves.
  destruct (isWhite && strictEq rank (Some "1") && strictEq file (Some "e")) eqn:E.
  - apply andb_prop in E as [E Hf]. apply andb_prop in E as [_ Hr].
    apply strictEq_Some in Hf, Hr. subst file rank.
    assert (Hg : generated (indexOf FILES (Some "e")) (indexOf RANKS (Some "1")) "g1")
      by (exists 6%Z, 0%Z; repeat split; left; discriminate).
    assert (Hc : generated (indexOf FILES (Some "e")) (indexOf RANKS (Some "1")) "c1")
      by (exists 2%Z, 0%Z; repeat split; left; discriminate).
    repeat match goal with
           | |- context [if ?b then _ else _] => destruct b
           end; repeat apply Forall_push; assumption.
  - destruct (negb isWhite && strictEq rank (Some "8") && strictEq file (Some "e"))
      eqn:E'; [|done].
    apply andb_prop in E' as [E' Hf]. apply andb_prop in E' as [_ Hr].
    apply strictEq_Some in Hf, Hr. subst file rank.
    assert (Hg : generated (indexOf FILES (Some "e")) (indexOf RANKS (Some "8")) "g8")
      by (exists 6%Z, 7%Z; repeat split; left; discriminate).
    assert (Hc : generated (indexOf FILES (Some "e")) (indexOf RANKS (Some "8")) "c8")
      by (exists 2%Z, 7%Z; repeat split; left; discriminate).
    repeat match goal with
           | |- context [if ?b then _ else _] => destruct b
           end; repeat apply Forall_push; assumption.
Qed.

Lemma directions_nonzero :
  Forall nonzero knightOffsets ∧ Forall nonzero bishopDirs
  ∧ Forall nonzero rookDirs ∧ Forall nonzero queenDirs
  ∧ Forall nonzero kingOffsets.
Proof.
  unfold knightOffsets, bishopDirs, rookDirs, queenDirs, kingOffsets.
  repeat apply conj;
    repeat (apply Forall_cons_2; [unfold nonzero; simpl; lia|]);
    apply Forall_nil_2.
Qed.

(** A square name determines its indices, and the names of board squares
    are exactly the well-formed squares. *)
Lemma squareName_indices (f r : Z) :
  inBoard f r = true →
  isSquare (squareName f r) = true
  ∧ fileIndex (squareName f r) = f ∧ rankIndex (squareName f r) = r.
Proof.
  intros H. apply inBoard_bounds in H as [Hf Hr].
  assert (f = 0 ∨ f = 1 ∨ f = 2 ∨ f = 3 ∨ f = 4 ∨ f = 5 ∨ f = 6 ∨ f = 7)%Z
    as Hfs by lia.
  assert (r = 0 ∨ r = 1 ∨ r = 2 ∨ r = 3 ∨ r = 4 ∨ r = 5 ∨ r = 6 ∨ r = 7)%Z
    as Hrs by lia.
  clear Hf Hr.
  repeat (destruct Hfs as [->|Hfs]); try subst f;
    repeat (destruct Hrs as [->|Hrs]); try subst r;
    vm_compute; repeat split; reflexivity.
Qed.

Lemma isSquare_indices (sq : string) :
  isSquare sq = true →
  inBoard (fileIndex sq) (rankIndex sq) = true
  ∧ sq = squareName (fileIndex sq) (rankIndex sq).
Proof.
  intros H. apply isSquare_In in H.
  assert (Hall : forallb (λ x, inBoard (fileIndex x) (rankIndex x)
                               && String.eqb x (squareName (fileIndex x) (rankIndex x)))
                         allSquares = true)
    by (vm_compute; reflexivity).
  rewrite forallb_forall in Hall. apply Hall in H.
  apply andb_prop in H as [H1 H2]. apply String.eqb_eq in H2. done.
Qed.

Lemma getPseudoLegalMoves_generated (st : State) (sq : string) :
  isSquare sq = true →
  Forall (generated (fileIndex sq) (rankIndex sq)) (getPseudoLegalMoves st sq).
Proof.
  intros Hsq. apply isSquare_indices in Hsq as [Hin _].
  destruct directions_nonzero as (Hn & Hb & Hr & Hq & Hk).
  unfold getPseudoLegalMoves.
  destruct (getProp (pieces st) sq) as [piece|]; [|constructor].
  destruct (String.eqb piece ""); [constructor|].
  fold (fileIndex sq). fold (rankIndex sq).
  repeat match goal with
         | |- context [if String.eqb ?a ?b then _ else _] =>
             destruct (String.eqb a b)
         end.
  - by apply pawnMoves_generated.
  - by apply addMoves_generated.
  - by apply addSlides_generated.
  - by apply addSlides_generated.
  - by apply addSlides_generated.
  - apply castlingMoves_generated. by apply addMoves_generated.
  - constructor.
Qed.

(** C10. For every state and every well-formed square [sq], each square
    that [getPseudoLegalMoves] returns for [sq] is a well-formed square
    (file a-h, rank 1-8) and is not [sq] itself. *)
Theorem generated_moves_are_other_squares (st : State) (sq d : string) :
  isSquare sq = true →
  In d (getPseudoLegalMoves st sq) →
  isSquare d = true ∧ d ≠ sq.
Proof.
  intros Hsq Hd.
  pose proof (getPseudoLegalMoves_generated st sq Hsq) as Hall.
  rewrite Forall_forall in Hall.
  destruct (Hall d) as (f & r & Hin & -> & Hne); [by apply list_elem_of_In|].
  destruct (squareName_indices f r Hin) as (Hs & Hf & Hr).
  split; [exact Hs|].
  intros Heq. rewrite <- Heq, Hf, Hr in Hne. tauto.
Qed.

(** The moves of the king on e1 of "r3k2r/8/8/8/8/8/8/R3K2R w KQkq -":
    g1 is one of them, so it is a square and differs from e1. *)
Lemma generated_moves_are_other_squares_witness :
  isSquare "g1" = true ∧ "g1" ≠ "e1".
Proof.
  apply (generated_moves_are_other_squares (boardOfFen castleFen "e1g1") "e1" "g1").
  - reflexivity.
  - vm_compute. tauto.
Defined.

(** The origin has to be a square: a piece that an over-long row left under
    the key "undefined2" yields the destination "undefined1". *)
Example non_square_origin :
  isSquare "undefined2" = false
  ∧ In "undefined1"
       (getPseudoLegalMoves (boardOfFen "8/8/8/8/8/8/PPPPPPPPP/8 w - -" "a2a3")
                            "undefined2").
Proof. split; [reflexivity|]. vm_compute. tauto. Qed.

(** ** The move generator, square by square *)

Lemma squareName_inj (f r f' r' : Z) :
  inBoard f r = true → inBoard f' r' = true →
  squareName f r = squareName f' r' → f = f' ∧ r = r'.
Proof.
  intros H H' Heq.
  destruct (squareName_indices f r H) as (_ & Hf & Hr).
  destruct (squareName_indices f' r' H') as (_ & Hf' & Hr').
  rewrite Heq in Hf, Hr. split; congruence.
Qed.

Section Membership.

Variable st : State.
Variable isWhite : bool.

Lemma addMove_In (moves : list string) (f r : Z) (d : string) :
  In d (addMove st isWhite moves f r)
  ↔ In d moves
    ∨ (inBoard f r = true ∧ d = squareName f r ∧ canLand st isWhite d = true).
Proof.
  unfold addMove, canLand, isEmpty, squareName.
  destruct (inBoard f r); [|intuition discriminate].
  destruct (_ || _) eqn:E.
  - rewrite In_push. split; [|intros [?|(_ & -> & _)]; auto].
    intros [?| ->]; auto.
  - split; [auto|]. intros [?|(_ & -> & H)]; [done|]. congruence.
Qed.

Lemma addMoves_In (f0 r0 : Z) (offs : list (Z * Z)) (moves : list string) (d : string) :
  In d (addMoves st isWhite f0 r0 offs moves)
  ↔ In d moves
    ∨ ∃ df dr, In (df, dr) offs ∧ inBoard (f0 + df) (r0 + dr) = true
               ∧ d = squareName (f0 + df) (r0 + dr)
               ∧ canLand st isWhite d = true.
Proof.
  unfold addMoves. revert moves.
  induction offs as [|[df dr] offs IH]; intros moves; simpl.
  - split; [auto|]. intros [?|(? & ? & [] & _)]. done.
  - rewrite IH, addMove_In. split.
    + intros [[?|(? & ? & ?)]|(df' & dr' & ? & ?)]; [auto| |].
      * right. exists df, dr. auto.
      * right. exists df', dr'. auto.
    + intros [?|(df' & dr' & [Heq|?] & ?)]; [auto| |].
      * injection Heq as -> ->. left. right. tauto.
      * right. exists df', dr'. auto.
Qed.

(** The loop of [addSlide] started at [(f, r)]: it pushes the [j]-th
    square of the ray when the [j] squares before it are on the board and
    empty and the piece may land on it. *)
Lemma slideLoop_In (df dr : Z) (fuel : nat) :
  ∀ (f r : Z) (moves : list string) (d : string),
    In d (slideLoop st isWhite fuel df dr f r moves)
    ↔ In d moves
      ∨ ∃ j : nat, (j < fuel)%nat
          ∧ (∀ i : nat, (i < j)%nat →
               inBoard (f + Z.of_nat i * df) (r + Z.of_nat i * dr) = true
               ∧ isEmpty st (squareName (f + Z.of_nat i * df) (r + Z.of_nat i * dr))
                 = true)
          ∧ inBoard (f + Z.of_nat j * df) (r + Z.of_nat j * dr) = true
          ∧ d = squareName (f + Z.of_nat j * df) (r + Z.of_nat j * dr)
          ∧ canLand st isWhite d = true.
Proof.
  induction fuel as [|fuel IH]; intros f r moves d.
  - simpl. split; [auto|]. intros [?|(j & ? & _)]; [done|lia].
  - simpl. destruct (inBoard f r) eqn:Eb.
    + fold (squareName f r).
      destruct (negb (truthy (getProp (pieces st) (squareName f r)))) eqn:Ee.
      * rewrite IH, In_push. split.
        -- intros [[?| ->]|(j & Hj & Hpre & Hin & -> & Hland)]; [auto| |].
           ++ right. exists 0%nat. repeat split; try lia.
              ** by rewrite Z.mul_0_l, !Z.add_0_r.
              ** by rewrite Z.mul_0_l, !Z.add_0_r.
              ** unfold canLand, isEmpty. by rewrite Ee.
           ++ right. exists (S j). split; [lia|].
              replace (f + Z.of_nat (S j) * df)%Z with (f + df + Z.of_nat j * df)%Z by lia.
              replace (r + Z.of_nat (S j) * dr)%Z with (r + dr + Z.of_nat j * dr)%Z by lia.
              repeat split; try done.
              ** destruct i as [|i].
                 --- by rewrite Z.mul_0_l, !Z.add_0_r.
                 --- replace (f + Z.of_nat (S i) * df)%Z
                       with (f + df + Z.of_nat i * df)%Z by lia.
                     replace (r + Z.of_nat (S i) * dr)%Z
                       with (r + dr + Z.of_nat i * dr)%Z by lia.
                     apply Hpre. lia.
              ** destruct i as [|i].
                 --- by rewrite Z.mul_0_l, !Z.add_0_r.
                 --- replace (f + Z.of_nat (S i) * df)%Z
                       with (f + df + Z.of_nat i * df)%Z by lia.
                     replace (r + Z.of_nat (S i) * dr)%Z
                       with (r + dr + Z.of_nat i * dr)%Z by lia.
                     apply Hpre. lia.
        -- intros [?|(j & Hj & Hpre & Hin & -> & Hland)]; [auto|].
           destruct j as [|j].
           ++ left. right. by rewrite Z.mul_0_l, !Z.add_0_r.
           ++ right. exists j. split; [lia|].
              replace (f + df + Z.of_nat j * df)%Z with (f + Z.of_nat (S j) * df)%Z by lia.
              replace (r + dr + Z.of_nat j * dr)%Z with (r + Z.of_nat (S j) * dr)%Z by lia.
              repeat split; try done.
              ** replace (f + df + Z.of_nat i * df)%Z
                   with (f + Z.of_nat (S i) * df)%Z by lia.
                 replace (r + dr + Z.of_nat i * dr)%Z
                   with (r + Z.of_nat (S i) * dr)%Z by lia.
                 apply Hpre. lia.
              ** replace (f + df + Z.of_nat i * df)%Z
                   with (f + Z.of_nat (S i) * df)%Z by lia.
                 replace (r + dr + Z.of_nat i * dr)%Z
                   with (r + Z.of_nat (S i) * dr)%Z by lia.
                 apply Hpre. lia.
      * assert (Hstop : ∀ j : nat,
                  (∀ i : nat, (i < j)%nat →
                     inBoard (f + Z.of_nat i * df) (r + Z.of_nat i * dr) = true
                     ∧ isEmpty st (squareName (f + Z.of_nat i * df)
                                              (r + Z.of_nat i * dr)) = true) →
                  j = 0%nat).
        { intros j Hpre. destruct j as [|j]; [done|].
          destruct (Hpre 0%nat) as [_ H0]; [lia|].
          rewrite Z.mul_0_l, !Z.add_0_r in H0. unfold isEmpty in H0. congruence. }
        destruct (xorb isWhite (isUpperValue (getProp (pieces st) (squareName f r))))
          eqn:Ex.
        -- rewrite In_push. split.
           ++ intros [?| ->]; [auto|]. right. exists 0%nat.
              rewrite Z.mul_0_l, !Z.add_0_r. repeat split; try lia; try done.
              unfold canLand. by rewrite Ex, orb_true_r.
           ++ intros [?|(j & Hj & Hpre & Hin & -> & Hland)]; [auto|].
              rewrite (Hstop j Hpre). right.
              by rewrite Z.mul_0_l, !Z.add_0_r.
        -- split; [auto|].
           intros [?|(j & Hj & Hpre & Hin & -> & Hland)]; [done|].
           rewrite (Hstop j Hpre) in Hland.
           rewrite Z.mul_0_l, !Z.add_0_r in Hland.
           unfold canLand, isEmpty in Hland. rewrite Ee, Ex in Hland. discriminate.
    + split; [auto|]. intros [?|(j & Hj & Hpre & Hin & _)]; [done|].
      destruct j as [|j].
      * rewrite Z.mul_0_l, !Z.add_0_r in Hin. congruence.
      * destruct (Hpre 0%nat) as [H0 _]; [lia|].
        rewrite Z.mul_0_l, !Z.add_0_r in H0. congruence.
Qed.

End Membership.

Lemma between_on_board (a d k m : Z) :
  (0 ≤ a < 8)%Z → (0 ≤ a + k * d < 8)%Z → (0 < m < k)%Z → (0 ≤ a + m * d < 8)%Z.
Proof. intros Ha Hk Hm. nia. Qed.

Lemma steps_bounded (a d k : Z) :
  d ≠ 0%Z → (0 ≤ a < 8)%Z → (0 ≤ a + k * d < 8)%Z → (0 < k)%Z → (k ≤ 7)%Z.
Proof. intros Hd Ha Hk Hpos. nia. Qed.

Section MembershipOnBoard.

Variable st : State.
Variable isWhite : bool.
Variables f0 r0 : Z.
Hypothesis origin : inBoard f0 r0 = true.

(** One call of [addSlide] from a square of the board: the 8 iterations
    that the embedding allows reach every square of the ray. *)
Lemma addSlide_In (df dr : Z) (moves : list string) (d : string) :
  (df ≠ 0 ∨ dr ≠ 0)%Z →
  In d (addSlide st isWhite f0 r0 moves df dr)
  ↔ In d moves
    ∨ ∃ k : Z, (0 < k)%Z
        ∧ inBoard (f0 + k * df) (r0 + k * dr) = true
        ∧ d = squareName (f0 + k * df) (r0 + k * dr)
        ∧ clearRay st f0 r0 df dr k
        ∧ canLand st isWhite d = true.
Proof.
  intros Hd. unfold addSlide. rewrite slideLoop_In.
  pose proof origin as Ho. apply inBoard_bounds in Ho.
  split; (intros [?|H]; [by left|right]).
  - destruct H as (j & Hj & Hpre & Hin & -> & Hland).
    exists (Z.of_nat j + 1)%Z.
    replace (f0 + (Z.of_nat j + 1) * df)%Z with (f0 + df + Z.of_nat j * df)%Z by lia.
    replace (r0 + (Z.of_nat j + 1) * dr)%Z with (r0 + dr + Z.of_nat j * dr)%Z by lia.
    repeat split; try done; [lia|].
    intros m Hm. destruct (Hpre (Z.to_nat (m - 1))) as [_ He]; [lia|].
    rewrite Z2Nat.id in He by lia.
    replace (f0 + df + (m - 1) * df)%Z with (f0 + m * df)%Z in He by lia.
    replace (r0 + dr + (m - 1) * dr)%Z with (r0 + m * dr)%Z in He by lia.
    exact He.
  - destruct H as (k & Hk & Hin & -> & Hclear & Hland).
    pose proof Hin as Hb. apply inBoard_bounds in Hb.
    assert (Hk7 : (k ≤ 7)%Z).
    { destruct Hd as [Hd|Hd];
        [apply (steps_bounded f0 df k) | apply (steps_bounded r0 dr k)]; lia. }
    exists (Z.to_nat (k - 1)).
    rewrite Z2Nat.id by lia.
    replace (f0 + df + (k - 1) * df)%Z with (f0 + k * df)%Z by lia.
    replace (r0 + dr + (k - 1) * dr)%Z with (r0 + k * dr)%Z by lia.
    repeat split; try done; [lia| |].
    + replace (f0 + df + Z.of_nat i * df)%Z with (f0 + (Z.of_nat i + 1) * df)%Z by lia.
      replace (r0 + dr + Z.of_nat i * dr)%Z with (r0 + (Z.of_nat i + 1) * dr)%Z by lia.
      apply inBoard_bounds. split.
      * apply (between_on_board f0 df k); lia.
      * apply (between_on_board r0 dr k); lia.
    + replace (f0 + df + Z.of_nat i * df)%Z with (f0 + (Z.of_nat i + 1) * df)%Z by lia.
      replace (r0 + dr + Z.of_nat i * dr)%Z with (r0 + (Z.of_nat i + 1) * dr)%Z by lia.
      apply Hclear. lia.
Qed.

Lemma addSlides_In (dirs : list (Z * Z)) (moves : list string) (d : string) :
  Forall nonzero dirs →
  In d (addSlides st isWhite f0 r0 dirs moves)
  ↔ In d moves
    ∨ ∃ df dr k, In (df, dr) dirs ∧ (0 < k)%Z
        ∧ inBoard (f0 + k * df) (r0 + k * dr) = true
        ∧ d = squareName (f0 + k * df) (r0 + k * dr)
        ∧ clearRay st f0 r0 df dr k
        ∧ canLand st isWhite d = true.
Proof.
  unfold addSlides. revert moves.
  induction dirs as [|[df dr] dirs IH]; intros moves Hnz; simpl.
  - split; [auto|]. intros [?|(? & ? & ? & [] & _)]. done.
  - inversion Hnz as [|? ? Hd Hnz']; subst.
    rewrite IH by done. rewrite addSlide_In by exact Hd. split.
    + intros [[?|(k & ?)]|(df' & dr' & k & ? & ?)]; [auto| |].
      * right. exists df, dr, k. auto.
      * right. exists df', dr', k. auto.
    + intros [?|(df' & dr' & k & [Heq|?] & ?)]; [auto| |].
      * injection Heq as -> ->. left. right. exists k. tauto.
      * right. exists df', dr', k. auto.
Qed.

(** [case 'P'] from a square of the board, with nothing pushed before. *)
Lemma pawnMoves_In (d : string) :
  In d (pawnMoves st isWhite f0 r0 [])
  ↔ (inRange (r0 + (if isWhite then 1 else -1)) = true
     ∧ d = squareName f0 (r0 + (if isWhite then 1 else -1))
     ∧ isEmpty st d = true)
    ∨ (r0 = (if isWhite then 1 else 6)%Z
       ∧ d = squareName f0 (r0 + 2 * (if isWhite then 1 else -1))
       ∧ isEmpty st (squareName f0 (r0 + (if isWhite then 1 else -1))) = true
       ∧ isEmpty st d = true)
    ∨ (∃ df, (df = -1 ∨ df = 1)%Z
         ∧ inBoard (f0 + df) (r0 + (if isWhite then 1 else -1)) = true
         ∧ d = squareName (f0 + df) (r0 + (if isWhite then 1 else -1))
         ∧ isEmpty st d = false
         ∧ xorb isWhite (isUpperValue (getProp (pieces st) d)) = true).
Proof.
  pose proof origin as Ho. apply inBoard_bounds in Ho.
  unfold pawnMoves.
  set (dir := if isWhite then 1%Z else (-1)%Z).
  set (start := if isWhite then 1%Z else 6%Z).
  fold (squareName f0 (r0 + dir)). fold (squareName f0 (r0 + 2 * dir)).
  fold (squareName (f0 + -1) (r0 + dir)). fold (squareName (f0 + 1) (r0 + dir)).
  fold (isEmpty st (squareName f0 (r0 + dir))).
  fold (isEmpty st (squareName f0 (r0 + 2 * dir))).
  assert (Hcap : ∀ df ms,
            In d (if inRange (f0 + df) then
                    if truthy (getProp (pieces st) (squareName (f0 + df) (r0 + dir)))
                       && xorb isWhite
                            (isUpperValue
                               (getProp (pieces st) (squareName (f0 + df) (r0 + dir))))
                    then push ms (squareName (f0 + df) (r0 + dir))
                    else ms
                  else ms)
            ↔ In d ms
              ∨ (inRange (f0 + df) = true
                 ∧ d = squareName (f0 + df) (r0 + dir)
                 ∧ isEmpty st d = false
                 ∧ xorb isWhite (isUpperValue (getProp (pieces st) d)) = true)).
  { intros df ms. destruct (inRange (f0 + df)); [|intuition discriminate].
    destruct (truthy _ && xorb _ _) eqn:E.
    - rewrite In_push. apply andb_prop in E as [E1 E2].
      split; [intros [?| ->]; [auto|]|intros [?|(_ & -> & _)]; auto].
      right. unfold isEmpty. rewrite E1. auto.
    - split; [auto|]. intros [?|(_ & -> & H1 & H2)]; [done|].
      unfold isEmpty in H1. apply negb_false_iff in H1.
      rewrite H1, H2 in E. discriminate. }
  destruct (inRange (r0 + dir)) eqn:Er.
  - simpl. rewrite !Hcap.
    assert (Hfwd :
      In d (if isEmpty st (squareName f0 (r0 + dir)) then
              if (r0 =? start)%Z then
                if isEmpty st (squareName f0 (r0 + 2 * dir))
                then push (push [] (squareName f0 (r0 + dir)))
                          (squareName f0 (r0 + 2 * dir))
                else push [] (squareName f0 (r0 + dir))
              else push [] (squareName f0 (r0 + dir))
            else [])
      ↔ (d = squareName f0 (r0 + dir) ∧ isEmpty st d = true)
        ∨ (r0 = start ∧ d = squareName f0 (r0 + 2 * dir)
           ∧ isEmpty st (squareName f0 (r0 + dir)) = true ∧ isEmpty st d = true)).
    { destruct (isEmpty st (squareName f0 (r0 + dir))) eqn:E1.
      - destruct (Z.eqb_spec r0 start) as [Hs|Hs].
        + destruct (isEmpty st (squareName f0 (r0 + 2 * dir))) eqn:E2.
          * rewrite !In_push. simpl. split.
            -- intros [[[]| ->]| ->]; [left|right]; auto.
            -- intros [[-> _]|(_ & -> & _)]; auto.
          * rewrite In_push. simpl. split.
            -- intros [[]| ->]. left; auto.
            -- intros [[-> _]|(_ & -> & _ & H)]; [auto|congruence].
        + rewrite In_push. simpl. split.
          * intros [[]| ->]. left; auto.
          * intros [[-> _]|(? & _)]; [auto|done].
      - simpl. split; [done|].
        intros [[-> H]|(_ & _ & H & _)]; congruence. }
    rewrite Hfwd. apply inRange_bounds in Er. split.
    + intros [[[H|H]|H]|H].
      * left. tauto.
      * right. left. tauto.
      * right. right. exists (-1)%Z. destruct H as (Hr & ? & ? & ?).
        apply inRange_bounds in Hr.
        repeat split; try done; [auto|apply inBoard_bounds; lia].
      * right. right. exists 1%Z. destruct H as (Hr & ? & ? & ?).
        apply inRange_bounds in Hr.
        repeat split; try done; [auto|apply inBoard_bounds; lia].
    + intros [H|[H|(df & Hdf & Hin & H)]].
      * left. left. left. tauto.
      * left. left. right. tauto.
      * apply inBoard_bounds in Hin.
        assert (Hr : inRange (f0 + df) = true) by (apply inRange_bounds; lia).
        destruct Hdf as [-> | ->]; [left; right|right]; tauto.
  - assert (Hno : ¬ (0 ≤ r0 + dir < 8)%Z).
    { intros H. apply inRange_bounds in H. congruence. }
    simpl. split; [done|].
    intros [(H & _)|[(Hs & _)|(df & _ & Hin & _)]].
    + discriminate.
    + unfold dir, start in *. destruct isWhite; lia.
    + apply inBoard_bounds in Hin. lia.
Qed.

End MembershipOnBoard.

Lemma two_pushes_In (b1 b2 : bool) (x y : string) (moves : list string) (d : string) :
  In d (if b2 then push (if b1 then push moves x else moves) y
        else if b1 then push moves x else moves)
  ↔ In d moves ∨ (b1 = true ∧ d = x) ∨ (b2 = true ∧ d = y).
Proof.
  destruct b1, b2; rewrite ?In_push; intuition discriminate.
Qed.

Lemma castleOffered_cases (st : State) :
  castleOffered st white kingside
  = includes "K" (castling st) && isEmpty st "f1" && isEmpty st "g1"
  ∧ castleOffered st white queenside
    = includes "Q" (castling st) && isEmpty st "d1" && isEmpty st "c1"
      && isEmpty st "b1"
  ∧ castleOffered st black kingside
    = includes "k" (castling st) && isEmpty st "f8" && isEmpty st "g8"
  ∧ castleOffered st black queenside
    = includes "q" (castling st) && isEmpty st "d8" && isEmpty st "c8"
      && isEmpty st "b8".
Proof.
  unfold castleOffered. cbn [rightLetter betweenFiles homeRank forallb].
  change ("f" ++ "1") with "f1". change ("g" ++ "1") with "g1".
  change ("d" ++ "1") with "d1". change ("c" ++ "1") with "c1".
  change ("b" ++ "1") with "b1".
  change ("f" ++ "8") with "f8". change ("g" ++ "8") with "g8".
  change ("d" ++ "8") with "d8". change ("c" ++ "8") with "c8".
  change ("b" ++ "8") with "b8".
  rewrite !andb_true_r, !andb_assoc. done.
Qed.

(** The castling part of [case 'K']: which squares it adds. *)
Lemma castlingMoves_In (st : State) (isWhite : bool) (file rank : option string)
    (moves : list string) (d : string) :
  In d (castlingMoves st isWhite file rank moves)
  ↔ In d moves
    ∨ ∃ c w, isWhite = color_eqb c white
             ∧ file = Some "e" ∧ rank = Some (homeRank c)
             ∧ castleOffered st c w = true
             ∧ d = castleFile w ++ homeRank c.
Proof.
  destruct (castleOffered_cases st) as (HwK & HwQ & HbK & HbQ).
  unfold castlingMoves.
  destruct (isWhite && strictEq rank (Some "1") && strictEq file (Some "e")) eqn:E.
  - apply andb_prop in E as [E Hf]. apply andb_prop in E as [-> Hr].
    apply strictEq_Some in Hf, Hr. subst file rank.
    rewrite two_pushes_In, <- HwK, <- HwQ. split.
    + intros [?|[[? ->]|[? ->]]]; [auto| |]; right.
      * by exists white, kingside.
      * by exists white, queenside.
    + intros [?|(c & w & Hc & _ & Hr & Ho & ->)]; [auto|].
      destruct c; [|discriminate]. destruct w; auto.
  - destruct (negb isWhite && strictEq rank (Some "8") && strictEq file (Some "e"))
      eqn:E'.
    + apply andb_prop in E' as [E' Hf]. apply andb_prop in E' as [Hw Hr].
      apply negb_true_iff in Hw. subst isWhite.
      apply strictEq_Some in Hf, Hr. subst file rank.
      rewrite two_pushes_In, <- HbK, <- HbQ. split.
      * intros [?|[[? ->]|[? ->]]]; [auto| |]; right.
        -- by exists black, kingside.
        -- by exists black, queenside.
      * intros [?|(c & w & Hc & _ & Hr & Ho & ->)]; [auto|].
        destruct c; [discriminate|]. destruct w; auto.
    + split; [auto|]. intros [?|(c & w & -> & -> & -> & _)]; [done|].
      destruct c; simpl in *; discriminate.
Qed.

Lemma toUpperCase_nonempty (piece type : string) :
  toUpperCase piece = type → type ≠ "" → String.eqb piece "" = false.
Proof. intros <- H. destruct piece; [done|reflexivity]. Qed.

Lemma home_square_chars (sq : string) (c : color) :
  isSquare sq = true →
  (charAt sq 0 = Some "e" ∧ charAt sq 1 = Some (homeRank c)) ↔ sq = homeSquare c.
Proof.
  intros Hsq. split.
  - intros [Hf Hr]. apply isSquare_indices in Hsq as [_ Heq].
    unfold fileIndex, rankIndex in Heq. rewrite Hf, Hr in Heq.
    rewrite Heq. by destruct c.
  - intros ->. by destruct c.
Qed.

Lemma castleOffered_destination_empty (st : State) (c : color) (w : wing) :
  castleOffered st c w = true → isEmpty st (castleFile w ++ homeRank c) = true.
Proof.
  unfold castleOffered. intros H. apply andb_prop in H as [_ H].
  rewrite forallb_forall in H. apply H. destruct w; simpl; tauto.
Qed.

Opaque addSlides addMoves pawnMoves castlingMoves.

(** X1. A bishop, rook or queen on a square of the board reaches exactly
    the squares that lie some [k >= 1] steps away in one of its directions,
    on the board, with every square before them on that ray empty, and that
    are empty themselves or hold a piece of the other colour. *)
Theorem slider_moves_iff (st : State) (sq piece d : string) :
  isSquare sq = true →
  getProp (pieces st) sq = Some piece →
  sliderDirs (toUpperCase piece) ≠ [] →
  In d (getPseudoLegalMoves st sq)
  ↔ ∃ df dr k,
      In (df, dr) (sliderDirs (toUpperCase piece)) ∧ (0 < k)%Z
      ∧ inBoard (fileIndex sq + k * df) (rankIndex sq + k * dr) = true
      ∧ d = squareName (fileIndex sq + k * df) (rankIndex sq + k * dr)
      ∧ clearRay st (fileIndex sq) (rankIndex sq) df dr k
      ∧ canLand st (isUpper piece) d = true.
Proof.
  intros Hsq Hp Hdirs. apply isSquare_indices in Hsq as [Hin _].
  destruct directions_nonzero as (_ & Hb & Hr & Hq & _).
  assert (Hne : String.eqb piece "" = false).
  { destruct piece; [|reflexivity]. by destruct Hdirs. }
  unfold getPseudoLegalMoves. rewrite Hp, Hne.
  fold (fileIndex sq). fold (rankIndex sq).
  unfold sliderDirs in *.
  destruct (String.eqb (toUpperCase piece) "B") eqn:EB.
  { apply String.eqb_eq in EB. rewrite EB. simpl.
    rewrite (addSlides_In st _ _ _ Hin) by exact Hb. simpl. tauto. }
  destruct (String.eqb (toUpperCase piece) "R") eqn:ER.
  { apply String.eqb_eq in ER. rewrite ER. simpl.
    rewrite (addSlides_In st _ _ _ Hin) by exact Hr. simpl. tauto. }
  destruct (String.eqb (toUpperCase piece) "Q") eqn:EQ.
  { apply String.eqb_eq in EQ. rewrite EQ. simpl.
    rewrite (addSlides_In st _ _ _ Hin) by exact Hq. simpl. tauto. }
  by destruct Hdirs.
Qed.

(** The rook on a1 of "r3k2r/8/8/8/8/8/8/R3K2R w KQkq -" takes on a8: seven
    steps up the file over six empty squares. *)
Lemma slider_moves_iff_witness :
  ∃ df dr k,
    In (df, dr) (sliderDirs (toUpperCase "R")) ∧ (0 < k)%Z
    ∧ inBoard (fileIndex "a1" + k * df) (rankIndex "a1" + k * dr) = true
    ∧ "a8" = squareName (fileIndex "a1" + k * df) (rankIndex "a1" + k * dr)
    ∧ clearRay (boardOfFen castleFen "e1g1") (fileIndex "a1") (rankIndex "a1") df dr k
    ∧ canLand (boardOfFen castleFen "e1g1") (isUpper "R") "a8" = true.
Proof.
  apply (proj1 (slider_moves_iff (boardOfFen castleFen "e1g1") "a1" "R" "a8"
                  eq_refl eq_refl ltac:(discriminate))).
  vm_compute. tauto.
Defined.

(** X2. A knight reaches exactly the squares of the board at one of its
    eight offsets that are empty or hold a piece of the other colour. *)
Theorem knight_moves_iff (st : State) (sq piece d : string) :
  getProp (pieces st) sq = Some piece →
  toUpperCase piece = "N" →
  In d (getPseudoLegalMoves st sq)
  ↔ ∃ df dr,
      In (df, dr) knightOffsets
      ∧ inBoard (fileIndex sq + df) (rankIndex sq + dr) = true
      ∧ d = squareName (fileIndex sq + df) (rankIndex sq + dr)
      ∧ canLand st (isUpper piece) d = true.
Proof.
  intros Hp Ht.
  unfold getPseudoLegalMoves.
  rewrite Hp, (toUpperCase_nonempty piece "N" Ht) by discriminate.
  fold (fileIndex sq). fold (rankIndex sq). rewrite Ht. simpl.
  rewrite addMoves_In. simpl. tauto.
Qed.

(** The knight on g1 of the starting position goes to f3. *)
Lemma knight_moves_iff_witness :
  In "f3" (getPseudoLegalMoves (boardOfFen startFen "e2e4") "g1").
Proof.
  apply (knight_moves_iff (boardOfFen startFen "e2e4") "g1" "N" "f3");
    [reflexivity|reflexivity|].
  exists (-1)%Z, 2%Z. repeat split. simpl. tauto.
Defined.

(** X3. A king on a square of the board reaches exactly the neighbouring
    squares of the board that are empty or hold a piece of the other colour,
    and, when it stands on its home square, the castling squares of the
    wings whose right letter is listed and whose squares between king and
    corner are empty. *)
Theorem king_moves_iff (st : State) (sq : string) (c : color) (d : string) :
  isSquare sq = true →
  getProp (pieces st) sq = Some (kingOf c) →
  In d (getPseudoLegalMoves st sq)
  ↔ (∃ df dr,
       In (df, dr) kingOffsets
       ∧ inBoard (fileIndex sq + df) (rankIndex sq + dr) = true
       ∧ d = squareName (fileIndex sq + df) (rankIndex sq + dr)
       ∧ canLand st (color_eqb c white) d = true)
    ∨ (sq = homeSquare c
       ∧ ∃ w, castleOffered st c w = true ∧ d = castleFile w ++ homeRank c).
Proof.
  intros Hsq Hp.
  unfold getPseudoLegalMoves. rewrite Hp.
  fold (fileIndex sq). fold (rankIndex sq).
  replace (String.eqb (kingOf c) "") with false by (by destruct c).
  replace (toUpperCase (kingOf c)) with "K" by (by destruct c).
  replace (isUpper (kingOf c)) with (color_eqb c white) by (by destruct c).
  simpl. rewrite castlingMoves_In, addMoves_In. simpl.
  split.
  - intros [[[]|H]|(c' & w & Hc & Hf & Hr & Ho & ->)]; [by left|right].
    assert (c' = c) as -> by (destruct c, c'; simpl in Hc; congruence).
    split; [|eauto]. by apply home_square_chars.
  - intros [H|(Hhome & w & Ho & ->)]; [left; by right|right].
    exists c, w. apply (home_square_chars sq c Hsq) in Hhome as [Hf Hr]. auto.
Qed.

(** On "r3k2r/8/8/8/8/8/8/R3K2R w KQkq -" castling to c8 is among the moves
    of the black king. *)
Lemma king_moves_iff_witness :
  In "c8" (getPseudoLegalMoves (boardOfFen castleFen "e1g1") "e8").
Proof.
  apply (king_moves_iff (boardOfFen castleFen "e1g1") "e8" black "c8");
    [reflexivity|reflexivity|].
  right. split; [reflexivity|]. exists queenside. split; reflexivity.
Defined.

(** X4. A pawn on a square of the board reaches exactly: the square ahead
    if it is on the board and empty; the square two ahead if the pawn is on
    its starting rank and both squares ahead are empty; and each of the two
    squares diagonally ahead that is on the board and holds a piece of the
    other colour.  Ahead is towards rank 8 for an upper-case pawn and
    towards rank 1 for a lower-case one. *)
Theorem pawn_moves_iff (st : State) (sq piece d : string) :
  isSquare sq = true →
  getProp (pieces st) sq = Some piece →
  toUpperCase piece = "P" →
  In d (getPseudoLegalMoves st sq)
  ↔ (inRange (rankIndex sq + (if isUpper piece then 1 else -1)) = true
     ∧ d = squareName (fileIndex sq)
                      (rankIndex sq + (if isUpper piece then 1 else -1))
     ∧ isEmpty st d = true)
    ∨ (rankIndex sq = (if isUpper piece then 1 else 6)%Z
       ∧ d = squareName (fileIndex sq)
                        (rankIndex sq + 2 * (if isUpper piece then 1 else -1))
       ∧ isEmpty st (squareName (fileIndex sq)
                       (rankIndex sq + (if isUpper piece then 1 else -1))) = true
       ∧ isEmpty st d = true)
    ∨ (∃ df, (df = -1 ∨ df = 1)%Z
         ∧ inBoard (fileIndex sq + df)
                   (rankIndex sq + (if isUpper piece then 1 else -1)) = true
         ∧ d = squareName (fileIndex sq + df)
                          (rankIndex sq + (if isUpper piece then 1 else -1))
         ∧ isEmpty st d = false
         ∧ xorb (isUpper piece) (isUpperValue (getProp (pieces st) d)) = true).
Proof.
  intros Hsq Hp Ht. apply isSquare_indices in Hsq as [Hin _].
  unfold getPseudoLegalMoves.
  rewrite Hp, (toUpperCase_nonempty piece "P" Ht) by discriminate.
  fold (fileIndex sq). fold (rankIndex sq). rewrite Ht. simpl.
  apply (pawnMoves_In st (isUpper piece) _ _ Hin).
Qed.

(** The pawn on e2 of the starting position may go two squares to e4. *)
Lemma pawn_moves_iff_witness :
  In "e4" (getPseudoLegalMoves (boardOfFen startFen "e2e4") "e2").
Proof.
  apply (pawn_moves_iff (boardOfFen startFen "e2e4") "e2" "P" "e4");
    [reflexivity|reflexivity|reflexivity|].
  right. left. repeat split.
Defined.

(** Every generated destination can be landed on. *)
Lemma generated_canLand (st : State) (sq piece d : string) :
  isSquare sq = true →
  getProp (pieces st) sq = Some piece →
  In d (getPseudoLegalMoves st sq) →
  canLand st (isUpper piece) d = true.
Proof.
  intros Hsq Hp. pose proof Hsq as Hsq'.
  apply isSquare_indices in Hsq as [Hin _].
  destruct directions_nonzero as (_ & Hb & Hr & Hq & _).
  unfold getPseudoLegalMoves. rewrite Hp.
  destruct (String.eqb piece ""); [done|].
  fold (fileIndex sq). fold (rankIndex sq).
  repeat match goal with
         | |- context [if String.eqb ?a ?b then _ else _] =>
             destruct (String.eqb a b)
         end.
  - rewrite (pawnMoves_In st _ _ _ Hin). unfold canLand.
    intros [(_ & _ & ->)|[(_ & _ & _ & ->)|(df & _ & _ & _ & _ & ->)]];
      [done|done|apply orb_true_r].
  - rewrite addMoves_In. intros [[]|(? & ? & _ & _ & _ & H)]. exact H.
  - rewrite (addSlides_In st _ _ _ Hin) by done.
    intros [[]|(? & ? & ? & _ & _ & _ & _ & _ & H)]. exact H.
  - rewrite (addSlides_In st _ _ _ Hin) by done.
    intros [[]|(? & ? & ? & _ & _ & _ & _ & _ & H)]. exact H.
  - rewrite (addSlides_In st _ _ _ Hin) by done.
    intros [[]|(? & ? & ? & _ & _ & _ & _ & _ & H)]. exact H.
  - rewrite castlingMoves_In, addMoves_In.
    intros [[[]|(? & ? & _ & _ & _ & H)]|(c & w & _ & _ & _ & Ho & ->)];
      [exact H|].
    unfold canLand. by rewrite (castleOffered_destination_empty st c w Ho).
  - done.
Qed.

(** X5. No generated destination holds a piece of the mover's own colour:
    each one is empty or holds a piece of the other case. *)
Theorem generated_never_own_piece (st : State) (sq piece d : string) :
  isSquare sq = true →
  getProp (pieces st) sq = Some piece →
  In d (getPseudoLegalMoves st sq) →
  getProp (pieces st) d = None
  ∨ getProp (pieces st) d = Some ""
  ∨ ∃ target, getProp (pieces st) d = Some target
              ∧ isUpper target = negb (isUpper piece).
Proof.
  intros Hsq Hp Hd.
  pose proof (generated_canLand st sq piece d Hsq Hp Hd) as H.
  unfold canLand, isEmpty in H.
  destruct (getProp (pieces st) d) as [target|]; [|by left].
  right. simpl in H. destruct (String.eqb target "") eqn:E.
  - left. apply String.eqb_eq in E. by subst.
  - right. exists target. split; [done|]. simpl in H.
    destruct (isUpper piece), (isUpper target); done.
Qed.

(** The white rook on a1 of "r3k2r/8/8/8/8/8/8/R3K2R w KQkq -" reaches a8,
    which holds a lower-case piece. *)
Lemma generated_never_own_piece_witness :
  getProp (pieces (boardOfFen castleFen "e1g1")) "a8" = None
  ∨ getProp (pieces (boardOfFen castleFen "e1g1")) "a8" = Some ""
  ∨ ∃ target, getProp (pieces (boardOfFen castleFen "e1g1")) "a8" = Some target
              ∧ isUpper target = negb (isUpper "R").
Proof.
  apply (generated_never_own_piece (boardOfFen castleFen "e1g1") "a1" "R" "a8").
  - reflexivity.
  - reflexivity.
  - vm_compute. tauto.
Defined.

Transparent addSlides addMoves pawnMoves castlingMoves.

Lemma arrayIncludes_In (arr : list string) (x : string) :
  arrayIncludes arr x = true ↔ In x arr.
Proof.
  unfold arrayIncludes. rewrite existsb_exists. split.
  - intros (y & Hy & E). apply String.eqb_eq in E. by subst.
  - intros H. exists x. split; [done|apply String.eqb_refl].
Qed.

(** X6. With an own piece selected on a square of the board, the squares
    that [renderBoard] marks with a move dot or a capture ring are exactly
    the generated destinations of that piece: an empty destination gets the
    dot, an occupied one the ring, and no square gets both. *)
Theorem marks_are_generated_moves (s : State) (sq d : string) :
  selectedSquare s = Some sq →
  isSquare sq = true →
  isOwnPiece s sq = true →
  (In d (getPseudoLegalMoves s sq)
   ↔ m_moveDot (squareMarks s d) = true ∨ m_canCapture (squareMarks s d) = true)
  ∧ (m_moveDot (squareMarks s d) = true → isEmpty s d = true)
  ∧ (m_canCapture (squareMarks s d) = true → isEmpty s d = false)
  ∧ ¬ (m_moveDot (squareMarks s d) = true ∧ m_canCapture (squareMarks s d) = true).
Proof.
  intros Hsel Hsq Hown.
  assert (Hvalid : validMovesOf s = getPseudoLegalMoves s sq).
  { unfold validMovesOf. rewrite Hsel. simpl.
    destruct (String.eqb sq "") eqn:E; [|reflexivity].
    apply String.eqb_eq in E. subst. discriminate Hsq. }
  unfold squareMarks. simpl. rewrite Hvalid.
  pose proof (arrayIncludes_In (getPseudoLegalMoves s sq) d) as Hinc.
  unfold isOwnPiece in Hown.
  destruct (getProp (pieces s) sq) as [piece|] eqn:Hp; [|discriminate].
  destruct (truthy (Some piece)) eqn:Etp; [|discriminate]. simpl in Hown.
  apply Bool.eqb_prop in Hown.
  split; [|split; [|split]].
  - split.
    + intros Hd.
      pose proof (generated_canLand s sq piece d Hsq Hp Hd) as Hland.
      apply Hinc in Hd. rewrite Hd. simpl.
      unfold canLand, isEmpty in Hland. unfold isEnemyPiece.
      destruct (truthy (getProp (pieces s) d)); [right|by left].
      simpl in Hland |- *. rewrite Hown.
      destruct (isUpper piece), (isUpperValue (getProp (pieces s) d)); done.
    + intros [H|H].
      * apply andb_prop in H as [H _]. by apply Hinc.
      * apply andb_prop in H as [_ H]. apply andb_prop in H as [H _]. by apply Hinc.
  - intros H. apply andb_prop in H as [_ H]. exact H.
  - intros H. apply andb_prop in H as [H _]. unfold isEmpty. by rewrite H.
  - intros [H1 H2]. apply andb_prop in H1 as [_ H1]. apply andb_prop in H2 as [H2 _].
    rewrite H2 in H1. discriminate.
Qed.

(** With the knight on g1 selected on the starting position, f3 gets a
    move dot. *)
Lemma marks_are_generated_moves_witness :
  m_moveDot (squareMarks (set_selectedSquare (Some "g1") (boardOfFen startFen "e2e4"))
                         "f3") = true
  ∨ m_canCapture (squareMarks (set_selectedSquare (Some "g1")
                                 (boardOfFen startFen "e2e4")) "f3") = true.
Proof.
  destruct (marks_are_generated_moves
              (set_selectedSquare (Some "g1") (boardOfFen startFen "e2e4")) "g1" "f3"
              eq_refl eq_refl eq_refl) as [H _].
  apply (proj1 H). vm_compute. tauto.
Defined.

(** ** Parsing: what ends up on which square *)

Lemma isDigit18_value (c : ascii) :
  isDigit18 c = true → (1 ≤ parseInt c ≤ 8)%Z.
Proof.
  unfold isDigit18, parseInt. intros H. apply andb_prop in H as [H1 H2].
  apply Nat.leb_le in H1, H2. lia.
Qed.

Lemma rowFiles_nonneg (row : string) : (0 ≤ rowFiles row)%Z.
Proof.
  induction row as [|c row IH]; simpl; [lia|].
  destruct (isDigit18 c) eqn:E; [apply isDigit18_value in E|]; lia.
Qed.

Lemma pieceIn_past (row : string) (fileIdx f : Z) :
  (f < fileIdx)%Z → pieceIn row fileIdx f = None.
Proof.
  revert fileIdx. induction row as [|c row IH]; intros fileIdx Hlt; [done|].
  simpl. destruct (isDigit18 c) eqn:E.
  - apply isDigit18_value in E. apply IH. lia.
  - destruct (Z.eqb_spec fileIdx f); [lia|]. apply IH. lia.
Qed.

Lemma at_index_beyond (arr : list string) (i : Z) :
  (Z.of_nat (length arr) ≤ i)%Z → at_index arr i = None.
Proof.
  intros H. destruct (at_index arr i) eqn:E; [|done].
  assert (is_Some (at_index arr i)) as Hs by eauto.
  apply at_index_Some in Hs. lia.
Qed.

(** The key that [parseRow] writes for file counter [j] on the row of rank
    index [r'] names the board square [(f, r)] only if [j = f] and
    [r' = r]. *)
Lemma row_key_is_square (j r' f r : Z) :
  (0 ≤ j)%Z → (0 ≤ r' < 8)%Z → inBoard f r = true →
  add (at_index FILES j) (at_index RANKS r') = squareName f r →
  j = f ∧ r' = r.
Proof.
  intros Hj Hr' Hin Heq.
  destruct (Z.lt_ge_cases j 8) as [Hlt|Hge].
  - apply squareName_inj; [apply inBoard_bounds; lia|done|done].
  - exfalso. rewrite at_index_beyond in Heq by (simpl; lia).
    destruct (squareName_indices f r Hin) as (Hsq & _).
    apply square_shape in Hsq as [Hlen _]. rewrite <- Heq in Hlen.
    destruct (at_index RANKS r'); discriminate.
Qed.

Section ParseRowLookup.

Variable r' : Z.
Hypothesis r'_range : (0 ≤ r' < 8)%Z.

Lemma parseRow_frame (row : string) (pieces : gmap string (option string))
    (fileIdx : Z) (f r : Z) :
  (0 ≤ fileIdx)%Z → inBoard f r = true → r ≠ r' →
  getProp (parseRow (at_index RANKS r') row pieces fileIdx).1 (squareName f r)
  = getProp pieces (squareName f r).
Proof.
  revert pieces fileIdx. induction row as [|c row IH]; intros pieces fileIdx Hi Hin Hr;
    [done|].
  simpl. destruct (isDigit18 c) eqn:E.
  - apply isDigit18_value in E. apply IH; [lia|done|done].
  - rewrite IH by (done || lia). apply getProp_setProp_ne.
    intros Heq. apply row_key_is_square in Heq; [|done|done|done]. lia.
Qed.

Lemma parseRow_lookup (row : string) (pieces : gmap string (option string))
    (fileIdx : Z) (f : Z) :
  (0 ≤ fileIdx)%Z → inBoard f r' = true →
  getProp (parseRow (at_index RANKS r') row pieces fileIdx).1 (squareName f r')
  = match pieceIn row fileIdx f with
    | Some p => Some p
    | None => getProp pieces (squareName f r')
    end.
Proof.
  revert pieces fileIdx. induction row as [|c row IH]; intros pieces fileIdx Hi Hin;
    [done|].
  simpl. destruct (isDigit18 c) eqn:E.
  - apply isDigit18_value in E. apply IH; [lia|done].
  - rewrite IH by (done || lia).
    destruct (Z.eqb_spec fileIdx f) as [->|Hne].
    + rewrite pieceIn_past by lia. apply getProp_setProp_eq.
    + destruct (pieceIn row (fileIdx + 1) f); [done|].
      apply getProp_setProp_ne. intros Heq.
      apply row_key_is_square in Heq; [|done|done|done]. lia.
Qed.

End ParseRowLookup.

Lemma parseRows_lookup (rows : list string) (left : nat) :
  ∀ (k : Z) (pieces b : gmap string (option string)),
    (0 ≤ k)%Z → (k + Z.of_nat left = 8)%Z →
    parseRows left k rows pieces = Ok b →
    ∀ f r, inBoard f r = true →
      getProp b (squareName f r)
      = if (k <=? 7 - r)%Z then
          match at_index rows (7 - r) with
          | Some row =>
              match pieceIn row 0 f with
              | Some p => Some p
              | None => getProp pieces (squareName f r)
              end
          | None => getProp pieces (squareName f r)
          end
        else getProp pieces (squareName f r).
Proof.
  induction left as [|left IH]; intros k pieces b Hk Hsum Hok f r Hin.
  - simpl in Hok. injection Hok as <-. pose proof Hin as Hb.
    apply inBoard_bounds in Hb. destruct (Z.leb_spec k (7 - r)); [lia|done].
  - simpl in Hok. destruct (at_index rows k) as [row|] eqn:Erow; [|discriminate].
    destruct (parseRow (at_index RANKS (7 - k)) row pieces 0) as [pieces' n] eqn:Ep.
    pose proof Hin as Hb. apply inBoard_bounds in Hb.
    rewrite (IH (k + 1)%Z pieces' b) by (done || lia).
    assert (Hp' : pieces' = (parseRow (at_index RANKS (7 - k)) row pieces 0).1)
      by (by rewrite Ep).
    destruct (Z.eq_dec (7 - r) k) as [Heq|Hne].
    + destruct (Z.leb_spec (k + 1) (7 - r)); [lia|].
      destruct (Z.leb_spec k (7 - r)); [|lia].
      rewrite Heq, Erow, Hp'.
      replace r with (7 - k)%Z in * by lia.
      apply parseRow_lookup; [lia|lia|done].
    + assert (Hframe : getProp pieces' (squareName f r) = getProp pieces (squareName f r)).
      { rewrite Hp'. apply parseRow_frame; [lia|lia|done|lia]. }
      rewrite Hframe.
      destruct (Z.leb_spec (k + 1) (7 - r)), (Z.leb_spec k (7 - r)); try lia; done.
Qed.

(** X7. The board that [parseFen] returns holds on the square of file [f]
    and rank index [r] exactly the character that the row of that rank puts
    on file [f], and nothing if the row puts none there; no row disturbs
    the squares of another. *)
Theorem parseFen_square_lookup (fenText : string) (b : Parsed) (f r : Z) :
  parseFen fenText = Ok b →
  inBoard f r = true →
  ∃ row, rowOfRank fenText r = Some row
         ∧ getProp (p_pieces b) (squareName f r) = pieceIn row 0 f.
Proof.
  intros Hok Hin. unfold parseFen in Hok.
  rewrite split_head in Hok. fold (fenRows fenText) in Hok.
  destruct (parseRows 8 0 (fenRows fenText) ∅) as [pcs|] eqn:Erows; [|discriminate].
  injection Hok as <-. simpl.
  pose proof (parseRows_lookup (fenRows fenText) 8 0 ∅ pcs ltac:(lia) ltac:(lia)
                Erows f r Hin) as Hl.
  pose proof Hin as Hb. apply inBoard_bounds in Hb.
  destruct (Z.leb_spec 0 (7 - r)); [|lia].
  assert (Hlen : (8 ≤ length (fenRows fenText))%nat).
  { pose proof (parseRows_Ok 8 0 (fenRows fenText) ∅ ltac:(lia)) as [HR _].
    destruct HR as [?|?]; [eauto|lia|lia]. }
  unfold rowOfRank.
  destruct (at_index (fenRows fenText) (7 - r)) as [row|] eqn:Erow.
  - exists row. split; [done|]. rewrite Hl.
    destruct (pieceIn row 0 f); done.
  - exfalso. assert (is_Some (at_index (fenRows fenText) (7 - r))) as [? Hs].
    { apply at_index_Some. lia. }
    congruence.
Qed.

(** On the starting position the square e1 (file 4, rank index 0) holds the
    K that the last row lists after four other pieces. *)
Lemma parseFen_square_lookup_witness :
  ∃ b row, parseFen startFen = Ok b
           ∧ rowOfRank startFen 0 = Some row
           ∧ getProp (p_pieces b) (squareName 4 0) = pieceIn row 0 4.
Proof.
  destruct (parseFen startFen) as [b|] eqn:E; [|vm_compute in E; discriminate E].
  destruct (parseFen_square_lookup startFen b 4 0 E eq_refl) as (row & H1 & H2).
  exists b, row. auto.
Defined.

Lemma keysAreSquares_insert (pieces : gmap string (option string)) k v :
  isSquare k = true → keysAreSquares pieces → keysAreSquares (setProp pieces k v).
Proof.
  intros Hk Hp k' Hs. unfold setProp in Hs.
  destruct (decide (k = k')) as [<-|Hne]; [done|].
  rewrite lookup_insert_ne in Hs by done. by apply Hp.
Qed.

Lemma valuesArePieces_insert (pieces : gmap string (option string)) k (c : ascii) :
  isDigit18 c = false → valuesArePieces pieces →
  valuesArePieces (setProp pieces k (Some (String c EmptyString))).
Proof.
  intros Hc Hp k' v Hs. unfold setProp in Hs.
  destruct (decide (k = k')) as [<-|Hne].
  - rewrite lookup_insert_eq in Hs. injection Hs as <-. eauto.
  - rewrite lookup_insert_ne in Hs by done. by apply (Hp k').
Qed.

Lemma parseRow_keys (r' : Z) (row : string) :
  (0 ≤ r' < 8)%Z →
  ∀ (pieces : gmap string (option string)) (fileIdx : Z),
    (0 ≤ fileIdx)%Z → (fileIdx + rowFiles row ≤ 8)%Z →
    keysAreSquares pieces →
    keysAreSquares (parseRow (at_index RANKS r') row pieces fileIdx).1.
Proof.
  intros Hr. induction row as [|c row IH]; intros pieces fileIdx Hi Hfit Hp; [done|].
  simpl in Hfit |- *. pose proof (rowFiles_nonneg row).
  destruct (isDigit18 c) eqn:E.
  - apply isDigit18_value in E. apply IH; [lia|lia|done].
  - apply IH; [lia|lia|]. apply keysAreSquares_insert; [|done].
    apply (squareName_indices fileIdx r'). apply inBoard_bounds. lia.
Qed.

Lemma parseRow_values (rank : option string) (row : string) :
  ∀ (pieces : gmap string (option string)) (fileIdx : Z),
    valuesArePieces pieces →
    valuesArePieces (parseRow rank row pieces fileIdx).1.
Proof.
  induction row as [|c row IH]; intros pieces fileIdx Hp; [done|].
  simpl. destruct (isDigit18 c) eqn:E; [by apply IH|].
  apply IH. by apply valuesArePieces_insert.
Qed.

Lemma parseRows_keys_values (rows : list string) (left : nat) :
  ∀ (k : Z) (pieces b : gmap string (option string)),
    (0 ≤ k)%Z → (k + Z.of_nat left = 8)%Z →
    parseRows left k rows pieces = Ok b →
    (valuesArePieces pieces → valuesArePieces b)
    ∧ ((∀ i row, (k ≤ i < 8)%Z → at_index rows i = Some row → (rowFiles row ≤ 8)%Z) →
       keysAreSquares pieces → keysAreSquares b).
Proof.
  induction left as [|left IH]; intros k pieces b Hk Hsum Hok.
  - simpl in Hok. injection Hok as <-. tauto.
  - simpl in Hok. destruct (at_index rows k) as [row|] eqn:Erow; [|discriminate].
    destruct (parseRow (at_index RANKS (7 - k)) row pieces 0) as [pieces' n] eqn:Ep.
    assert (Hp' : pieces' = (parseRow (at_index RANKS (7 - k)) row pieces 0).1)
      by (by rewrite Ep).
    destruct (IH (k + 1)%Z pieces' b ltac:(lia) ltac:(lia) Hok) as [IHv IHk].
    split.
    + intros Hv. apply IHv. rewrite Hp'. by apply parseRow_values.
    + intros Hfit Hks. apply IHk.
      * intros i row' Hi. apply Hfit. lia.
      * rewrite Hp'. apply parseRow_keys; [lia|lia| |done].
        specialize (Hfit k row ltac:(lia) Erow). lia.
Qed.

Lemma parseFen_pieces (fenText : string) (b : Parsed) :
  parseFen fenText = Ok b → parseRows 8 0 (fenRows fenText) ∅ = Ok (p_pieces b).
Proof.
  unfold parseFen. rewrite split_head. fold (fenRows fenText).
  destruct (parseRows 8 0 (fenRows fenText) ∅); [|discriminate].
  intros H. injection H as <-. reflexivity.
Qed.

Lemma rowsFit_at_index (fenText : string) (i : Z) (row : string) :
  rowsFit fenText = true → (0 ≤ i < 8)%Z →
  at_index (fenRows fenText) i = Some row → (rowFiles row ≤ 8)%Z.
Proof.
  unfold rowsFit, at_index. intros Hfit Hi Hrow.
  destruct (Z.leb_spec 0 i); [|lia].
  rewrite forallb_forall in Hfit. apply Z.leb_le, Hfit.
  apply (nth_error_In _ (Z.to_nat i)).
  rewrite nth_error_firstn.
  destruct (Nat.ltb_spec (Z.to_nat i) 8); [done|lia].
Qed.

(** X8. When none of the first eight rows describes more than 8 files,
    every key of the parsed [pieces] object is a well-formed square. *)
Theorem parseFen_keys_are_squares (fenText : string) (b : Parsed) (k : string) :
  parseFen fenText = Ok b →
  rowsFit fenText = true →
  is_Some (p_pieces b !! k) →
  isSquare k = true.
Proof.
  intros Hok Hfit. apply parseFen_pieces in Hok.
  destruct (parseRows_keys_values (fenRows fenText) 8 0 ∅ (p_pieces b)
              ltac:(lia) ltac:(lia) Hok) as [_ Hkeys].
  apply Hkeys.
  - intros i row Hi. by apply rowsFit_at_index.
  - intros k' [v Hv]. rewrite lookup_empty in Hv. discriminate.
Qed.

(** The key e1 of the parsed starting position is a square. *)
Lemma parseFen_keys_are_squares_witness :
  ∃ b, parseFen startFen = Ok b ∧ isSquare "e1" = true.
Proof.
  destruct (parseFen startFen) as [b|] eqn:E; [|vm_compute in E; discriminate E].
  exists b. split; [reflexivity|].
  apply (parseFen_keys_are_squares startFen b "e1" E eq_refl).
  assert (Hb : Ok b = parseFen startFen) by (symmetry; exact E).
  vm_compute in Hb. injection Hb as ->. vm_compute. eauto.
Defined.

(** X9. Every property that [parseFen] stores holds a one-character string
    that is not a digit 1-8; so a square of the parsed board is occupied
    exactly when its key is present. *)
Theorem parseFen_values_are_pieces (fenText : string) (b : Parsed) (k : string) :
  parseFen fenText = Ok b →
  (∀ v, p_pieces b !! k = Some v →
        ∃ c, v = Some (String c EmptyString) ∧ isDigit18 c = false)
  ∧ (truthy (getProp (p_pieces b) k) = true ↔ is_Some (p_pieces b !! k)).
Proof.
  intros Hok. apply parseFen_pieces in Hok.
  destruct (parseRows_keys_values (fenRows fenText) 8 0 ∅ (p_pieces b)
              ltac:(lia) ltac:(lia) Hok) as [Hvals _].
  assert (Hv : valuesArePieces (p_pieces b)).
  { apply Hvals. intros k' v Hv. rewrite lookup_empty in Hv. discriminate. }
  split; [intros v; apply Hv|].
  unfold getProp. destruct (p_pieces b !! k) as [v|] eqn:E; simpl.
  - destruct (Hv k v E) as (c & -> & _). simpl. split; eauto.
  - split; [discriminate|]. intros [? ?]. discriminate.
Qed.

(** On the starting position e4 is not occupied and its key is absent. *)
Lemma parseFen_values_are_pieces_witness :
  ∃ b, parseFen startFen = Ok b
       ∧ (truthy (getProp (p_pieces b) "e4") = true ↔ is_Some (p_pieces b !! "e4")).
Proof.
  destruct (parseFen startFen) as [b|] eqn:E; [|vm_compute in E; discriminate E].
  exists b. split; [reflexivity|].
  exact (proj2 (parseFen_values_are_pieces startFen b "e4" E)).
Defined.

(** ** Applying moves *)

Lemma substring_0_append (a b : string) :
  String.substring 0 (String.length a) (a ++ b) = a.
Proof.
  induction a as [|c a IH]; [by destruct b|].
  rewrite append_cons. simpl. by rewrite IH.
Qed.

Lemma startsWith_append (a b s : string) :
  startsWith (a ++ b) s = true → startsWith a s = true.
Proof.
  revert s. induction a as [|c a IH]; intros s; [done|].
  rewrite append_cons. destruct s as [|d s]; simpl; [done|].
  intros H. apply andb_prop in H as [-> H]. simpl. by apply IH.
Qed.

(** What [afterAnim] leaves of the state it is given. *)
Lemma afterAnim_fields (from to : string) (rest : list string) (s : State) :
  pieces (o_state (afterAnim from to rest s)) = pieces s
  ∧ castling (o_state (afterAnim from to rest s)) = castling s
  ∧ turn (o_state (afterAnim from to rest s)) = flipColor (turn s)
  ∧ lastMove (o_state (afterAnim from to rest s)) = Some (from, to)
  ∧ animating (o_state (afterAnim from to rest s))
    = match rest with [] => false | _ => animating s end
  ∧ (solved (o_state (afterAnim from to rest s)),
     selectedSquare (o_state (afterAnim from to rest s)),
     totalSolved (o_state (afterAnim from to rest s)),
     totalAttempts (o_state (afterAnim from to rest s)),
     puzzle (o_state (afterAnim from to rest s)))
    = (solved s, selectedSquare s, totalSolved s, totalAttempts s, puzzle s)
  ∧ o_sched (afterAnim from to rest s)
    = match rest with [] => [] | _ => [SleepDone rest] end.
Proof. unfold afterAnim. destruct rest, (turn s); repeat split. Qed.

(** What is scheduled when [afterAnim] returns is no animation callback. *)
Lemma settle_afterAnim (from to : string) (rest : list string) (s : State) :
  settle (afterAnim from to rest s) = afterAnim from to rest s.
Proof. unfold afterAnim. by destruct rest. Qed.

(** The state after a continuation move, whether the animation calls back
    at once or later; nothing is applied when [animateCastling] throws. *)
Lemma playMove_unfold (uciMove : string) (rest : list string) (s : State) :
  playMove uciMove rest s
  = if isCastlingMove s (substring 0 2 uciMove) (substring 2 4 uciMove)
    then match animateCastling s (substring 0 2 uciMove) (substring 2 4 uciMove) with
         | Throws => s
         | _ => o_state
                  (afterAnim (substring 0 2 uciMove) (substring 2 4 uciMove) rest
                     (executeCastling (substring 0 2 uciMove)
                        (substring 2 4 uciMove) s))
         end
    else o_state
           (afterAnim (substring 0 2 uciMove) (substring 2 4 uciMove) rest
              (movePiece (substring 0 2 uciMove) (substring 2 4 uciMove)
                 (if (String.length uciMove =? 5)%nat then charAt uciMove 4 else None)
                 s)).
Proof.
  unfold playMove, executeMove.
  destruct (isCastlingMove s _ _).
  - destruct (animateCastling s _ _); try reflexivity.
    unfold animated, animationDone. by rewrite settle_afterAnim.
  - destruct (animateMove_cases s (substring 0 2 uciMove) (substring 2 4 uciMove))
      as [-> | ->]; try reflexivity.
    unfold animated, animationDone. by rewrite settle_afterAnim.
Qed.





(** X12. A move whose origin and destination are the same square removes
    the piece that stands there. *)
Theorem executeMove_same_square (s : State) (uciMove : string) (rest : list string) :
  String.length uciMove ≠ 5%nat →
  substring 0 2 uciMove = substring 2 4 uciMove →
  getProp (pieces (playMove uciMove rest s)) (substring 0 2 uciMove) = None.
Proof.
  intros Hlen Heq.
  assert (Hcastle : isCastlingMove s (substring 0 2 uciMove) (substring 2 4 uciMove)
                    = false).
  { unfold isCastlingMove. rewrite <- Heq.
    destruct (getProp (pieces s) (substring 0 2 uciMove)) as [piece|]; [|done].
    destruct (String.eqb piece ""); [done|].
    destruct (negb _); [done|].
    rewrite Z.sub_diag. reflexivity. }
  rewrite playMove_unfold, Hcastle.
  apply Nat.eqb_neq in Hlen. rewrite Hlen.
  destruct (afterAnim_fields (substring 0 2 uciMove) (substring 2 4 uciMove) rest
              (movePiece (substring 0 2 uciMove) (substring 2 4 uciMove) None s))
    as (-> & _).
  unfold movePiece. simpl. by prop_lookup.
Qed.

(** "e2e2" on the starting position removes the pawn from e2. *)
Lemma executeMove_same_square_witness :
  getProp (pieces (playMove "e2e2" [] (boardOfFen startFen "e2e4"))) "e2" = None.
Proof.
  exact (executeMove_same_square (boardOfFen startFen "e2e4") "e2e2" []
           ltac:(discriminate) eq_refl).
Defined.

Lemma isCastlingMove_same_file (s : State) (from to : string) :
  charAt from 0 = charAt to 0 → isCastlingMove s from to = false.
Proof.
  intros H. unfold isCastlingMove.
  destruct (getProp (pieces s) from) as [piece|]; [|done].
  destruct (String.eqb piece ""); [done|]. destruct (negb _); [done|].
  rewrite H, Z.sub_diag. reflexivity.
Qed.

(** X13. Moving the king does not cost the castling rights: after the king
    has stepped from its home square to the square in front of it and back
    (two continuation moves), the castling string is the old one and every
    castling move that was offered before is offered again. *)
Theorem king_round_trip_keeps_castling (s : State) (c : color) (w : wing)
    (rest : list string) :
  getProp (pieces s) (homeSquare c) = Some (kingOf c) →
  castleOffered s c w = true →
  castling (playMove (frontSquare c ++ homeSquare c) rest
              (playMove (homeSquare c ++ frontSquare c) rest s))
  = castling s
  ∧ In (castleFile w ++ homeRank c)
       (getPseudoLegalMoves
          (playMove (frontSquare c ++ homeSquare c) rest
             (playMove (homeSquare c ++ frontSquare c) rest s))
          (homeSquare c)).
Proof.
  intros Hking Hoffer.
  set (s1 := playMove (homeSquare c ++ frontSquare c) rest s).
  assert (H1 : pieces s1
               = deleteProp (setProp (pieces s) (frontSquare c)
                                     (getProp (pieces s) (homeSquare c)))
                            (homeSquare c)
               ∧ castling s1 = castling s).
  { unfold s1. rewrite playMove_unfold.
    replace (substring 0 2 (homeSquare c ++ frontSquare c)) with (homeSquare c)
      by (by destruct c).
    replace (substring 2 4 (homeSquare c ++ frontSquare c)) with (frontSquare c)
      by (by destruct c).
    rewrite isCastlingMove_same_file by (by destruct c).
    replace (String.length (homeSquare c ++ frontSquare c) =? 5)%nat with false
      by (by destruct c).
    destruct (afterAnim_fields (homeSquare c) (frontSquare c) rest
                (movePiece (homeSquare c) (frontSquare c) None s))
      as (-> & -> & _).
    done. }
  destruct H1 as [Hp1 Hc1].
  set (s2 := playMove (frontSquare c ++ homeSquare c) rest s1).
  assert (H2 : pieces s2
               = deleteProp (setProp (pieces s1) (homeSquare c)
                                     (getProp (pieces s1) (frontSquare c)))
                            (frontSquare c)
               ∧ castling s2 = castling s1).
  { unfold s2. rewrite playMove_unfold.
    replace (substring 0 2 (frontSquare c ++ homeSquare c)) with (frontSquare c)
      by (by destruct c).
    replace (substring 2 4 (frontSquare c ++ homeSquare c)) with (homeSquare c)
      by (by destruct c).
    rewrite isCastlingMove_same_file by (by destruct c).
    replace (String.length (frontSquare c ++ homeSquare c) =? 5)%nat with false
      by (by destruct c).
    destruct (afterAnim_fields (frontSquare c) (homeSquare c) rest
                (movePiece (frontSquare c) (homeSquare c) None s1))
      as (-> & -> & _).
    done. }
  destruct H2 as [Hp2 Hc2].
  split; [congruence|].
  assert (Hne : frontSquare c ≠ homeSquare c) by (by destruct c).
  assert (Hking2 : getProp (pieces s2) (homeSquare c) = Some (kingOf c)).
  { rewrite Hp2, Hp1. by prop_lookup. }
  assert (Hsame : ∀ sq, sq ≠ homeSquare c → sq ≠ frontSquare c →
                        getProp (pieces s2) sq = getProp (pieces s) sq).
  { intros sq Ha Hb. rewrite Hp2, Hp1. by prop_lookup. }
  assert (Hoffer2 : castleOffered s2 c w = true).
  { unfold castleOffered in *. rewrite Hc2, Hc1.
    apply andb_prop in Hoffer as [Hr Hb]. rewrite Hr. simpl.
    rewrite forallb_forall in Hb |- *. intros f Hf.
    specialize (Hb f Hf). unfold isEmpty in *.
    rewrite Hsame; [done| |]; destruct c, w; simpl in Hf;
      intuition (subst; discriminate). }
  unfold getPseudoLegalMoves. rewrite Hking2.
  replace (String.eqb (kingOf c) "") with false by (by destruct c).
  replace (toUpperCase (kingOf c)) with "K" by (by destruct c).
  cbn [String.eqb Ascii.eqb Bool.eqb].
  change (if String.eqb "K" "P" then _ else _)
    with (castlingMoves s2 (isUpper (kingOf c)) (charAt (homeSquare c) 0)
            (charAt (homeSquare c) 1)
            (addMoves s2 (isUpper (kingOf c)) (indexOf FILES (charAt (homeSquare c) 0))
               (indexOf RANKS (charAt (homeSquare c) 1)) kingOffsets [])).
  apply castlingMoves_In. right. exists c, w.
  repeat split; try done; by destruct c.
Qed.

(** On "r3k2r/8/8/8/8/8/8/R3K2R w KQkq -": after Ke1-e2 and Ke2-e1 the
    rights are still "KQkq" and g1 is generated for the king again. *)
Lemma king_round_trip_keeps_castling_witness :
  castling (playMove "e2e1" [] (playMove "e1e2" [] (boardOfFen castleFen "e1g1")))
  = castling (boardOfFen castleFen "e1g1")
  ∧ In "g1"
       (getPseudoLegalMoves
          (playMove "e2e1" [] (playMove "e1e2" [] (boardOfFen castleFen "e1g1")))
          "e1").
Proof.
  exact (king_round_trip_keeps_castling (boardOfFen castleFen "e1g1") white kingside []
           eq_refl eq_refl).
Defined.

(** ** A solved puzzle and the counters *)

(** X14. A Correct attempt runs to its end like this, unless
    [animateCastling] throws (which takes a castling destination outside the
    board).  The attempt raises [totalAttempts] by one and either returns
    with [animating] raised and one animation callback scheduled, or, when
    the animation function has run the callback at once, with the 150 ms
    timer scheduled already.  Once the callback has run, the move is
    recorded as [lastMove], [animating] is lowered, the puzzle is not yet
    marked solved and the 150 ms timer is the one thing scheduled; the
    timer sets [solved], raises [totalSolved] by one and starts the
    continuation request.  Selection and side to move are as before the
    attempt. *)
Theorem correct_attempt_completes (s : State) (from to : string) :
  o_verdict (attemptMove from to s) = Some Correct →
  o_threw (attemptMove from to s) = false →
  totalAttempts (o_state (attemptMove from to s)) = (totalAttempts s + 1)%Z
  ∧ ((∃ cb, isAnimationDone cb = true
            ∧ o_sched (attemptMove from to s) = [cb]
            ∧ animating (o_state (attemptMove from to s)) = true)
     ∨ o_sched (attemptMove from to s) = [SolvedTimer])
  ∧ o_sched (settle (attemptMove from to s)) = [SolvedTimer]
  ∧ animating (o_state (settle (attemptMove from to s))) = false
  ∧ solved (o_state (settle (attemptMove from to s))) = solved s
  ∧ o_sched (fire SolvedTimer (o_state (settle (attemptMove from to s))))
    = [ContinuationFetch]
  ∧ (solved (o_state (fire SolvedTimer (o_state (settle (attemptMove from to s))))),
     totalSolved
       (o_state (fire SolvedTimer (o_state (settle (attemptMove from to s))))),
     totalAttempts
       (o_state (fire SolvedTimer (o_state (settle (attemptMove from to s))))),
     lastMove (o_state (fire SolvedTimer (o_state (settle (attemptMove from to s))))),
     animating (o_state (fire SolvedTimer (o_state (settle (attemptMove from to s))))),
     selectedSquare
       (o_state (fire SolvedTimer (o_state (settle (attemptMove from to s))))),
     turn (o_state (fire SolvedTimer (o_state (settle (attemptMove from to s))))))
    = (true, (totalSolved s + 1)%Z, (totalAttempts s + 1)%Z, Some (from, to), false,
       selectedSquare s, turn s).
Proof.
  intros Hv Hthrew.
  destruct (attemptMove_judged _ _ _ _ Hv) as [Ha [p Hp]].
  revert Hv Hthrew. rewrite (attemptMove_unfold s p from to Hp Ha). cbv zeta.
  destruct (isCorrect _ _ _);
    [|destruct (animateWrongMove s from to); discriminate]. intros _.
  destruct (isCastlingMove _ _ _).
  - destruct (animateCastling s from to); [| |discriminate]; intros _; simpl;
      rewrite Hp; repeat split; try by right.
    left. eexists. split; [|split; reflexivity]; reflexivity.
  - destruct (animateMove_cases s from to) as [-> | ->]; intros _; simpl;
      rewrite Hp; repeat split; try by right.
    left. eexists. split; [|split; reflexivity]; reflexivity.
Qed.

(** The attempt (e2, e4) on the starting position with best move "e2e4". *)
Lemma correct_attempt_completes_witness :
  totalAttempts (o_state (attemptMove "e2" "e4" (boardOfFen startFen "e2e4"))) = 1%Z
  ∧ o_sched (settle (attemptMove "e2" "e4" (boardOfFen startFen "e2e4")))
    = [SolvedTimer].
Proof.
  destruct (correct_attempt_completes (boardOfFen startFen "e2e4") "e2" "e4"
              eq_refl eq_refl)
    as (H1 & _ & H2 & _).
  exact (conj H1 H2).
Defined.

(** The castle e1-g1 on "8/8/8/8/8/8/8/4K3 w K -": the corner h1 shows no
    rook, so [animateCastling] runs the callback at once; the attempt
    returns with the king on g1, [animating] lowered and the timer
    scheduled. *)
Lemma castle_attempt_without_rook_image :
  o_verdict (attemptMove "e1" "g1" (boardOfFen loneKingFen "e1g1")) = Some Correct
  ∧ o_sched (attemptMove "e1" "g1" (boardOfFen loneKingFen "e1g1")) = [SolvedTimer]
  ∧ animating (o_state (attemptMove "e1" "g1" (boardOfFen loneKingFen "e1g1"))) = false
  ∧ getProp (pieces (o_state (attemptMove "e1" "g1" (boardOfFen loneKingFen "e1g1"))))
            "g1" = Some "K"
  ∧ castling (o_state (attemptMove "e1" "g1" (boardOfFen loneKingFen "e1g1"))) = "".
Proof. vm_compute. repeat split. Qed.

Lemma pendingSolves_app (a b : list callback) :
  pendingSolves (app a b) = (pendingSolves a + pendingSolves b)%Z.
Proof. induction a as [|cb a IH]; simpl; lia. Qed.

Lemma pendingSolves_unschedule (cb : callback) (pending pending' : list callback) :
  unschedule cb pending = Some pending' →
  pendingSolves pending = (leadsToSolved cb + pendingSolves pending')%Z.
Proof.
  revert pending'. induction pending as [|c pending IH]; intros pending' H;
    [discriminate|].
  simpl in H. destruct (decide (c = cb)) as [->|Hne].
  - injection H as <-. reflexivity.
  - destruct (unschedule cb pending) as [p|]; [|discriminate].
    injection H as <-. simpl. rewrite (IH p eq_refl). lia.
Qed.

Lemma attemptMove_balance (s : State) (from to : string) :
  keepsBalance s (attemptMove from to s).
Proof.
  unfold attemptMove, keepsBalance.
  destruct (animating s); [left; done|].
  destruct (puzzle s); [|left; done].
  destruct (isCorrect _ _ _).
  - destruct (isCastlingMove _ _ _).
    + destruct (animateCastling _ _ _); right; simpl; lia.
    + destruct (animateMove _ _ _); right; simpl; lia.
  - destruct (animateWrongMove _ _ _); right; simpl; lia.
Qed.

Lemma selectSquare_balance (s : State) (sq : string) :
  keepsBalance s (selectSquare sq s).
Proof.
  unfold selectSquare.
  repeat match goal with
         | |- context [if ?b then _ else _] => destruct b
         end; try (left; done).
  apply (attemptMove_balance (set_selectedSquare None s)).
Qed.

Lemma onMouseDown_balance (s : State) (sq : option string) :
  keepsBalance s (onMouseDown sq s).
Proof.
  unfold onMouseDown.
  destruct (animating s || solved s); [left; done|].
  destruct sq as [sq|]; [|left; done].
  repeat match goal with
         | |- context [if ?b then _ else _] => destruct b
         end; left; done.
Qed.

Lemma onMouseUp_balance (s : State) (sq : option string) :
  keepsBalance s (onMouseUp sq s).
Proof.
  unfold onMouseUp.
  set (s1 := if truthy (currentHoverSquare s) then set_currentHoverSquare None s else s).
  assert (H1 : totalSolved s1 = totalSolved s ∧ totalAttempts s1 = totalAttempts s)
    by (unfold s1; by destruct (truthy _)).
  destruct H1 as [Hs Ha].
  repeat match goal with
         | |- context [if ?b then _ else _] => destruct b
         end.
  - pose proof (attemptMove_balance
                  (set_selectedSquare None (set_hasDragged false (set_dragging None s1)))
                  (strOf (dragging s1)) (strOf sq)) as H.
    unfold keepsBalance in *. simpl in H. rewrite <- Hs, <- Ha. exact H.
  - pose proof (selectSquare_balance (set_hasDragged false (set_dragging None s1))
                  (strOf (dragging s1))) as H.
    unfold keepsBalance in *. simpl in H. rewrite <- Hs, <- Ha. exact H.
  - pose proof (selectSquare_balance (set_hasDragged false (set_dragging None s1))
                  (strOf sq)) as H.
    unfold keepsBalance in *. simpl in H. rewrite <- Hs, <- Ha. exact H.
  - left. simpl. done.
Qed.

Lemma fire_balance (s : State) (cb : callback) :
  (totalSolved (o_state (fire cb s)) + pendingSolves (o_sched (fire cb s))
   = totalSolved s + leadsToSolved cb)%Z
  ∧ totalAttempts (o_state (fire cb s)) = totalAttempts s
  ∧ (totalSolved s ≤ totalSolved (o_state (fire cb s)))%Z.
Proof.
  assert (Hcastle : ∀ from to rest,
            (totalSolved (o_state (afterAnim from to rest (executeCastling from to s)))
             + pendingSolves (o_sched (afterAnim from to rest (executeCastling from to s)))
             = totalSolved s + 0)%Z
            ∧ totalAttempts (o_state (afterAnim from to rest (executeCastling from to s)))
              = totalAttempts s
            ∧ (totalSolved s
               ≤ totalSolved (o_state (afterAnim from to rest
                                         (executeCastling from to s))))%Z).
  { intros from to rest.
    destruct (afterAnim_fields from to rest (executeCastling from to s))
      as (_ & _ & _ & _ & _ & Hf & ->).
    injection Hf as _ _ -> -> _. destruct rest; simpl; repeat split; lia. }
  assert (Hmove : ∀ from to promo rest,
            (totalSolved (o_state (afterAnim from to rest (movePiece from to promo s)))
             + pendingSolves (o_sched (afterAnim from to rest (movePiece from to promo s)))
             = totalSolved s + 0)%Z
            ∧ totalAttempts (o_state (afterAnim from to rest (movePiece from to promo s)))
              = totalAttempts s
            ∧ (totalSolved s
               ≤ totalSolved (o_state (afterAnim from to rest
                                         (movePiece from to promo s))))%Z).
  { intros from to promo rest.
    destruct (afterAnim_fields from to rest (movePiece from to promo s))
      as (_ & _ & _ & _ & _ & Hf & ->).
    injection Hf as _ _ -> -> _. unfold movePiece.
    destruct rest; simpl; repeat split; lia. }
  destruct cb as [from to|from to best| | | |moves|from to rest|from to promo rest];
    simpl.
  - repeat split; lia.
  - repeat split; lia.
  - repeat split; lia.
  - destruct (puzzle s); simpl; repeat split; lia.
  - repeat split; lia.
  - destruct moves as [|m rest]; simpl; [repeat split; lia|].
    unfold executeMove. destruct (isCastlingMove _ _ _).
    + destruct (animateCastling _ _ _); simpl; try (repeat split; lia).
      apply Hcastle.
    + destruct (animateMove _ _ _); simpl; try (repeat split; lia).
      apply Hmove.
  - apply Hcastle.
  - apply Hmove.
Qed.

Lemma loadContinuation_balance (s : State) (moves : list string) :
  keepsBalance s (loadContinuation moves s).
Proof. destruct moves; left; done. Qed.

Lemma loadPuzzle_counters (p : Puzzle) (s : State) :
  totalSolved (loadPuzzle p s) = totalSolved s
  ∧ totalAttempts (loadPuzzle p s) = totalAttempts s.
Proof. unfold loadPuzzle. by destruct (parseFen (fen p)). Qed.

Lemma step_balance (ev : event) (s s' : State) (pending pending' : list callback) :
  step ev (s, pending) = Some (s', pending') →
  (0 ≤ totalSolved s)%Z →
  (totalSolved s + pendingSolves pending ≤ totalAttempts s)%Z →
  (0 ≤ totalSolved s')%Z
  ∧ (totalSolved s' + pendingSolves pending' ≤ totalAttempts s')%Z.
Proof.
  intros Hstep H0 Hinv. unfold step, commit in Hstep.
  destruct ev as [p|sq|sq|cb|moves].
  - injection Hstep as <- <-. destruct (loadPuzzle_counters p s) as [-> ->]. done.
  - injection Hstep as <- <-. rewrite pendingSolves_app.
    destruct (onMouseDown_balance s sq) as [(-> & -> & ->)|(-> & -> & ?)]; lia.
  - injection Hstep as <- <-. rewrite pendingSolves_app.
    destruct (onMouseUp_balance s sq) as [(-> & -> & ->)|(-> & -> & ?)]; lia.
  - destruct (unschedule cb pending) as [p'|] eqn:E; [|discriminate].
    injection Hstep as <- <-. rewrite pendingSolves_app.
    apply pendingSolves_unschedule in E.
    destruct (fire_balance s cb) as (H1 & -> & H3). lia.
  - destruct (unschedule ContinuationFetch pending) as [p'|] eqn:E; [|discriminate].
    injection Hstep as <- <-. rewrite pendingSolves_app.
    apply pendingSolves_unschedule in E. simpl in E.
    destruct (loadContinuation_balance s moves) as [(-> & -> & ->)|(-> & -> & ?)]; lia.
Qed.

(** X15. Throughout a session of puzzle loads, pointer-downs, pointer-ups,
    animation and timer callbacks and continuation responses, the number of
    solved puzzles never exceeds the number of attempts: if [totalSolved]
    plus the solves that are still under way is at most [totalAttempts]
    before, it is so after, and [totalSolved] stays non-negative. *)
Theorem solved_never_exceeds_attempts (evs : list event) (s s' : State)
    (pending pending' : list callback) :
  (0 ≤ totalSolved s)%Z →
  (totalSolved s + pendingSolves pending ≤ totalAttempts s)%Z →
  run evs (s, pending) = Some (s', pending') →
  (0 ≤ totalSolved s' ≤ totalAttempts s')%Z
  ∧ (totalSolved s' + pendingSolves pending' ≤ totalAttempts s')%Z.
Proof.
  assert (Hpos : ∀ p, (0 ≤ pendingSolves p)%Z).
  { induction p as [|cb p IH]; simpl; [lia|]. destruct cb; simpl; lia. }
  revert s pending. induction evs as [|ev evs IH]; intros s pending H0 Hinv Hrun.
  - simpl in Hrun. injection Hrun as <- <-. specialize (Hpos pending). lia.
  - cbn [run] in Hrun.
    destruct (step ev (s, pending)) as [[s1 p1]|] eqn:E; [|discriminate].
    destruct (step_balance ev s s1 pending p1 E H0 Hinv) as [H0' Hinv'].
    by apply (IH s1 p1).
Qed.

(** The session [solvedThenClicked] ends with one attempt and one solve. *)
Lemma solved_never_exceeds_attempts_witness :
  (0 ≤ totalSolved (stateAfter solvedThenClicked)
   ≤ totalAttempts (stateAfter solvedThenClicked))%Z.
Proof.
  destruct (run solvedThenClicked (initialState, [])) as [[s' pending']|] eqn:E;
    [|vm_compute in E; discriminate E].
  assert (Hs : stateAfter solvedThenClicked = s')
    by (unfold stateAfter; by rewrite E).
  rewrite Hs.
  exact (proj1 (solved_never_exceeds_attempts solvedThenClicked initialState s' [] pending'
                  ltac:(simpl; lia) ltac:(simpl; lia) E)).
Defined.

(** X16. With the best move in lower case, every attempt between two
    squares that is judged Correct starts on the square that [showHint]
    points at. *)
Theorem hint_is_origin_of_correct_attempt (s : State) (p : Puzzle) (from to : string) :
  puzzle s = Some p →
  toLowerCase (best_move p) = best_move p →
  isSquare from = true → isSquare to = true →
  o_verdict (attemptMove from to s) = Some Correct →
  showHint s = Some from.
Proof.
  intros Hp Hlow Hf Ht Hv.
  destruct (attemptMove_judged _ _ _ _ Hv) as [Ha _].
  rewrite (attemptMove_verdict s p from to Hp Ha) in Hv.
  destruct (isCorrect (best_move p) from to) eqn:Ec; [|discriminate].
  apply square_shape in Hf as [Hlf Hcf]. apply square_shape in Ht as [Hlt Hct].
  assert (Hmove : toLowerCase (from ++ to) = from ++ to)
    by (unfold toLowerCase in *; rewrite mapChars_append, Hcf, Hct; reflexivity).
  unfold isCorrect in Ec. rewrite Hlow, Hmove in Ec.
  unfold showHint. rewrite Hp. f_equal. unfold substring. simpl Nat.sub.
  rewrite <- Hlf at 1.
  apply orb_prop in Ec as [Ec|Ec].
  - apply String.eqb_eq in Ec. rewrite Ec. apply substring_0_append.
  - apply andb_prop in Ec as [Ec _]. apply startsWith_append in Ec.
    by apply startsWith_substring.
Qed.

(** With best move "e2e4" the hint names e2, the origin of the Correct
    attempt (e2, e4). *)
Lemma hint_is_origin_of_correct_attempt_witness :
  showHint (boardOfFen startFen "e2e4") = Some "e2".
Proof.
  exact (hint_is_origin_of_correct_attempt (boardOfFen startFen "e2e4")
           {| fen := startFen; best_move := "e2e4" |} "e2" "e4"
           eq_refl eq_refl eq_refl eq_refl eq_refl).
Defined.

(** ** Playing a continuation *)









(** The castling move "e1g9" on "r3k2r/8/8/8/8/8/8/R3K2R w KQkq -": king
    and rook show their images, g9 has no element, [animateCastling] throws;
    [executeMove] applies nothing and schedules nothing, and [animating]
    stays as [playContinuation] has set it. *)
Lemma continuation_castle_off_board_stops :
  run [Continuation ["e1g9"]; Timer (SleepDone ["e1g9"])]
      (boardOfFen castleFen "e1g1", [ContinuationFetch])
  = Some (set_animating true (boardOfFen castleFen "e1g1"), []).
Proof. vm_compute. reflexivity. Qed.

(** ** The pointer handlers *)

Lemma pointerDown_session (square : option string) (x y : Z) (p : Pointer) :
  session (pointerDown square x y p) = o_state (onMouseDown square (session p)).
Proof.
  unfold pointerDown, onMouseDown.
  destruct (animating (session p) || solved (session p)); [done|].
  destruct square as [sq|]; [|done]. simpl.
  destruct (String.eqb sq ""); [done|].
  by destruct (isOwnPiece (session p) sq).
Qed.

Lemma truthy_strOf (v : option string) :
  truthy v = true → v = Some (strOf v) ∧ strOf v ≠ "".
Proof.
  destruct v as [q|]; [|discriminate]. simpl.
  destruct (String.eqb_spec q ""); [discriminate|done].
Qed.

Lemma isOwnPiece_frame (s s' : State) (sq : string) :
  pieces s' = pieces s → turn s' = turn s → isOwnPiece s' sq = isOwnPiece s sq.
Proof. intros Hp Ht. unfold isOwnPiece. by rewrite Hp, Ht. Qed.

(** An attempt that is judged counts, and leaves the board as it was
    unless the animation function has run the callback of a Correct attempt
    at once, after which the 150 ms timer is what is scheduled. *)
Lemma attemptMove_counts (s : State) (p : Puzzle) (from to : string) :
  puzzle s = Some p → animating s = false →
  totalAttempts (o_state (attemptMove from to s)) = (totalAttempts s + 1)%Z
  ∧ (board (o_state (attemptMove from to s)) = board s
     ∨ o_sched (attemptMove from to s) = [SolvedTimer]).
Proof.
  intros Hp Ha. rewrite (attemptMove_unfold s p from to Hp Ha). cbv zeta.
  destruct (isCorrect _ _ _).
  - destruct (isCastlingMove _ _ _).
    + destruct (animateCastling s from to); simpl; auto.
    + destruct (animateMove s from to); simpl; auto.
  - destruct (animateWrongMove s from to); simpl; auto.
Qed.

Lemma attemptMove_board (s : State) (from to : string) :
  board (o_state (attemptMove from to s)) = board s
  ∨ o_sched (attemptMove from to s) = [SolvedTimer].
Proof.
  unfold attemptMove.
  destruct (animating s); [by left|]. destruct (puzzle s); [|by left].
  destruct (isCorrect _ _ _).
  - destruct (isCastlingMove _ _ _).
    + destruct (animateCastling _ _ _); simpl; auto.
    + destruct (animateMove _ _ _); simpl; auto.
  - destruct (animateWrongMove _ _ _); simpl; auto.
Qed.

Lemma attemptMove_frame (s : State) (from to : string) :
  untouched (o_state (attemptMove from to s)) = untouched s
  ∧ selectedSquare (o_state (attemptMove from to s)) = selectedSquare s
  ∧ dragging (o_state (attemptMove from to s)) = dragging s
  ∧ hasDragged (o_state (attemptMove from to s)) = hasDragged s.
Proof.
  unfold attemptMove.
  destruct (animating s); [done|]. destruct (puzzle s) eqn:E; [|done].
  destruct (isCorrect _ _ _).
  - destruct (isCastlingMove _ _ _).
    + destruct (animateCastling _ _ _); unfold untouched; simpl; by rewrite ?E.
    + destruct (animateMove _ _ _); unfold untouched; simpl; by rewrite ?E.
  - destruct (animateWrongMove _ _ _); unfold untouched; simpl; by rewrite ?E.
Qed.

(** X18. Pressing on an own piece while the session is idle and then moving
    more than 3 pixels away starts a drag: the piece is the drag origin and
    the selection, [hasDragged] is set, and the board is as it was. *)
Theorem press_and_move_starts_drag (p : Pointer) (sq : string) (x0 y0 x y : Z)
    (pieceEl : bool) (hover : option string) :
  idle (session p) →
  sq ≠ "" →
  isOwnPiece (session p) sq = true →
  beyondThreshold (pointerDown (Some sq) x0 y0 p) x y = true →
  dragging (session (pointerMove x y pieceEl hover (pointerDown (Some sq) x0 y0 p)))
  = Some sq
  ∧ hasDragged (session (pointerMove x y pieceEl hover (pointerDown (Some sq) x0 y0 p)))
    = true
  ∧ selectedSquare
      (session (pointerMove x y pieceEl hover (pointerDown (Some sq) x0 y0 p)))
    = Some sq
  ∧ board (session (pointerMove x y pieceEl hover (pointerDown (Some sq) x0 y0 p)))
    = board (session p).
Proof.
  intros (Ha & Hs & Hd) Hne Hown Hfar.
  assert (Hdown : pointerDown (Some sq) x0 y0 p
                  = {| session := set_hasDragged false (set_dragging (Some sq) (session p));
                       dragStartX := x0; dragStartY := y0;
                       dragElement := dragElement p |}).
  { unfold pointerDown. rewrite Ha, Hs. simpl.
    apply String.eqb_neq in Hne. rewrite Hne. simpl. by rewrite Hown. }
  rewrite Hdown in *. unfold beyondThreshold in Hfar. simpl in Hfar.
  unfold pointerMove. simpl.
  apply String.eqb_neq in Hne. rewrite Hne. simpl. rewrite Hfar. simpl.
  destruct (if pieceEl then true else dragElement p); simpl; [|done].
  by destruct (negb _).
Qed.

(** Press on e2 at (100, 100) on the starting position and move to
    (104, 100). *)
Lemma press_and_move_starts_drag_witness :
  dragging (session (pointerMove 104 100 true (Some "e3")
                       (pointerDown (Some "e2") 100 100
                          (startPointer (boardOfFen startFen "e2e4")))))
  = Some "e2"
  ∧ hasDragged (session (pointerMove 104 100 true (Some "e3")
                           (pointerDown (Some "e2") 100 100
                              (startPointer (boardOfFen startFen "e2e4")))))
    = true.
Proof.
  destruct (press_and_move_starts_drag (startPointer (boardOfFen startFen "e2e4"))
              "e2" 100 100 104 100 true (Some "e3")
              (conj eq_refl (conj eq_refl eq_refl)) ltac:(discriminate) eq_refl eq_refl)
    as (H1 & H2 & _).
  exact (conj H1 H2).
Defined.

(** X19. Releasing a drag over a square other than its origin judges the
    attempt (origin, drop square) -- whether or not the puzzle is already
    solved -- and ends the drag with the selection cleared.  When the
    handler returns the board is as it was, unless the animation function has
    run the callback of the Correct attempt at once: then the 150 ms timer is
    what the handler leaves scheduled. *)
Theorem drop_judges_attempt (p : Pointer) (pz : Puzzle) (sq d : string) :
  dragging (session p) = Some sq → sq ≠ "" →
  hasDragged (session p) = true →
  animating (session p) = false →
  puzzle (session p) = Some pz →
  d ≠ "" → d ≠ sq →
  o_verdict (pointerUp (Some d) p)
  = Some (if isCorrect (best_move pz) sq d then Correct else Incorrect)
  ∧ totalAttempts (o_state (pointerUp (Some d) p)) = (totalAttempts (session p) + 1)%Z
  ∧ selectedSquare (o_state (pointerUp (Some d) p)) = None
  ∧ dragging (o_state (pointerUp (Some d) p)) = None
  ∧ hasDragged (o_state (pointerUp (Some d) p)) = false
  ∧ (board (o_state (pointerUp (Some d) p)) = board (session p)
     ∨ o_sched (pointerUp (Some d) p) = [SolvedTimer]).
Proof.
  intros Hdrag Hsq Hhad Ha Hp Hd Hne.
  unfold pointerUp, onMouseUp.
  set (s1 := if truthy (currentHoverSquare (session p))
             then set_currentHoverSquare None (session p) else session p).
  assert (H1 : dragging s1 = Some sq ∧ hasDragged s1 = true ∧ animating s1 = false
               ∧ puzzle s1 = Some pz ∧ board s1 = board (session p)
               ∧ totalAttempts s1 = totalAttempts (session p))
    by (unfold s1; by destruct (truthy _)).
  destruct H1 as (-> & -> & Ha1 & Hp1 & Hb1 & Ht1).
  apply String.eqb_neq in Hsq, Hd, Hne. simpl. rewrite Hsq, Hd, Hne. simpl.
  set (s2 := set_selectedSquare None (set_hasDragged false (set_dragging None s1))).
  destruct (attemptMove_frame s2 sq d) as (_ & -> & -> & ->).
  destruct (attemptMove_counts s2 pz sq d Hp1 Ha1) as [-> Hboard].
  rewrite (attemptMove_verdict s2 pz sq d Hp1 Ha1), <- Hb1, <- Ht1.
  done.
Qed.

(** The drag of the pawn from e2, released over e4, is judged Correct. *)
Lemma drop_judges_attempt_witness :
  o_verdict
    (pointerUp (Some "e4")
       (pointerMove 104 100 true (Some "e3")
          (pointerDown (Some "e2") 100 100 (startPointer (boardOfFen startFen "e2e4")))))
  = Some (if isCorrect "e2e4" "e2" "e4" then Correct else Incorrect).
Proof.
  exact (proj1 (drop_judges_attempt
                  (pointerMove 104 100 true (Some "e3")
                     (pointerDown (Some "e2") 100 100
                        (startPointer (boardOfFen startFen "e2e4"))))
                  {| fen := startFen; best_move := "e2e4" |} "e2" "e4"
                  eq_refl ltac:(discriminate) eq_refl eq_refl eq_refl
                  ltac:(discriminate) ltac:(discriminate))).
Defined.

(** X20. Releasing a drag over its origin, or outside the board, judges
    nothing: the drag ends, the selection is cleared, and board and counters
    are as they were. *)
Theorem drop_on_origin_cancels (p : Pointer) (sq : string) (d : option string) :
  dragging (session p) = Some sq → sq ≠ "" →
  hasDragged (session p) = true →
  d = Some sq ∨ d = None →
  o_verdict (pointerUp d p) = None
  ∧ o_sched (pointerUp d p) = []
  ∧ selectedSquare (o_state (pointerUp d p)) = None
  ∧ dragging (o_state (pointerUp d p)) = None
  ∧ hasDragged (o_state (pointerUp d p)) = false
  ∧ board (o_state (pointerUp d p)) = board (session p)
  ∧ totalAttempts (o_state (pointerUp d p)) = totalAttempts (session p).
Proof.
  intros Hdrag Hsq Hhad Hd.
  unfold pointerUp, onMouseUp.
  set (s1 := if truthy (currentHoverSquare (session p))
             then set_currentHoverSquare None (session p) else session p).
  assert (H1 : dragging s1 = Some sq ∧ hasDragged s1 = true
               ∧ board s1 = board (session p)
               ∧ totalAttempts s1 = totalAttempts (session p))
    by (unfold s1; by destruct (truthy _)).
  destruct H1 as (-> & -> & Hb1 & Ht1).
  apply String.eqb_neq in Hsq. simpl. rewrite Hsq. simpl.
  destruct Hd as [-> | ->]; simpl.
  - rewrite Hsq, String.eqb_refl. simpl. by rewrite <- Hb1, <- Ht1.
  - by rewrite <- Hb1, <- Ht1.
Qed.

(** The drag of the pawn from e2, released over e2 again. *)
Lemma drop_on_origin_cancels_witness :
  o_verdict
    (pointerUp (Some "e2")
       (pointerMove 104 100 true (Some "e3")
          (pointerDown (Some "e2") 100 100 (startPointer (boardOfFen startFen "e2e4")))))
  = None.
Proof.
  exact (proj1 (drop_on_origin_cancels
                  (pointerMove 104 100 true (Some "e3")
                     (pointerDown (Some "e2") 100 100
                        (startPointer (boardOfFen startFen "e2e4"))))
                  "e2" (Some "e2") eq_refl ltac:(discriminate) eq_refl
                  (or_introl eq_refl))).
Defined.

Ltac frame_cases :=
  simpl; repeat split; try done;
  first [ by left
        | by (right; split; [done|left])
        | by (right; split; [done|right; split])
        | idtac ].

Lemma selectSquare_frame (s : State) (sq : string) :
  untouched (o_state (selectSquare sq s)) = untouched s
  ∧ dragging (o_state (selectSquare sq s)) = dragging s
  ∧ hasDragged (o_state (selectSquare sq s)) = hasDragged s
  ∧ (selectedSquare (o_state (selectSquare sq s)) = None
     ∨ (pieces (o_state (selectSquare sq s)) = pieces s
        ∧ (selectedSquare (o_state (selectSquare sq s)) = selectedSquare s
           ∨ (selectedSquare (o_state (selectSquare sq s)) = Some sq
              ∧ isOwnPiece s sq = true)))).
Proof.
  unfold selectSquare.
  destruct (animating s || solved s); [frame_cases|].
  destruct (negb (truthy (selectedSquare s))).
  - destruct (truthy (getProp (pieces s) sq) && isOwnPiece s sq) eqn:E; [|frame_cases].
    apply andb_prop in E as [_ E]. frame_cases.
  - destruct (strictEq (Some sq) (selectedSquare s)); [frame_cases|].
    destruct (truthy (getProp (pieces s) sq) && isOwnPiece s sq) eqn:E.
    + apply andb_prop in E as [_ E]. frame_cases.
    + destruct (attemptMove_frame (set_selectedSquare None s)
                  (strOf (selectedSquare s)) sq) as (H1 & H2 & H3 & H4).
      rewrite H1, H2, H3, H4. frame_cases.
Qed.

Lemma onMouseUp_frame (s : State) (d : option string) :
  untouched (o_state (onMouseUp d s)) = untouched s
  ∧ dragging (o_state (onMouseUp d s)) = None
  ∧ hasDragged (o_state (onMouseUp d s)) = false
  ∧ (selectedSquare (o_state (onMouseUp d s)) = None
     ∨ (pieces (o_state (onMouseUp d s)) = pieces s
        ∧ (selectedSquare (o_state (onMouseUp d s)) = selectedSquare s
           ∨ ∃ q, selectedSquare (o_state (onMouseUp d s)) = Some q
                  ∧ isOwnPiece s q = true))).
Proof.
  unfold onMouseUp.
  set (s1 := if truthy (currentHoverSquare s) then set_currentHoverSquare None s else s).
  assert (H1 : untouched s1 = untouched s ∧ selectedSquare s1 = selectedSquare s
               ∧ pieces s1 = pieces s ∧ turn s1 = turn s)
    by (unfold s1; by destruct (truthy _)).
  destruct H1 as (Hu & Hsel & Hp & Ht).
  repeat match goal with
         | |- context [if ?b then _ else _] => destruct b
         end.
  - destruct (attemptMove_frame
                (set_selectedSquare None (set_hasDragged false (set_dragging None s1)))
                (strOf (dragging s1)) (strOf d)) as (H1 & H2 & H3 & H4).
    rewrite H1, H2, H3, H4. simpl. rewrite <- Hu. frame_cases.
  - destruct (selectSquare_frame (set_hasDragged false (set_dragging None s1))
                (strOf (dragging s1))) as (H1 & H2 & H3 & H4).
    rewrite H1, H2, H3. simpl. rewrite <- Hu.
    repeat split; try done.
    destruct H4 as [H4|[H4p [H4|[H4 Hown]]]]; [by left| |].
    + right. simpl in H4p, H4. split; [congruence|left; congruence].
    + right. simpl in H4p. split; [congruence|]. right. eexists. split; [exact H4|].
      rewrite <- Hown. symmetry. by apply isOwnPiece_frame.
  - destruct (selectSquare_frame (set_hasDragged false (set_dragging None s1))
                (strOf d)) as (H1 & H2 & H3 & H4).
    rewrite H1, H2, H3. simpl. rewrite <- Hu.
    repeat split; try done.
    destruct H4 as [H4|[H4p [H4|[H4 Hown]]]]; [by left| |].
    + right. simpl in H4p, H4. split; [congruence|left; congruence].
    + right. simpl in H4p. split; [congruence|]. right. eexists. split; [exact H4|].
      rewrite <- Hown. symmetry. by apply isOwnPiece_frame.
  - simpl. rewrite <- Hu. frame_cases.
Qed.

Lemma selectSquare_board (s : State) (sq : string) :
  board (o_state (selectSquare sq s)) = board s
  ∨ o_sched (selectSquare sq s) = [SolvedTimer].
Proof.
  unfold selectSquare.
  repeat match goal with
         | |- context [if ?b then _ else _] => destruct b
         end; try by left.
  apply (attemptMove_board (set_selectedSquare None s)).
Qed.

Lemma onMouseUp_board (s : State) (d : option string) :
  board (o_state (onMouseUp d s)) = board s
  ∨ o_sched (onMouseUp d s) = [SolvedTimer].
Proof.
  unfold onMouseUp.
  set (s1 := if truthy (currentHoverSquare s) then set_currentHoverSquare None s else s).
  assert (Hb : board s1 = board s) by (unfold s1; by destruct (truthy _)).
  rewrite <- Hb.
  repeat match goal with
         | |- context [if ?b then _ else _] => destruct b
         end.
  - apply (attemptMove_board
             (set_selectedSquare None (set_hasDragged false (set_dragging None s1)))).
  - apply (selectSquare_board (set_hasDragged false (set_dragging None s1))).
  - apply (selectSquare_board (set_hasDragged false (set_dragging None s1))).
  - by left.
Qed.

(** Presses and moves leave the board alone. *)
Lemma pointerStep_board (e : pointerEvent) (p : Pointer) :
  match e with
  | Release d =>
      board (session (pointerStep e p)) = board (session p)
      ∨ o_sched (pointerUp d p) = [SolvedTimer]
  | _ => board (session (pointerStep e p)) = board (session p)
  end.
Proof.
  destruct e as [sq x y|x y pieceEl hover|d]; simpl.
  - unfold pointerDown.
    repeat match goal with
           | |- context [if ?b then _ else _] => destruct b
           end; reflexivity.
  - unfold pointerMove.
    destruct (negb (truthy (dragging (session p)))); [done|].
    set (p1 := if negb (hasDragged (session p)) && _ then _ else p).
    assert (H1 : board (session p1) = board (session p))
      by (unfold p1; by destruct (negb _ && _)).
    rewrite <- H1.
    repeat match goal with
           | |- context [if ?b then _ else _] => destruct b
           end; reflexivity.
  - apply onMouseUp_board.
Qed.

Lemma pointerStep_frame (e : pointerEvent) (p : Pointer) :
  untouched (session (pointerStep e p)) = untouched (session p)
  ∧ (selectionOnOwnPieces (session p) →
     selectionOnOwnPieces (session (pointerStep e p))).
Proof.
  assert (Hinv : ∀ s s' : State,
            turn s' = turn s →
            selectionOnOwnPieces s →
            (selectedSquare s' = None
             ∨ (pieces s' = pieces s
                ∧ (selectedSquare s' = selectedSquare s
                   ∨ ∃ q, selectedSquare s' = Some q ∧ isOwnPiece s q = true))) →
            (dragging s' = None
             ∨ (pieces s' = pieces s
                ∧ (dragging s' = dragging s
                   ∨ ∃ q, dragging s' = Some q ∧ isOwnPiece s q = true))) →
            selectionOnOwnPieces s').
  { intros s s' Ht [Hsel Hdrag] Hs Hd. split; intros q Hq Hne.
    - destruct Hs as [Hs|[Hp Hs]]; [congruence|].
      rewrite (isOwnPiece_frame s s' q Hp Ht).
      destruct Hs as [Hs|(q' & Hs & Hown)]; [|congruence].
      apply Hsel; congruence.
    - destruct Hd as [Hd|[Hp Hd]]; [congruence|].
      rewrite (isOwnPiece_frame s s' q Hp Ht).
      destruct Hd as [Hd|(q' & Hd & Hown)]; [|congruence].
      apply Hdrag; congruence. }
  destruct e as [sq x y|x y pieceEl hover|d]; simpl.
  - unfold pointerDown.
    destruct (animating (session p) || solved (session p)); [done|].
    destruct (negb (truthy sq)) eqn:Etr; [done|].
    destruct (negb (isOwnPiece (session p) (strOf sq))) eqn:Eown; [done|].
    split; [done|]. intros Hi. apply (Hinv (session p)); simpl; try done;
      [by auto|].
    right. split; [done|]. right. apply negb_false_iff in Etr, Eown.
    destruct (truthy_strOf sq Etr) as [-> _]. eauto.
  - unfold pointerMove.
    destruct (negb (truthy (dragging (session p)))) eqn:Etr; [done|].
    apply negb_false_iff in Etr. destruct (truthy_strOf _ Etr) as [Hdr Hne].
    set (p1 := if negb (hasDragged (session p)) && _ then _ else p).
    assert (H1 : untouched (session p1) = untouched (session p)
                 ∧ pieces (session p1) = pieces (session p)
                 ∧ dragging (session p1) = dragging (session p)
                 ∧ (selectedSquare (session p1) = selectedSquare (session p)
                    ∨ selectedSquare (session p1) = dragging (session p))).
    { unfold p1. destruct (negb _ && _); simpl; by auto. }
    destruct H1 as (Hu & Hpc & Hd1 & Hs1).
    assert (H2 : ∀ q : Pointer,
              untouched (session q) = untouched (session p1)
              → pieces (session q) = pieces (session p1)
              → dragging (session q) = dragging (session p1)
              → selectedSquare (session q) = selectedSquare (session p1)
              → untouched (session q) = untouched (session p)
                ∧ (selectionOnOwnPieces (session p) → selectionOnOwnPieces (session q))).
    { intros q Hq1 Hq0 Hq2 Hq3. split; [congruence|]. intros Hi.
      assert (Htt : turn (session q) = turn (session p)).
      { rewrite Hu in Hq1. exact (f_equal (λ t, t.1.1.1) Hq1). }
      apply (Hinv (session p)); try done.
      - right. split; [congruence|].
        destruct Hs1 as [Hs1|Hs1]; [left; congruence|].
        right. exists (strOf (dragging (session p))). split; [congruence|].
        destruct Hi as [_ Hi]. by apply Hi.
      - right. split; [congruence|]. left. congruence. }
    destruct (hasDragged (session p1) && dragElement p1); [|by apply H2].
    destruct (negb (strictEq hover (currentHoverSquare (session p1))));
      apply H2; reflexivity.
  - unfold pointerUp.
    destruct (onMouseUp_frame (session p) d) as (Hu & Hd & _ & Hs).
    split; [done|]. intros Hi.
    apply (Hinv (session p)); try done; [|by left].
    exact (f_equal (λ t, t.1.1.1) Hu).
Qed.

(** X21. Pointer events alone never change the side to move, the puzzle,
    the solved flag or the number of solved puzzles: whatever a sequence of
    presses, moves and releases does, these are as before.  Pieces,
    castling rights and [lastMove] are as before too, as long as no release
    of the sequence has come back with the 150 ms timer scheduled, that is,
    as long as no animation function has run the callback of a Correct
    attempt at once. *)
Theorem pointer_events_frame (es : list pointerEvent) (p : Pointer) :
  turn (session (pointerRun es p)) = turn (session p)
  ∧ puzzle (session (pointerRun es p)) = puzzle (session p)
  ∧ solved (session (pointerRun es p)) = solved (session p)
  ∧ totalSolved (session (pointerRun es p)) = totalSolved (session p)
  ∧ (Forall (λ o, o_sched o ≠ [SolvedTimer]) (releases es p) →
     board (session (pointerRun es p)) = board (session p)).
Proof.
  assert (H : untouched (session (pointerRun es p)) = untouched (session p)).
  { unfold pointerRun. revert p. induction es as [|e es IH]; intros p; [done|].
    simpl. rewrite IH. apply pointerStep_frame. }
  unfold untouched in H.
  split; [exact (f_equal (λ t, t.1.1.1) H)|].
  split; [exact (f_equal (λ t, t.1.1.2) H)|].
  split; [exact (f_equal (λ t, t.1.2) H)|].
  split; [exact (f_equal (λ t, t.2) H)|].
  clear H. unfold pointerRun. revert p.
  induction es as [|e es IH]; intros p Hall; [done|].
  cbn [releases] in Hall. apply Forall_app in Hall as [He Hes].
  cbn [fold_left]. rewrite (IH _ Hes).
  pose proof (pointerStep_board e p) as Hstep.
  destruct e as [sq x y|x y pieceEl hover|d]; try exact Hstep.
  destruct Hstep as [Hstep|Hstep]; [exact Hstep|].
  apply Forall_cons in He as [He _]. by destruct He.
Qed.

(** The drag of the pawn from e2 to e4 on the starting position: the pawn
    shows its image, the animation starts, and the board is as before when
    the release has returned. *)
Lemma pointer_events_frame_witness :
  board (session (pointerRun
                    [Press (Some "e2") 100 100; Move 100 60 true (Some "e4");
                     Release (Some "e4")]
                    (startPointer (boardOfFen startFen "e2e4"))))
  = board (boardOfFen startFen "e2e4").
Proof.
  apply (pointer_events_frame
           [Press (Some "e2") 100 100; Move 100 60 true (Some "e4"); Release (Some "e4")]
           (startPointer (boardOfFen startFen "e2e4"))).
  apply Forall_cons_2; [|apply Forall_nil_2].
  intros H. vm_compute in H. discriminate H.
Defined.

(** The drag of the king from e1 to g1 on "8/8/8/8/8/8/8/4K3 w K -" with
    best move "e1g1": the corner shows no rook, [animateCastling] runs the
    callback inside the release, and when the release returns the king
    stands on g1 and the castling rights are gone. *)
Lemma release_castles_without_rook_image :
  getProp (pieces (session (pointerRun
                              [Press (Some "e1") 100 100;
                               Move 140 100 true (Some "g1");
                               Release (Some "g1")]
                              (startPointer (boardOfFen loneKingFen "e1g1")))))
          "g1" = Some "K"
  ∧ castling (session (pointerRun
                         [Press (Some "e1") 100 100;
                          Move 140 100 true (Some "g1");
                          Release (Some "g1")]
                         (startPointer (boardOfFen loneKingFen "e1g1")))) = ""
  ∧ turn (session (pointerRun
                     [Press (Some "e1") 100 100;
                      Move 140 100 true (Some "g1");
                      Release (Some "g1")]
                     (startPointer (boardOfFen loneKingFen "e1g1")))) = white.
Proof. vm_compute. repeat split. Qed.

(** X22. Pointer events keep the selection and the drag origin on own
    pieces: if both, when set, name squares that hold a piece of the side to
    move, the same is true after any sequence of presses, moves and
    releases. *)
Theorem pointer_events_select_own_pieces (es : list pointerEvent) (p : Pointer) :
  selectionOnOwnPieces (session p) →
  selectionOnOwnPieces (session (pointerRun es p)).
Proof.
  unfold pointerRun. revert p. induction es as [|e es IH]; intros p Hi; [done|].
  simpl. apply IH. by apply pointerStep_frame.
Qed.

(** On the starting position with the pawn on d2 selected, a click on the
    pawn on e2 moves the selection to e2, again an own piece. *)
Lemma pointer_events_select_own_pieces_witness :
  selectedSquare
    (session (pointerRun [Press (Some "e2") 100 100; Release (Some "e2")]
                (startPointer (set_selectedSquare (Some "d2")
                                 (boardOfFen startFen "e2e4")))))
  = Some "e2"
  ∧ selectionOnOwnPieces
      (session (pointerRun [Press (Some "e2") 100 100; Release (Some "e2")]
                  (startPointer (set_selectedSquare (Some "d2")
                                   (boardOfFen startFen "e2e4"))))).
Proof.
  split; [reflexivity|].
  apply (pointer_events_select_own_pieces
           [Press (Some "e2") 100 100; Release (Some "e2")]
           (startPointer (set_selectedSquare (Some "d2") (boardOfFen startFen "e2e4")))).
  split; intros q Hq Hne.
  - injection Hq as <-. reflexivity.
  - discriminate Hq.
Defined.

Lemma pointerMove_jitter (p : Pointer) (x y : Z) (pieceEl : bool)
    (hover : option string) :
  hasDragged (session p) = false →
  beyondThreshold p x y = false →
  pointerMove x y pieceEl hover p = p.
Proof.
  intros Hh Hnear. unfold pointerMove.
  destruct (negb (truthy (dragging (session p)))); [done|].
  unfold beyondThreshold in Hnear. rewrite Hh, Hnear. simpl. by rewrite Hh.
Qed.

Lemma pointerRun_jitter (p : Pointer) (es : list pointerEvent) :
  hasDragged (session p) = false → jitter p es → pointerRun es p = p.
Proof.
  intros Hh Hj. unfold pointerRun. induction Hj as [|e es He Hes IH]; [done|].
  simpl. destruct e as [| x y pieceEl hover |]; [done| |done].
  simpl. by rewrite pointerMove_jitter.
Qed.

(** X23. A click on an own piece -- a press, pointer moves that stay within
    3 pixels of it, and a release anywhere -- judges nothing and toggles the
    selection: the piece becomes the selection, unless it was the selection
    already, in which case nothing is selected afterwards. *)
Theorem click_on_own_piece (p : Pointer) (sq : string) (x0 y0 : Z)
    (moves : list pointerEvent) (d : option string) :
  idle (session p) →
  sq ≠ "" →
  isOwnPiece (session p) sq = true →
  jitter (pointerDown (Some sq) x0 y0 p) moves →
  o_verdict (pointerUp d (pointerRun moves (pointerDown (Some sq) x0 y0 p))) = None
  ∧ o_sched (pointerUp d (pointerRun moves (pointerDown (Some sq) x0 y0 p))) = []
  ∧ selectedSquare
      (o_state (pointerUp d (pointerRun moves (pointerDown (Some sq) x0 y0 p))))
    = (if strictEq (Some sq) (selectedSquare (session p)) then None else Some sq)
  ∧ dragging (o_state (pointerUp d (pointerRun moves (pointerDown (Some sq) x0 y0 p))))
    = None
  ∧ board (o_state (pointerUp d (pointerRun moves (pointerDown (Some sq) x0 y0 p))))
    = board (session p)
  ∧ totalAttempts
      (o_state (pointerUp d (pointerRun moves (pointerDown (Some sq) x0 y0 p))))
    = totalAttempts (session p).
Proof.
  intros (Ha & Hs & Hd) Hne Hown Hj.
  assert (Hdown : pointerDown (Some sq) x0 y0 p
                  = {| session := set_hasDragged false (set_dragging (Some sq) (session p));
                       dragStartX := x0; dragStartY := y0;
                       dragElement := dragElement p |}).
  { unfold pointerDown. rewrite Ha, Hs. simpl.
    apply String.eqb_neq in Hne. rewrite Hne. simpl. by rewrite Hown. }
  rewrite pointerRun_jitter; [|by rewrite Hdown|done].
  rewrite Hdown. unfold pointerUp, onMouseUp. simpl.
  set (s1 := if truthy (currentHoverSquare (session p))
             then set_currentHoverSquare None
                    (set_hasDragged false (set_dragging (Some sq) (session p)))
             else set_hasDragged false (set_dragging (Some sq) (session p))).
  assert (H1 : dragging s1 = Some sq ∧ hasDragged s1 = false
               ∧ animating s1 = false ∧ solved s1 = false
               ∧ pieces s1 = pieces (session p) ∧ turn s1 = turn (session p)
               ∧ selectedSquare s1 = selectedSquare (session p)
               ∧ board s1 = board (session p)
               ∧ totalAttempts s1 = totalAttempts (session p))
    by (unfold s1; by destruct (truthy _)).
  destruct H1 as (-> & -> & Ha1 & Hs1 & Hp1 & Ht1 & Hsel1 & Hb1 & Hat1).
  apply String.eqb_neq in Hne. simpl. rewrite Hne. simpl.
  unfold selectSquare. simpl. rewrite Ha1, Hs1, Hsel1. simpl.
  assert (Hown1 : isOwnPiece (set_hasDragged false (set_dragging None s1)) sq = true).
  { rewrite <- Hown. by apply isOwnPiece_frame. }
  assert (Htp : truthy (getProp (pieces s1) sq) = true).
  { unfold isOwnPiece in Hown. rewrite Hp1.
    by destruct (truthy (getProp (pieces (session p)) sq)). }
  rewrite Htp, Hown1. simpl.
  destruct (selectedSquare (session p)) as [q|] eqn:Eq; simpl.
  - destruct (String.eqb q "") eqn:Eq0; simpl.
    + apply String.eqb_eq in Eq0. subst q.
      rewrite Hne. simpl. by rewrite <- Hb1, <- Hat1.
    + destruct (String.eqb sq q); simpl; by rewrite <- Hb1, <- Hat1.
  - by rewrite <- Hb1, <- Hat1.
Qed.

(** A click on the pawn on e2 of the starting position, with one pixel of
    jitter, selects e2. *)
Lemma click_on_own_piece_witness :
  selectedSquare
    (o_state (pointerUp (Some "e2")
                (pointerRun [Move 101 100 true None]
                   (pointerDown (Some "e2") 100 100
                      (startPointer (boardOfFen startFen "e2e4"))))))
  = Some "e2".
Proof.
  destruct (click_on_own_piece (startPointer (boardOfFen startFen "e2e4")) "e2" 100 100
              [Move 101 100 true None] (Some "e2")
              (conj eq_refl (conj eq_refl eq_refl)) ltac:(discriminate) eq_refl
              ltac:(by repeat constructor))
    as (_ & _ & H & _).
  exact H.
Defined.

(** X24. With a piece selected, a click on a square that holds no own piece
    judges the attempt (selected square, clicked square) and clears the
    selection; the press itself changes nothing.  When the release returns
    the board is as it was, unless the animation function has run the
    callback of the Correct attempt at once: then the 150 ms timer is what
    the release leaves scheduled. *)
Theorem click_on_target_judges_attempt (p : Pointer) (pz : Puzzle) (a b : string)
    (x y : Z) :
  idle (session p) →
  puzzle (session p) = Some pz →
  selectedSquare (session p) = Some a → a ≠ "" →
  b ≠ "" → b ≠ a →
  isOwnPiece (session p) b = false →
  pointerDown (Some b) x y p = p
  ∧ o_verdict (pointerUp (Some b) (pointerDown (Some b) x y p))
    = Some (if isCorrect (best_move pz) a b then Correct else Incorrect)
  ∧ selectedSquare (o_state (pointerUp (Some b) (pointerDown (Some b) x y p))) = None
  ∧ totalAttempts (o_state (pointerUp (Some b) (pointerDown (Some b) x y p)))
    = (totalAttempts (session p) + 1)%Z
  ∧ (board (o_state (pointerUp (Some b) (pointerDown (Some b) x y p)))
     = board (session p)
     ∨ o_sched (pointerUp (Some b) (pointerDown (Some b) x y p)) = [SolvedTimer]).
Proof.
  intros (Ha & Hs & Hd) Hp Hsel Hane Hbne Hab Hown.
  assert (Hdown : pointerDown (Some b) x y p = p).
  { unfold pointerDown. rewrite Ha, Hs. simpl.
    apply String.eqb_neq in Hbne. rewrite Hbne. simpl. by rewrite Hown. }
  rewrite Hdown. split; [done|].
  unfold pointerUp, onMouseUp.
  set (s1 := if truthy (currentHoverSquare (session p))
             then set_currentHoverSquare None (session p) else session p).
  assert (H1 : dragging s1 = None ∧ animating s1 = false ∧ solved s1 = false
               ∧ pieces s1 = pieces (session p) ∧ turn s1 = turn (session p)
               ∧ selectedSquare s1 = Some a ∧ puzzle s1 = Some pz
               ∧ board s1 = board (session p)
               ∧ totalAttempts s1 = totalAttempts (session p))
    by (unfold s1; by destruct (truthy _)).
  destruct H1 as (-> & Ha1 & Hs1 & Hp1 & Ht1 & Hsel1 & Hpz1 & Hb1 & Hat1).
  apply String.eqb_neq in Hane, Hbne, Hab.
  rewrite !andb_false_r. simpl. rewrite Hbne. simpl.
  unfold selectSquare. simpl. rewrite Ha1, Hs1, Hsel1. simpl. rewrite Hane, Hab. simpl.
  assert (Hown1 : isOwnPiece (set_hasDragged false (set_dragging None s1)) b = false).
  { rewrite <- Hown. by apply isOwnPiece_frame. }
  rewrite Hown1, ?andb_false_r.
  set (s2 := set_selectedSquare None (set_hasDragged false (set_dragging None s1))).
  destruct (attemptMove_frame s2 a b) as (_ & -> & _).
  destruct (attemptMove_counts s2 pz a b Hpz1 Ha1) as [-> Hboard].
  rewrite (attemptMove_verdict s2 pz a b Hpz1 Ha1), <- Hb1, <- Hat1.
  done.
Qed.

(** With e2 selected on the starting position, a click on e4 is judged
    Correct for the best move "e2e4". *)
Lemma click_on_target_judges_attempt_witness :
  o_verdict
    (pointerUp (Some "e4")
       (pointerDown (Some "e4") 100 60
          (startPointer (set_selectedSquare (Some "e2") (boardOfFen startFen "e2e4")))))
  = Some (if isCorrect "e2e4" "e2" "e4" then Correct else Incorrect).
Proof.
  destruct (click_on_target_judges_attempt
              (startPointer (set_selectedSquare (Some "e2") (boardOfFen startFen "e2e4")))
              {| fen := startFen; best_move := "e2e4" |} "e2" "e4" 100 60
              (conj eq_refl (conj eq_refl eq_refl)) eq_refl eq_refl
              ltac:(discriminate) ltac:(discriminate) ltac:(discriminate) eq_refl)
    as (_ & H & _).
  exact H.
Defined.

(** ** Display helpers *)

Lemma substring_append_prefix (a b : string) (n : nat) :
  String.length a = n → String.substring 0 n (a ++ b) = a.
Proof. intros <-. apply substring_0_append. Qed.

Lemma substring_skip (a b : string) (n m : nat) :
  String.length a = n → String.substring n m (a ++ b) = String.substring 0 m b.
Proof.
  intros <-. induction a as [|c a IH]; [reflexivity|].
  rewrite append_cons. simpl. exact IH.
Qed.

(** X25. [formatLine] shows every move of the continuation as origin,
    dash, destination, separated by blanks; a promotion letter at the end
    of a move code is not shown. *)
Theorem formatLine_shows_squares (ms : list (string * string * string)) :
  Forall (λ m, String.length m.1.1 = 2%nat ∧ String.length m.1.2 = 2%nat) ms →
  formatLine (List.map moveCode ms)
  = join " " (List.map (λ m, m.1.1 ++ "-" ++ m.1.2) ms).
Proof.
  intros Hall. unfold formatLine. f_equal. rewrite List.map_map.
  induction Hall as [|[[from to] promo] ms [Hf Ht] Hms IH]; [reflexivity|].
  simpl in Hf, Ht. cbn [List.map]. rewrite IH. f_equal.
  unfold moveCode, substring. simpl.
  rewrite (substring_append_prefix from (to ++ promo) 2 Hf).
  rewrite (substring_skip from (to ++ promo) 2 2 Hf).
  by rewrite (substring_append_prefix to promo 2 Ht).
Qed.

(** The line for 1... e5 2. Nf3 and a promotion on e8. *)
Lemma formatLine_shows_squares_witness :
  formatLine ["e7e5"; "g1f3"; "e7e8q"] = "e7-e5 g1-f3 e7-e8".
Proof.
  exact (formatLine_shows_squares [("e7", "e5", ""); ("g1", "f3", ""); ("e7", "e8", "q")]
           ltac:(by repeat constructor)).
Defined.

Lemma squareIsLight_parity (f r : Z) :
  inBoard f r = true → squareIsLight (squareName f r) = Z.even (f + r).
Proof.
  intros H. apply inBoard_bounds in H as [Hf Hr].
  assert (f = 0 ∨ f = 1 ∨ f = 2 ∨ f = 3 ∨ f = 4 ∨ f = 5 ∨ f = 6 ∨ f = 7)%Z
    as Hfs by lia.
  assert (r = 0 ∨ r = 1 ∨ r = 2 ∨ r = 3 ∨ r = 4 ∨ r = 5 ∨ r = 6 ∨ r = 7)%Z
    as Hrs by lia.
  clear Hf Hr.
  repeat (destruct Hfs as [->|Hfs]); try subst f;
    repeat (destruct Hrs as [->|Hrs]); try subst r; reflexivity.
Qed.

(** X26. A bishop stays on its colour: every square generated for a bishop
    on a square of the board gets the same colour from [isLightSquare] as
    the bishop's own square. *)
Theorem bishop_keeps_square_colour (st : State) (sq piece d : string) :
  isSquare sq = true →
  getProp (pieces st) sq = Some piece →
  toUpperCase piece = "B" →
  In d (getPseudoLegalMoves st sq) →
  squareIsLight d = squareIsLight sq.
Proof.
  intros Hsq Hp Ht Hd.
  destruct (isSquare_indices sq Hsq) as [Hin Hname].
  destruct directions_nonzero as (_ & Hb & _).
  revert Hd. unfold getPseudoLegalMoves.
  rewrite Hp, (toUpperCase_nonempty piece "B" Ht) by discriminate.
  fold (fileIndex sq). fold (rankIndex sq). rewrite Ht.
  change (if String.eqb "B" "P" then _ else _)
    with (addSlides st (isUpper piece) (fileIndex sq) (rankIndex sq) bishopDirs []).
  rewrite (addSlides_In st _ _ _ Hin) by exact Hb.
  intros [[]|(df & dr & k & Hdir & Hk & Hin' & -> & _)].
  transitivity (squareIsLight (squareName (fileIndex sq) (rankIndex sq)));
    [|by rewrite <- Hname].
  rewrite (squareIsLight_parity _ _ Hin'), (squareIsLight_parity _ _ Hin).
  assert (Hpar : (df + dr = 0 ∨ df + dr = 2 ∨ df + dr = -2)%Z).
  { simpl in Hdir. destruct Hdir as [H|[H|[H|[H|[]]]]]; injection H as <- <-; lia. }
  replace (fileIndex sq + k * df + (rankIndex sq + k * dr))%Z
    with (fileIndex sq + rankIndex sq + k * (df + dr))%Z by lia.
  rewrite Z.even_add.
  replace (Z.even (k * (df + dr))) with true; [by destruct (Z.even _)|].
  symmetry. rewrite Z.even_mul.
  destruct Hpar as [-> |[-> | ->]]; simpl; apply orb_true_r.
Qed.

(** The bishop on c1 of "8/8/8/8/8/8/8/2B5 w - -" reaches h6; both squares
    get the same class. *)
Lemma bishop_keeps_square_colour_witness :
  squareIsLight "h6" = squareIsLight "c1".
Proof.
  apply (bishop_keeps_square_colour (boardOfFen "8/8/8/8/8/8/8/2B5 w - -" "c1h6")
           "c1" "B" "h6" eq_refl eq_refl eq_refl).
  vm_compute. tauto.
Defined.

(** ** A rejected puzzle, and a Correct attempt on the board *)

(** X27. When [parseFen] throws on the position of a newly fetched puzzle,
    [loadPuzzle] keeps board, selection, flags and counters of the previous
    puzzle but has already replaced the puzzle itself: the next attempt is
    judged against the best move of the new puzzle. *)
Theorem rejected_puzzle_replaces_best_move (p : Puzzle) (s : State) (from to : string) :
  parseFen (fen p) = TypeError →
  animating s = false →
  board (loadPuzzle p s) = board s
  ∧ (selectedSquare (loadPuzzle p s), solved (loadPuzzle p s),
     totalSolved (loadPuzzle p s), totalAttempts (loadPuzzle p s))
    = (selectedSquare s, solved s, totalSolved s, totalAttempts s)
  ∧ puzzle (loadPuzzle p s) = Some p
  ∧ o_verdict (attemptMove from to (loadPuzzle p s))
    = Some (if isCorrect (best_move p) from to then Correct else Incorrect).
Proof.
  intros Hrej Ha. unfold loadPuzzle. rewrite Hrej.
  repeat split. by apply attemptMove_verdict.
Qed.

(** A puzzle whose position has only three rows, arriving while the
    starting position with best move "e2e4" is shown: the attempt (e2, e4)
    is now judged against "d2d4". *)
Lemma rejected_puzzle_replaces_best_move_witness :
  board (loadPuzzle {| fen := "8/8/8 w - -"; best_move := "d2d4" |}
           (boardOfFen startFen "e2e4"))
  = board (boardOfFen startFen "e2e4")
  ∧ o_verdict (attemptMove "e2" "e4"
                 (loadPuzzle {| fen := "8/8/8 w - -"; best_move := "d2d4" |}
                    (boardOfFen startFen "e2e4")))
    = Some (if isCorrect "d2d4" "e2" "e4" then Correct else Incorrect).
Proof.
  destruct (rejected_puzzle_replaces_best_move
              {| fen := "8/8/8 w - -"; best_move := "d2d4" |}
              (boardOfFen startFen "e2e4") "e2" "e4" eq_refl eq_refl)
    as (H1 & _ & _ & H4).
  exact (conj H1 H4).
Defined.

(** X28. A Correct attempt that is not a castling move, for a best move
    without promotion letter, is applied by its animation callback like
    this: the destination gets what stood on the origin, the origin is
    emptied, every other square, the castling rights and the side to move
    stay as they are. *)
Theorem correct_attempt_moves_piece (s : State) (p : Puzzle) (from to : string) :
  puzzle s = Some p →
  o_verdict (attemptMove from to s) = Some Correct →
  String.length (toLowerCase (best_move p)) ≠ 5%nat →
  isCastlingMove s from to = false →
  from ≠ to →
  ∃ cb,
    o_sched (attemptMove from to s) = [cb]
    ∧ getProp (pieces (o_state (fire cb (o_state (attemptMove from to s))))) to
      = getProp (pieces s) from
    ∧ getProp (pieces (o_state (fire cb (o_state (attemptMove from to s))))) from
      = None
    ∧ (∀ sq, sq ≠ from → sq ≠ to →
         getProp (pieces (o_state (fire cb (o_state (attemptMove from to s))))) sq
         = getProp (pieces s) sq)
    ∧ castling (o_state (fire cb (o_state (attemptMove from to s)))) = castling s
    ∧ turn (o_state (fire cb (o_state (attemptMove from to s)))) = turn s.
Proof.
  intros Hp Hv Hlen Hcastle Hne.
  destruct (attemptMove_judged _ _ _ _ Hv) as [Ha _].
  revert Hv. rewrite (attemptMove_unfold s p from to Hp Ha). cbv zeta.
  destruct (isCorrect _ _ _);
    [|destruct (animateWrongMove s from to); discriminate]. intros _.
  rewrite Hcastle. apply Nat.eqb_neq in Hlen.
  destruct (animateMove_cases s from to) as [-> | ->];
    (eexists; split; [reflexivity|]); simpl; rewrite Hlen;
    unfold movePiece; simpl;
    (repeat split; try by prop_lookup);
    intros sq H1 H2; by prop_lookup.
Qed.

(** The attempt (e2, e4) on the starting position: the pawn stands on e4
    afterwards and e2 is empty. *)
Lemma correct_attempt_moves_piece_witness :
  ∃ cb,
    o_sched (attemptMove "e2" "e4" (boardOfFen startFen "e2e4")) = [cb]
    ∧ getProp (pieces (o_state (fire cb (o_state (attemptMove "e2" "e4"
                                                   (boardOfFen startFen "e2e4"))))))
              "e4"
      = getProp (pieces (boardOfFen startFen "e2e4")) "e2".
Proof.
  destruct (correct_attempt_moves_piece (boardOfFen startFen "e2e4")
              {| fen := startFen; best_move := "e2e4" |} "e2" "e4"
              eq_refl eq_refl ltac:(discriminate) eq_refl ltac:(discriminate))
    as (cb & H1 & H2 & _).
  exists cb. exact (conj H1 H2).
Defined.
